(** * image_stitcher: a shallow embedding of [src/image_stitcher.py]

    The development follows the layout of the Python module:

    - [F64]      the double-precision arithmetic the script relies on
                 (Python [float], [round], [int], [min]/[max]), on
                 the binary64 instance of [SpecFloat];
    - [OsPath]   the pieces of [os.path] and [str] that the script calls;
    - images, the file system and [stitch_images];
    - the state of [ImageStitcherApp] and its event handlers;
    - the properties of the composition engine, the preview controller
      and the output writer.

    Modelling choices.

    - A PIL image is the record of how it was made ([Pixels],
      [Resized], [Converted], [Blank], [Pasted]); its size and mode are
      computed from that record.  Pixel values are not modelled.
    - The file system is a finite map from path strings to directories
      and files; [Image.open] succeeds exactly on the files that hold an
      encoded image, whatever their name.
    - Python exceptions are values [Err e] of [result]; a [try] is a
      [match] on the result.
    - Methods of the class take the state [App] and return the new one.
      What Tk and the user supply during a handler (dialog answers, the
      canvas width, whether a write fails) is read from [Env].
    - A Tk [IntVar] bound to an entry is an [option Z]: [None] when the
      text of the entry is not a number and [get] raises.
    - A Python [str] is the string of its UTF-8 bytes.  The characters
      the script looks for (the dot, the separator, braces, the space)
      are single bytes that occur in no longer character; white space
      is recognised in its UTF-8 form, and [lower] acts on the ASCII
      letters, which is all the extension test needs. *)

From Stdlib Require Import ZArith Lia List Bool Ascii String.
From Stdlib Require Import Floats.SpecFloat Sorting.Sorted.
From stdpp Require Import base option list gmap strings pretty.

Open Scope Z_scope.

(** ** Exceptions and results *)

(** The exceptions that can escape the modelled functions. *)
Inductive exn :=
| EmptyInput              (* ValueError: no image selected *)
| InvalidOrientation      (* ValueError: orientation not vertical/horizontal *)
| Unreadable (path : string)   (* Image.open failed on [path] *)
| ZeroDivisionError
| OverflowError           (* int too large for a float, or float inf/nan to int *)
| BadSize                 (* Image.new with a negative width or height *)
| EmptySequence           (* max() or min() of an empty list *)
| WriteFailed.            (* img.save (or the conversion before it) raised *)

Inductive result (A : Type) :=
| Ok (a : A)
| Err (e : exn).
Arguments Ok {A} a.
Arguments Err {A} e.

Global Instance result_ret : MRet result := fun A a => Ok a.
Global Instance result_bind : MBind result := fun A B k r =>
  match r with
  | Ok a => k a
  | Err e => Err e
  end.

(** ** Double-precision floats *)

Module F64.

Definition prec : Z := 53.
Definition emax : Z := 1024.

Abbreviation float := spec_float.

Definition fmul : float -> float -> float := SFmul prec emax.
Definition fdiv : float -> float -> float := SFdiv prec emax.
Definition fltb : float -> float -> bool := SFltb.

(** An integer as an unrounded mantissa with exponent 0. *)
Definition exact (z : Z) : float :=
  match z with
  | Z0 => S754_zero false
  | Zpos p => S754_finite false p 0
  | Zneg p => S754_finite true p 0
  end.

(** [float(z)]: the nearest double; Python raises [OverflowError] when
    the integer is too large to be represented. *)
Definition float_of_int (z : Z) : result float :=
  match binary_normalize prec emax z 0 false with
  | S754_infinity _ => Err OverflowError
  | f => Ok f
  end.

(** [a / b] on two Python ints: the exact quotient, correctly rounded. *)
Definition int_truediv (a b : Z) : result float :=
  if b =? 0 then Err ZeroDivisionError
  else match fdiv (exact a) (exact b) with
       | S754_infinity _ => Err OverflowError
       | f => Ok f
       end.

(** A decimal literal [n/d] of the source text, e.g. [0.98] is
    [literal 98 100]: the double nearest to the written value. *)
Definition literal (n d : Z) : float := fdiv (exact n) (exact d).

(** Python's two-argument [max] and [min]: the first argument is kept
    unless the second one compares strictly greater (smaller). *)
Definition fmax (a b : float) : float := if fltb a b then b else a.
Definition fmin (a b : float) : float := if fltb b a then b else a.

Definition cond_neg (s : bool) (z : Z) : Z := if s then - z else z.

(** [int(x)]: truncation towards zero. *)
Definition to_int (x : float) : result Z :=
  match x with
  | S754_zero _ => Ok 0
  | S754_finite s m e =>
      Ok (cond_neg s
            (if 0 <=? e then Z.pos m * 2 ^ e else Z.pos m / 2 ^ (- e)))
  | S754_infinity _ | S754_nan => Err OverflowError
  end.

(** [round(x)] with one argument: the nearest integer, ties to even. *)
Definition round_half_even (q r d : Z) : Z :=
  match 2 * r ?= d with
  | Lt => q
  | Gt => q + 1
  | Eq => if Z.even q then q else q + 1
  end.

Definition round (x : float) : result Z :=
  match x with
  | S754_zero _ => Ok 0
  | S754_finite s m e =>
      Ok (cond_neg s
            (if 0 <=? e then Z.pos m * 2 ^ e
             else let d := 2 ^ (- e) in
                  round_half_even (Z.pos m / d) (Z.pos m mod d) d))
  | S754_infinity _ | S754_nan => Err OverflowError
  end.

Definition is_nan (x : float) : bool :=
  match x with S754_nan => true | _ => false end.

End F64.

Import F64.

(** ** [os.path] and [str] (POSIX flavour) *)

Module OsPath.

Local Open Scope string_scope.

Definition ascii_lower (c : ascii) : ascii :=
  let n := nat_of_ascii c in
  if ((65 <=? n) && (n <=? 90))%nat then ascii_of_nat (n + 32) else c.

(** [s.lower()], on the ASCII letters. *)
Fixpoint lower (s : string) : string :=
  match s with
  | EmptyString => EmptyString
  | String c s' => String (ascii_lower c) (lower s')
  end.

(** [s.rfind(c)]: index of the last occurrence, [-1] when absent. *)
Fixpoint rfind_from (c : ascii) (s : string) (i last : Z) : Z :=
  match s with
  | EmptyString => last
  | String a s' => rfind_from c s' (i + 1) (if Ascii.eqb a c then i else last)
  end.
Definition rfind (c : ascii) (s : string) : Z := rfind_from c s 0 (-1).

(** The scan of [genericpath._splitext] over [p[i:i+n]]: is there a
    character other than the dot? *)
Fixpoint has_non_dot (p : string) (i n : nat) : bool :=
  match n with
  | O => false
  | S n' =>
      match String.get i p with
      | Some c => if Ascii.eqb c "." then has_non_dot p (S i) n' else true
      | None => true
      end
  end.

Definition str_take (n : nat) (s : string) : string := String.substring 0 n s.
Definition str_drop (n : nat) (s : string) : string :=
  String.substring n (String.length s - n) s.

(** [os.path.splitext]: the extension starts at the last dot of the
    last path component, leading dots of that component excepted. *)
Definition splitext (p : string) : string * string :=
  let sepIndex := rfind "/" p in
  let dotIndex := rfind "." p in
  if (sepIndex <? dotIndex)%Z
     && has_non_dot p (Z.to_nat (sepIndex + 1))
                    (Z.to_nat (dotIndex - (sepIndex + 1)))
  then (str_take (Z.to_nat dotIndex) p, str_drop (Z.to_nat dotIndex) p)
  else (p, "").

Definition startswith_sep (s : string) : bool :=
  match s with
  | String c _ => Ascii.eqb c "/"
  | EmptyString => false
  end.

Fixpoint endswith_sep (s : string) : bool :=
  match s with
  | EmptyString => false
  | String c EmptyString => Ascii.eqb c "/"
  | String _ s' => endswith_sep s'
  end.

(** [os.path.join(a, b)]. *)
Definition join (a b : string) : string :=
  if startswith_sep b then b
  else if String.eqb a "" || endswith_sep a then a ++ b
  else a ++ "/" ++ b.

(** The white space of [str.isspace].  In the ASCII range: the
    characters 9 to 13 and 28 to 32. *)
Definition is_space (c : ascii) : bool :=
  let n := nat_of_ascii c in
  (((9 <=? n) && (n <=? 13)) || ((28 <=? n) && (n <=? 32)))%nat.

(** Beyond it, by their UTF-8 bytes: U+0085 and U+00A0, *)
Definition is_space2 (a b : ascii) : bool :=
  let a := nat_of_ascii a in
  let b := nat_of_ascii b in
  ((a =? 194) && ((b =? 133) || (b =? 160)))%nat.

(** and U+1680, U+2000 to U+200A, U+2028, U+2029, U+202F, U+205F and
    U+3000. *)
Definition is_space3 (a b c : ascii) : bool :=
  let a := nat_of_ascii a in
  let b := nat_of_ascii b in
  let c := nat_of_ascii c in
  (((a =? 225) && (b =? 154) && (c =? 128))
   || ((a =? 226) && (b =? 128)
       && (((128 <=? c) && (c <=? 138))
           || (c =? 168) || (c =? 169) || (c =? 175)))
   || ((a =? 226) && (b =? 129) && (c =? 159))
   || ((a =? 227) && (b =? 128) && (c =? 128)))%nat.

(** [s.lstrip()]: the white-space characters at the front are dropped. *)
Fixpoint lstrip (s : string) : string :=
  match s with
  | String a s1 =>
      if is_space a then lstrip s1
      else
        match s1 with
        | String b s2 =>
            if is_space2 a b then lstrip s2
            else
              match s2 with
              | String c s3 => if is_space3 a b c then lstrip s3 else s
              | EmptyString => s
              end
        | EmptyString => s
        end
  | EmptyString => EmptyString
  end.

(** The same on a string read backwards, where the bytes of a
    character come last byte first. *)
Fixpoint lstrip_rev (s : string) : string :=
  match s with
  | String a s1 =>
      if is_space a then lstrip_rev s1
      else
        match s1 with
        | String b s2 =>
            if is_space2 b a then lstrip_rev s2
            else
              match s2 with
              | String c s3 => if is_space3 c b a then lstrip_rev s3 else s
              | EmptyString => s
              end
        | EmptyString => s
        end
  | EmptyString => EmptyString
  end.

(** [s.strip()]. *)
Definition strip (s : string) : string :=
  String.rev (lstrip_rev (String.rev (lstrip s))).

End OsPath.

(** ** Image tools *)

Definition VALID_EXTS : gset string :=
  {[ ".jpg"; ".jpeg"; ".png"; ".bmp"; ".gif"; ".webp"; ".tif"; ".tiff" ]}%string.

Definition is_image_file (path : string) : bool :=
  bool_decide (OsPath.lower (snd (OsPath.splitext path)) ∈ VALID_EXTS).

(** Pixel modes; only the two canvas modes matter to the script. *)
Inductive Mode :=
| RGB
| RGBA
| OtherMode (name : string).

Inductive Fill :=
| Fill3 (r g b : Z)
| Fill4 (r g b a : Z).

(** A PIL image, described by how it was obtained.  Every PIL call of
    the script returns a new image or, for [paste], updates the canvas
    it is called on; none touches the pixels of its argument. *)
Inductive Image :=
| Pixels (data : string) (w h : Z) (m : Mode)   (* decoded pixel data *)
| Resized (src : Image) (w h : Z)     (* src.resize((w, h), Image.LANCZOS) *)
| Converted (src : Image) (m : Mode)  (* src.convert(m) *)
| Blank (m : Mode) (w h : Z) (bg : Fill)        (* Image.new(m, (w, h), bg) *)
| Pasted (dst src : Image) (x y : Z). (* dst after dst.paste(src, (x, y)) *)

(** [img.size] *)
Fixpoint size (img : Image) : Z * Z :=
  match img with
  | Pixels _ w h _ => (w, h)
  | Resized _ w h => (w, h)
  | Converted src _ => size src
  | Blank _ w h _ => (w, h)
  | Pasted dst _ _ _ => size dst
  end.

(** [img.mode] *)
Fixpoint mode (img : Image) : Mode :=
  match img with
  | Pixels _ _ _ m => m
  | Resized src _ _ => mode src
  | Converted _ m => m
  | Blank m _ _ _ => m
  | Pasted dst _ _ _ => mode dst
  end.

(** The paste operations a canvas went through, oldest first. *)
Fixpoint pastes (img : Image) : list (Image * (Z * Z)) :=
  match img with
  | Pasted dst src x y => pastes dst ++ [(src, (x, y))]
  | _ => []
  end.

(** [Image.new]: PIL refuses a negative width or height.  The limits
    of the C library (a side beyond the range of a C [int], a canvas
    that does not fit in memory) are not modelled; the layout theorems
    are therefore stated for the compositions that [stitch_images]
    returns. *)
Definition Image_new (m : Mode) (sz : Z * Z) (bg : Fill) : result Image :=
  let '(w, h) := sz in
  if (w <? 0) || (h <? 0) then Err BadSize else Ok (Blank m w h bg).

(** ** The outside world *)

(** What a file holds: an encoded image (with the JPEG quality it was
    written with, if any) or bytes that no decoder accepts. *)
Inductive Payload :=
| Encoded (img : Image) (quality : option Z)
| Garbage.

Inductive Node :=
| Dir
| File (data : Payload).

(** Message boxes shown to the user. *)
Inductive Dialog :=
| WarnNoUsableImages
| WarnNoImages
| ErrSpacing
| ErrStitch (e : exn)
| InfoDone (path : string)
| ErrSave (path : string)
| WarnNoDir
| ErrDirMissing (dir : string)
| ErrIndex.

(** The file system, the log of the paths handed to [Image.open], and
    the message boxes shown so far. *)
Record World := {
  fs : gmap string Node;
  opened : list string;
  shown : list Dialog
}.

Definition log_open (p : string) (w : World) : World :=
  {| fs := fs w; opened := opened w ++ [p]; shown := shown w |}.

Definition show (d : Dialog) (w : World) : World :=
  {| fs := fs w; opened := opened w; shown := shown w ++ [d] |}.

Definition set_fs (f : gmap string Node) (w : World) : World :=
  {| fs := f; opened := opened w; shown := shown w |}.

(** How a failing [img.save] leaves its destination: untouched, or
    created (truncated) and left with a partial encoding. *)
Inductive Fault :=
| FailClean
| FailPartial.

(** What the environment answers during one event handler. *)
Record Env := {
  getcolor : string -> option (Z * Z * Z * Z); (* ImageColor.getcolor(_, "RGBA") *)
  winfo_width : Z;                    (* preview_canvas.winfo_width() *)
  asksaveasfilename : string;         (* the save dialog; empty when cancelled *)
  save_fault : string -> option Fault (* does img.save raise on this path? *)
}.

(** [Image.open] followed by [ImageOps.exif_transpose]: the stored image
    is the one the decoder yields after the EXIF orientation is applied. *)
Definition open_image_safe (w : World) (path : string) : World * result Image :=
  (log_open path w,
   match fs w !! path with
   | Some (File (Encoded img _)) => Ok img
   | _ => Err (Unreadable path)
   end).

Definition parse_color (env : Env) (value : string) : Z * Z * Z * Z :=
  match getcolor env value with
  | Some c => c
  | None => (255, 255, 255, 255)
  end.

(** [[open_image_safe(p) for p in paths]]: stops at the first failure. *)
Fixpoint open_images (w : World) (paths : list string)
  : World * result (list Image) :=
  match paths with
  | [] => (w, Ok [])
  | p :: ps =>
      match open_image_safe w p with
      | (w1, Err e) => (w1, Err e)
      | (w1, Ok img) =>
          let '(w2, r) := open_images w1 ps in
          (w2, imgs ← r; Ok (img :: imgs))
      end
  end.

Definition py_max (l : list Z) : result Z :=
  match l with
  | [] => Err EmptySequence
  | x :: xs => Ok (fold_left Z.max xs x)
  end.

Definition py_min (l : list Z) : result Z :=
  match l with
  | [] => Err EmptySequence
  | x :: xs => Ok (fold_left Z.min xs x)
  end.

Definition py_sum (l : list Z) : Z := fold_left Z.add l 0.

Definition len {A} (l : list A) : Z := Z.of_nat (length l).

(** [max(1, int(round(a * r)))] with [r = edge / b]: the length of the
    free side after scaling the aligned side from [b] to [edge]. *)
Definition scaled_side (a edge b : Z) : result Z :=
  r ← int_truediv edge b;
  x ← float_of_int a;
  n ← F64.round (fmul x r);
  Ok (Z.max 1 n).

(** The two resize loops of [stitch_images]. *)
Fixpoint align_widths (edge : Z) (images : list Image) : result (list Image) :=
  match images with
  | [] => Ok []
  | img :: rest =>
      let '(w, h) := size img in
      img' ← (if w =? edge then Ok img
              else h' ← scaled_side h edge w; Ok (Resized img edge h'));
      rest' ← align_widths edge rest;
      Ok (img' :: rest')
  end.

Fixpoint align_heights (edge : Z) (images : list Image) : result (list Image) :=
  match images with
  | [] => Ok []
  | img :: rest =>
      let '(w, h) := size img in
      img' ← (if h =? edge then Ok img
              else w' ← scaled_side w edge h; Ok (Resized img w' edge));
      rest' ← align_heights edge rest;
      Ok (img' :: rest')
  end.

(** The two paste loops of [stitch_images]. *)
Fixpoint paste_column (m : Mode) (spacing : Z) (images : list Image)
    (out : Image) (y : Z) : Image :=
  match images with
  | [] => out
  | img :: rest =>
      let '(w, h) := size img in
      let x := 0 in
      paste_column m spacing rest (Pasted out (Converted img m) x y)
                   (y + (h + spacing))
  end.

Fixpoint paste_row (m : Mode) (spacing : Z) (images : list Image)
    (out : Image) (x : Z) : Image :=
  match images with
  | [] => out
  | img :: rest =>
      let '(w, h) := size img in
      let y := 0 in
      paste_row m spacing rest (Pasted out (Converted img m) x y)
                (x + (w + spacing))
  end.

(** The alignment step of [stitch_images]. *)
Definition align_edge (images : list Image) (orientation : string)
    (scale_to_align_edge : bool) (target_edge_mode : string)
  : result (list Image) :=
  let sizes := map size images in
  let widths := map fst sizes in
  let heights := map snd sizes in
  if scale_to_align_edge then
    if String.eqb orientation "vertical" then
      edge ← (if String.eqb target_edge_mode "max"
              then py_max widths else py_min widths);
      align_widths edge images
    else
      edge ← (if String.eqb target_edge_mode "max"
              then py_max heights else py_min heights);
      align_heights edge images
  else Ok images.

(** The canvas step of [stitch_images]. *)
Definition build_canvas (env : Env) (images : list Image)
    (orientation : string) (spacing : Z) (bg_color : string) : result Image :=
  let sizes := map size images in
  let widths := map fst sizes in
  let heights := map snd sizes in
  let '(r, g, b, a) := parse_color env bg_color in
  let m := if a <? 255 then RGBA else RGB in
  let bg := match m with RGBA => Fill4 r g b a | _ => Fill3 r g b end in
  let gaps := spacing * (if 1 <? len images then len images - 1 else 0) in
  if String.eqb orientation "vertical" then
    canvas_w ← py_max widths;
    let total_h := py_sum heights + gaps in
    out ← Image_new m (canvas_w, total_h) bg;
    Ok (paste_column m spacing images out 0)
  else
    let total_w := py_sum widths + gaps in
    canvas_h ← py_max heights;
    out ← Image_new m (total_w, canvas_h) bg;
    Ok (paste_row m spacing images out 0).

(** [stitch_images] once the files are open. *)
Definition stitch_opened (env : Env) (images : list Image) (orientation : string)
    (scale_to_align_edge : bool) (spacing : Z) (bg_color : string)
    (target_edge_mode : string) : result Image :=
  if negb (String.eqb orientation "vertical"
           || String.eqb orientation "horizontal")
  then Err InvalidOrientation
  else
    images ← align_edge images orientation scale_to_align_edge
                        target_edge_mode;
    build_canvas env images orientation spacing bg_color.

Definition stitch_images (env : Env) (w : World) (paths : list string)
    (orientation : string) (scale_to_align_edge : bool) (spacing : Z)
    (bg_color : string) (target_edge_mode : string) : World * result Image :=
  match paths with
  | [] => (w, Err EmptyInput)
  | _ =>
      let '(w1, r) := open_images w paths in
      (w1, images ← r;
           stitch_opened env images orientation scale_to_align_edge spacing
                   bg_color target_edge_mode)
  end.

(** ** The application state *)

(** The text of [size_label]. *)
Inductive Label :=
| LabelEmpty                    (* the empty string *)
| LabelFailed                   (* the preview-failed marker *)
| LabelSize (W H percent : Z).  (* width, height and zoom of the preview *)

(** The Tk variables.  An [IntVar] bound to an entry holds free text:
    [None] stands for a text that [get] cannot read as a number. *)
Record Vars := {
  live_preview_enabled : bool;
  preview_scale : float;
  var_orient : string;
  var_scale : bool;
  var_spacing : option Z;
  var_bg : string;
  var_target_mode : string;
  var_output_mode : string;
  var_out_dir : string;
  var_direct_ext : string;
  var_direct_index : option Z;
  var_auto_reset : bool
}.

(** The preview pane: the cached full-size composition, the scaled copy
    handed to Tk, the image item drawn on the canvas, the size label and
    whether a debounce callback is pending. *)
Record Preview := {
  preview_img_full : option Image;
  preview_img_tk : option Image;
  canvas_image : option Image;
  size_label : Label;
  _preview_job : bool
}.

Record App := {
  paths : list string;
  vars : Vars;
  view : Preview;
  status_var : option string;   (* the path of the last successful output *)
  progress : Z
}.

Definition set_paths (l : list string) (st : App) : App :=
  {| paths := l; vars := vars st; view := view st;
     status_var := status_var st; progress := progress st |}.

Definition set_vars (v : Vars) (st : App) : App :=
  {| paths := paths st; vars := v; view := view st;
     status_var := status_var st; progress := progress st |}.

Definition set_view (p : Preview) (st : App) : App :=
  {| paths := paths st; vars := vars st; view := p;
     status_var := status_var st; progress := progress st |}.

Definition set_status (s : option string) (st : App) : App :=
  {| paths := paths st; vars := vars st; view := view st;
     status_var := s; progress := progress st |}.

Definition _set_progress (val : Z) (st : App) : App :=
  {| paths := paths st; vars := vars st; view := view st;
     status_var := status_var st; progress := Z.max 0 (Z.min 100 val) |}.

Definition set_preview_scale (x : float) (st : App) : App :=
  let v := vars st in
  set_vars {| live_preview_enabled := live_preview_enabled v;
              preview_scale := x;
              var_orient := var_orient v; var_scale := var_scale v;
              var_spacing := var_spacing v; var_bg := var_bg v;
              var_target_mode := var_target_mode v;
              var_output_mode := var_output_mode v;
              var_out_dir := var_out_dir v;
              var_direct_ext := var_direct_ext v;
              var_direct_index := var_direct_index v;
              var_auto_reset := var_auto_reset v |} st.

Definition set_direct_index (i : Z) (st : App) : App :=
  let v := vars st in
  set_vars {| live_preview_enabled := live_preview_enabled v;
              preview_scale := preview_scale v;
              var_orient := var_orient v; var_scale := var_scale v;
              var_spacing := var_spacing v; var_bg := var_bg v;
              var_target_mode := var_target_mode v;
              var_output_mode := var_output_mode v;
              var_out_dir := var_out_dir v;
              var_direct_ext := var_direct_ext v;
              var_direct_index := Some i;
              var_auto_reset := var_auto_reset v |} st.

Definition set_live_preview (b : bool) (st : App) : App :=
  let v := vars st in
  set_vars {| live_preview_enabled := b;
              preview_scale := preview_scale v;
              var_orient := var_orient v; var_scale := var_scale v;
              var_spacing := var_spacing v; var_bg := var_bg v;
              var_target_mode := var_target_mode v;
              var_output_mode := var_output_mode v;
              var_out_dir := var_out_dir v;
              var_direct_ext := var_direct_ext v;
              var_direct_index := var_direct_index v;
              var_auto_reset := var_auto_reset v |} st.

Definition set_job (b : bool) (st : App) : App :=
  let p := view st in
  set_view {| preview_img_full := preview_img_full p;
              preview_img_tk := preview_img_tk p;
              canvas_image := canvas_image p;
              size_label := size_label p;
              _preview_job := b |} st.

Definition set_img_full (o : option Image) (st : App) : App :=
  let p := view st in
  set_view {| preview_img_full := o;
              preview_img_tk := preview_img_tk p;
              canvas_image := canvas_image p;
              size_label := size_label p;
              _preview_job := _preview_job p |} st.

Definition set_img_tk (o : option Image) (st : App) : App :=
  let p := view st in
  set_view {| preview_img_full := preview_img_full p;
              preview_img_tk := o;
              canvas_image := canvas_image p;
              size_label := size_label p;
              _preview_job := _preview_job p |} st.

Definition set_label (l : Label) (st : App) : App :=
  let p := view st in
  set_view {| preview_img_full := preview_img_full p;
              preview_img_tk := preview_img_tk p;
              canvas_image := canvas_image p;
              size_label := l;
              _preview_job := _preview_job p |} st.

(** [_draw_preview]: empty the canvas, then draw the given image, if any. *)
Definition _draw_preview (tk_img : option Image) (st : App) : App :=
  let p := view st in
  set_view {| preview_img_full := preview_img_full p;
              preview_img_tk := preview_img_tk p;
              canvas_image := tk_img;
              size_label := size_label p;
              _preview_job := _preview_job p |} st.

(** The state [__init__] leaves behind. *)
Definition init_app : App := {|
  paths := [];
  vars := {| live_preview_enabled := true;
             preview_scale := literal 5 10;
             var_orient := "vertical"; var_scale := true;
             var_spacing := Some 0; var_bg := "#FFFFFF";
             var_target_mode := "max";
             var_output_mode := "single"; var_out_dir := "";
             var_direct_ext := "png"; var_direct_index := Some 1;
             var_auto_reset := false |};
  view := {| preview_img_full := None; preview_img_tk := None;
             canvas_image := None; size_label := LabelEmpty;
             _preview_job := true |};
  status_var := None;
  progress := 0
|}.

(** ** The preview controller *)

Definition schedule_preview_update (st : App) : App :=
  if negb (live_preview_enabled (vars st)) then st
  else set_job true st.

(** The constants of the zoom range. *)
Definition scale_lo : float := literal 5 100.
Definition scale_hi : float := literal 3 1.
Definition fit_margin : float := literal 98 100.

(** [x / y] on two floats; Python raises on a zero divisor. *)
Definition float_truediv (x y : float) : result float :=
  match y with
  | S754_zero _ => Err ZeroDivisionError
  | _ => Ok (fdiv x y)
  end.

(** The scale [fit_preview_width] computes from the canvas width that Tk
    reports and the width of the composed image. *)
Definition fit_scale (winfo_w img_size_w : Z) : result float :=
  let canvas_w := Z.max 1 winfo_w in
  let img_w := Z.max 1 img_size_w in
  c ← float_of_int canvas_w;
  i ← float_of_int img_w;
  q ← float_truediv (fmul c fit_margin) i;
  Ok (fmin scale_hi (fmax scale_lo q)).

Definition fit_preview_width (env : Env) (st : App) : App * result unit :=
  match preview_img_full (view st) with
  | None => (st, Ok tt)
  | Some full =>
      if negb (live_preview_enabled (vars st)) then (st, Ok tt)
      else match fit_scale (winfo_width env) (fst (size full)) with
           | Ok scale => (set_preview_scale scale st, Ok tt)
           | Err e => (st, Err e)
           end
  end.

(** [max(1, int(n * scale))] *)
Definition scaled_px (n : Z) (scale : float) : result Z :=
  x ← float_of_int n;
  k ← to_int (fmul x scale);
  Ok (Z.max 1 k).

Definition render_preview_scaled (st : App) : App * result unit :=
  match preview_img_full (view st) with
  | None => (st, Ok tt)
  | Some full =>
      if negb (live_preview_enabled (vars st)) then (st, Ok tt)
      else
        let '(W, H) := size full in
        let scale := fmax scale_lo (fmin scale_hi (preview_scale (vars st))) in
        match (sw ← scaled_px W scale; sh ← scaled_px H scale; Ok (sw, sh)) with
        | Err e => (st, Err e)
        | Ok (sw, sh) =>
            let disp := Resized full sw sh in
            let st := _draw_preview (Some disp) (set_img_tk (Some disp) st) in
            match (c ← float_of_int 100; to_int (fmul scale c)) with
            | Err e => (st, Err e)
            | Ok percent => (set_label (LabelSize W H percent) st, Ok tt)
            end
        end
  end.

(** [int(self.var_spacing.get())] followed by the sign check: [None]
    when either raises. *)
Definition read_spacing (st : App) : option Z :=
  match var_spacing (vars st) with
  | Some s => if s <? 0 then None else Some s
  | None => None
  end.

Definition stitch_from_vars (env : Env) (w : World) (st : App) (spacing : Z)
  : World * result Image :=
  stitch_images env w (paths st) (var_orient (vars st)) (var_scale (vars st))
                spacing (var_bg (vars st)) (var_target_mode (vars st)).

(** The body of the second [try] of [render_preview_full]. *)
Definition preview_recompute (env : Env) (w : World) (st : App) (spacing : Z)
  : World * App * result unit :=
  match stitch_from_vars env w st spacing with
  | (w, Err e) => (w, st, Err e)
  | (w, Ok img) =>
      let st := set_img_full (Some img) st in
      match fit_preview_width env st with
      | (st, Err e) => (w, st, Err e)
      | (st, Ok _) =>
          let '(st, r) := render_preview_scaled st in (w, st, r)
      end
  end.

Definition render_preview_full (env : Env) (w : World) (st : App)
  : World * App :=
  let st := set_job false st in
  match paths st with
  | [] => (w, set_label LabelEmpty (_draw_preview None (set_img_full None st)))
  | _ =>
      if negb (live_preview_enabled (vars st))
      then (w, set_label LabelEmpty (_draw_preview None (set_img_full None st)))
      else
        match read_spacing st with
        | None => (w, st)    (* invalid spacing: do not update for now *)
        | Some spacing =>
            match preview_recompute env w st spacing with
            | (w, st, Ok _) => (w, st)
            | (w, st, Err _) =>
                (w, set_label LabelFailed
                      (_draw_preview None (set_img_full None st)))
            end
        end
  end.

Definition toggle_live_preview (st : App) : App :=
  if live_preview_enabled (vars st) then schedule_preview_update st
  else set_label LabelEmpty
         (_draw_preview None
            (set_img_tk None (set_img_full None (set_job false st)))).

(** ** The working list *)

Definition _add_paths (ps : list string) (w : World) (st : App) : World * App :=
  let new_paths := List.filter is_image_file ps in
  match new_paths with
  | [] => (show WarnNoUsableImages w, st)
  | _ => (w, schedule_preview_update (set_paths (paths st ++ new_paths) st))
  end.

(** [add_files]: [ps] is what the file chooser returned. *)
Definition add_files (ps : list string) (w : World) (st : App) : World * App :=
  match ps with
  | [] => (w, st)
  | _ => _add_paths ps w st
  end.

(** [remove_selected]: [sel] is [listbox.curselection()], whose indices
    are valid positions of the list ([delete] leaves the list alone where
    Python's [del] would raise). *)
Definition remove_selected (sel : list nat) (st : App) : App :=
  match sel with
  | [] => st
  | _ =>
      schedule_preview_update
        (set_paths (fold_left (fun l idx => delete idx l) (rev sel) (paths st)) st)
  end.

Definition clear_all (st : App) : App :=
  schedule_preview_update (set_paths [] st).

(** [self.paths[i], self.paths[j] = self.paths[j], self.paths[i]] *)
Definition _swap_items (i j : nat) (l : list string) : list string :=
  match l !! i, l !! j with
  | Some vi, Some vj => <[j := vi]> (<[i := vj]> l)
  | _, _ => l
  end.

Definition move_selection (direction : Z) (sel : list nat) (st : App) : App :=
  match sel with
  | [] => st
  | _ =>
      let l :=
        if direction <? 0 then
          fold_left (fun l i => if Nat.eqb i 0 then l
                                else _swap_items i (i - 1) l)
                    sel (paths st)
        else
          fold_left (fun l i => if Nat.eqb i (length l - 1) then l
                                else _swap_items i (i + 1) l)
                    (rev sel) (paths st) in
      schedule_preview_update (set_paths l st)
  end.

(** ** The output writer *)

Definition is_RGB (m : Mode) : bool :=
  match m with RGB => true | _ => false end.

(** What [_save_image] hands to the encoder for a destination. *)
Definition encoded_for (save_path : string) (img : Image) : Payload :=
  let ext := OsPath.lower (snd (OsPath.splitext save_path)) in
  let jpeg := String.eqb ext ".jpg" || String.eqb ext ".jpeg" in
  let quality := if jpeg then Some 95 else None in
  let img := if jpeg && negb (is_RGB (mode img)) then Converted img RGB
             else img in
  Encoded img quality.

Definition _save_image (env : Env) (w : World) (img : Image)
    (save_path : string) : World * result unit :=
  match save_fault env save_path with
  | None =>
      (set_fs (<[save_path := File (encoded_for save_path img)]> (fs w)) w,
       Ok tt)
  | Some FailClean => (w, Err WriteFailed)
  | Some FailPartial =>
      (set_fs (<[save_path := File Garbage]> (fs w)) w, Err WriteFailed)
  end.

(** [os.path.exists] and [os.path.isdir] *)
Definition path_exists (w : World) (p : string) : bool :=
  match fs w !! p with
  | Some _ => true
  | None => false
  end.

Definition isdir (w : World) (p : string) : bool :=
  match fs w !! p with
  | Some Dir => true
  | _ => false
  end.

(** [os.path.join(out_dir, f"{idx}.{ext}")] *)
Definition candidate (out_dir : string) (idx : Z) (ext : string) : string :=
  OsPath.join out_dir (pretty idx +:+ "." +:+ ext).

(** The [while os.path.exists(save_path)] loop, with a bound on the
    number of iterations; [None] when the bound is exhausted. *)
Fixpoint probe_free (fuel : nat) (w : World) (out_dir ext : string) (idx : Z)
  : option Z :=
  match fuel with
  | O => None
  | S fuel' =>
      if path_exists w (candidate out_dir idx ext)
      then probe_free fuel' w out_dir ext (idx + 1)
      else Some idx
  end.

(** One more probe than there are entries in the file system is always
    enough (see [probe_free_total]). *)
Definition probe_bound (w : World) : nat := S (base.size (dom (fs w))).

(** [int(self.var_direct_index.get())] followed by the range check. *)
Definition read_index (st : App) : option Z :=
  match var_direct_index (vars st) with
  | Some i => if i <? 1 then None else Some i
  | None => None
  end.

Definition direct_ext (st : App) : string :=
  let ext := OsPath.lower (var_direct_ext (vars st)) in
  if String.eqb ext "png" || String.eqb ext "jpg" || String.eqb ext "webp"
  then ext else "png".

(** The truth value of [success_path]. *)
Definition truthy (success_path : option string) : bool :=
  match success_path with
  | Some s => negb (String.eqb s "")
  | None => false
  end.

(** The closing [if success_path and self.var_auto_reset.get()]. *)
Definition auto_reset (success_path : option string) (st : App) : App :=
  if truthy success_path && var_auto_reset (vars st)
  then set_direct_index 1 (clear_all st)
  else st.

(** [run_stitch] up to its closing auto-reset: the world, the state and
    the value of [success_path] at that point.  Where the source leaves
    through an early [return], [success_path] is still [None]. *)
Definition run_stitch_write (env : Env) (w : World) (st : App)
  : World * App * option string :=
  match paths st with
  | [] => (show WarnNoImages w, st, None)
  | _ =>
  match read_spacing st with
  | None => (show ErrSpacing w, st, None)
  | Some spacing =>
  let st := _set_progress 5 st in
  match stitch_from_vars env w st spacing with
  | (w, Err e) => (show (ErrStitch e) w, _set_progress 0 st, None)
  | (w, Ok img) =>
  let st := _set_progress 60 st in
  if String.eqb (var_output_mode (vars st)) "single" then
    let save_path := asksaveasfilename env in
    if String.eqb save_path "" then (w, _set_progress 0 st, None)
    else
      match _save_image env w img save_path with
      | (w, Ok _) =>
          (show (InfoDone save_path) w,
           _set_progress 0 (_set_progress 100 st), Some save_path)
      | (w, Err _) =>
          (show (ErrSave save_path) w, _set_progress 0 st, None)
      end
  else
    let out_dir := OsPath.strip (var_out_dir (vars st)) in
    if String.eqb out_dir "" then (show WarnNoDir w, _set_progress 0 st, None)
    else if negb (isdir w out_dir)
    then (show (ErrDirMissing out_dir) w, _set_progress 0 st, None)
    else
      match read_index st with
      | None => (show ErrIndex w, _set_progress 0 st, None)
      | Some idx =>
          let ext := direct_ext st in
          match probe_free (probe_bound w) w out_dir ext idx with
          | None => (w, st, None)   (* never taken: [probe_free_total] *)
          | Some idx =>
              let save_path := candidate out_dir idx ext in
              match _save_image env w img save_path with
              | (w, Ok _) =>
                  (w,
                   _set_progress 0
                     (set_status (Some save_path)
                        (_set_progress 100 (set_direct_index (idx + 1) st))),
                   Some save_path)
              | (w, Err _) =>
                  (show (ErrSave save_path) w,
                   _set_progress 0 (set_status None st), None)
              end
          end
      end
  end end end.

Definition run_stitch (env : Env) (w : World) (st : App) : World * App :=
  let '(w, st, success_path) := run_stitch_write env w st in
  (w, auto_reset success_path st).

(** ** Events *)

(** What the user and the Tk timer can make the application do, and
    what happens to the files behind its back. *)
Inductive Event :=
| AddFiles (chosen : list string)
| DropFiles (dropped : list string) (* on_drop, after _split_drop_paths *)
| RemoveSelected (sel : list nat)
| ClearAll
| MoveSelection (direction : Z) (sel : list nat)
| EditVars (v : Vars)               (* any settings widget *)
| SchedulePreview
| TimerFired                        (* the debounce callback *)
| ToggleLivePreview
| ScaleMoved (x : float)
| FitWidth                          (* the button, or a canvas resize *)
| RunStitch
| FilesChanged (files : gmap string Node).  (* by another program *)

Definition handle (env : Env) (ev : Event) (w : World) (st : App)
  : World * App :=
  match ev with
  | AddFiles ps => add_files ps w st
  | DropFiles ps => _add_paths ps w st
  | RemoveSelected sel => (w, remove_selected sel st)
  | ClearAll => (w, clear_all st)
  | MoveSelection d sel => (w, move_selection d sel st)
  | EditVars v => (w, set_vars v st)
  | SchedulePreview => (w, schedule_preview_update st)
  | TimerFired => render_preview_full env w st
  | ToggleLivePreview =>
      (w, toggle_live_preview
            (set_live_preview (negb (live_preview_enabled (vars st))) st))
  | ScaleMoved x => (w, fst (render_preview_scaled (set_preview_scale x st)))
  | FitWidth => (w, fst (fit_preview_width env st))
  | RunStitch => run_stitch env w st
  | FilesChanged files => (set_fs files w, st)
  end.

Fixpoint run_events (evs : list (Env * Event)) (w : World) (st : App)
  : World * App :=
  match evs with
  | [] => (w, st)
  | (env, ev) :: rest =>
      let '(w, st) := handle env ev w st in run_events rest w st
  end.

(** ** Vocabulary of the statements *)

Definition width (img : Image) : Z := fst (size img).
Definition height (img : Image) : Z := snd (size img).

(** [x] is the greatest (least) element of [l]. *)
Definition is_max (x : Z) (l : list Z) : Prop := x ∈ l ∧ ∀ y, y ∈ l → y ≤ x.
Definition is_min (x : Z) (l : list Z) : Prop := x ∈ l ∧ ∀ y, y ∈ l → x ≤ y.

Fixpoint sumZ (l : list Z) : Z :=
  match l with
  | [] => 0
  | x :: xs => x + sumZ xs
  end.

(** Offset of the [i]-th image along the stacking axis: the lengths of
    the images before it plus one gap per image before it. *)
Definition offset (spacing : Z) (lengths : list Z) (i : nat) : Z :=
  sumZ (take i lengths) + spacing * Z.of_nat i.

(** PIL never yields an image with a negative side. *)
Definition nonneg_size (img : Image) : Prop := 0 ≤ width img ∧ 0 ≤ height img.

(** The mode [stitch_images] picks for the canvas. *)
Definition canvas_mode (env : Env) (bg_color : string) : Mode :=
  if snd (parse_color env bg_color) <? 255 then RGBA else RGB.

(** What the alignment loops do to one image: keep the very same image
    when the aligned side already has the target length, otherwise
    resample it to the target length and the scaled free side. *)
Definition width_aligned (edge : Z) (img img' : Image) : Prop :=
  (width img = edge ∧ img' = img)
  ∨ (width img ≠ edge
     ∧ ∃ h', scaled_side (height img) edge (width img) = Ok h'
             ∧ img' = Resized img edge h').

Definition height_aligned (edge : Z) (img img' : Image) : Prop :=
  (height img = edge ∧ img' = img)
  ∨ (height img ≠ edge
     ∧ ∃ w', scaled_side (width img) edge (height img) = Ok w'
             ∧ img' = Resized img w' edge).

(** The target edge picked by [stitch_images]. *)
Definition target_edge (tem : string) (edge : Z) (lengths : list Z) : Prop :=
  (tem = "max"%string → is_max edge lengths)
  ∧ (tem = "min"%string → is_min edge lengths).

(** Every path of the list has a supported extension. *)
Definition image_paths (l : list string) : Prop :=
  Forall (fun p => is_image_file p = true) l.

(** ** The formulas of the specification *)

(** The scaled side read on exact numbers: the integer nearest to
    [a × edge / b], a tie going to the even neighbour as with Python's
    [round], and at least 1. *)
Definition spec_scaled_side (a edge b : Z) : Z :=
  Z.max 1 (round_half_even ((a * edge) / b) ((a * edge) mod b) b).

(** [clamp(x, lo, hi)] *)
Definition clamp (x lo hi : float) : float :=
  if fltb x lo then lo else if fltb hi x then hi else x.

(** [fitToWidth]: [clamp(viewportWidthPx × 0.98 / composedWidthPx,
    0.05, 3.0)]. *)
Definition fitToWidth (viewportWidthPx composedWidthPx : Z) : result float :=
  v ← float_of_int viewportWidthPx;
  c ← float_of_int composedWidthPx;
  q ← float_truediv (fmul v fit_margin) c;
  Ok (clamp q scale_lo scale_hi).

(** The side of the display buffer of [renderScaled]:
    [round(n × scale)], at least 1. *)
Definition spec_scaled_px (n : Z) (scale : float) : result Z :=
  x ← float_of_int n;
  k ← F64.round (fmul x scale);
  Ok (Z.max 1 k).

(** ** Worlds and states of the examples *)

(** No colour name resolves (the background is white), the preview
    canvas is 1000 pixels wide, the save dialog is cancelled, and no
    write fails. *)
Definition demo_env : Env := {|
  getcolor := fun _ => None;
  winfo_width := 1000;
  asksaveasfilename := "";
  save_fault := fun _ => None
|}.

(** The same, but every [img.save] fails half-way. *)
Definition failing_env : Env := {|
  getcolor := fun _ => None;
  winfo_width := 1000;
  asksaveasfilename := "";
  save_fault := fun _ => Some FailPartial
|}.

(** The same as [demo_env], but the user picks [stitched.png] in the
    save dialog. *)
Definition single_env : Env := {|
  getcolor := fun _ => None;
  winfo_width := 1000;
  asksaveasfilename := "stitched.png";
  save_fault := fun _ => None
|}.

Definition photo (name : string) (w h : Z) : Node :=
  File (Encoded (Pixels name w h RGB) None).

(** Two photos, 6×57 and 13×5, and a decodable image under a name that
    is no image name. *)
Definition demo_world : World := {|
  fs := {[ "a.png" := photo "a" 6 57; "b.png" := photo "b" 13 5;
           "notes.txt" := photo "n" 4 4 ]}%string;
  opened := [];
  shown := []
|}.

Definition demo_images : list Image :=
  [Pixels "a" 6 57 RGB; Pixels "b" 13 5 RGB].

Definition demo_opened : World :=
  log_open "b.png" (log_open "a.png" demo_world).

(** The two photos stacked, and side by side, without edge alignment
    and 2 pixels apart. *)
Definition demo_column_out : Image :=
  Pasted
    (Pasted (Blank RGB 13 64 (Fill3 255 255 255))
            (Converted (Pixels "a" 6 57 RGB) RGB) 0 0)
    (Converted (Pixels "b" 13 5 RGB) RGB) 0 59.

Definition demo_row_out : Image :=
  Pasted
    (Pasted (Blank RGB 21 57 (Fill3 255 255 255))
            (Converted (Pixels "a" 6 57 RGB) RGB) 0 0)
    (Converted (Pixels "b" 13 5 RGB) RGB) 8 0.

(** The two photos stacked with edge alignment to the greater width. *)
Definition demo_aligned_out : Image :=
  Pasted
    (Pasted (Blank RGB 13 128 (Fill3 255 255 255))
            (Converted (Resized (Pixels "a" 6 57 RGB) 13 123) RGB) 0 0)
    (Converted (Pixels "b" 13 5 RGB) RGB) 0 123.

(** An output directory that already holds [1.png] to [5.png]. *)
Definition seq_world : World := {|
  fs := {[ "a.png" := photo "a" 6 57; "b.png" := photo "b" 13 5;
           "out" := Dir;
           "out/1.png" := photo "1" 1 1; "out/2.png" := photo "2" 1 1;
           "out/3.png" := photo "3" 1 1; "out/4.png" := photo "4" 1 1;
           "out/5.png" := photo "5" 1 1 ]}%string;
  opened := [];
  shown := []
|}.

(** The settings of the examples: the defaults of [__init__] but for
    the spacing entry, the output mode and directory, the sequential
    counter and the auto-reset box. *)
Definition example_vars (spacing : option Z) (output_mode out_dir : string)
    (index : Z) (auto : bool) : Vars := {|
  live_preview_enabled := true;
  preview_scale := literal 5 10;
  var_orient := "vertical"; var_scale := true;
  var_spacing := spacing; var_bg := "#FFFFFF";
  var_target_mode := "max";
  var_output_mode := output_mode; var_out_dir := out_dir;
  var_direct_ext := "png"; var_direct_index := Some index;
  var_auto_reset := auto
|}.

(** Sequential output into [out], counter at 1, auto-reset off. *)
Definition seq_app : App :=
  set_vars (example_vars (Some 0) "direct" "out" 1 false)
           (set_paths ["a.png"; "b.png"]%string init_app).

(** Single-shot output, counter at 4, auto-reset on. *)
Definition single_app : App :=
  set_vars (example_vars (Some 0) "single" "" 4 true)
           (set_paths ["a.png"; "b.png"]%string init_app).

(** A preview state: a 3×3 composition cached, the zoom at its initial
    value 0.5. *)
Definition demo_canvas : Image := Blank RGB 3 3 (Fill3 255 255 255).

Definition demo_preview : App :=
  set_img_full (Some demo_canvas) (set_paths ["a.png"%string] init_app).

(** The same composition cached and drawn at 1×1, with the given content
    of the spacing entry; and the state after the debounce callback. *)
Definition stale_preview (spacing : option Z) : App :=
  set_vars (example_vars spacing "single" "" 1 false)
    (set_label (LabelSize 3 3 50)
       (_draw_preview (Some (Resized demo_canvas 1 1)) demo_preview)).

Definition stale_after (spacing : option Z) : App :=
  snd (render_preview_full demo_env demo_world (stale_preview spacing)).

(** A session: three files are offered, one of them not an image; the
    preview timer fires; the user runs the stitch. *)
Definition demo_session : list (Env * Event) :=
  [(demo_env, AddFiles ["a.png"; "notes.txt"; "b.png"]%string);
   (demo_env, TimerFired);
   (single_env, RunStitch)].

(** ** Further vocabulary *)

(** The canvas as [Image.new] made it, before anything was pasted. *)
Fixpoint base (img : Image) : Image :=
  match img with
  | Pasted dst _ _ _ => base dst
  | _ => img
  end.

(** [Image.open] accepts the file at [p]. *)
Definition readable (w : World) (p : string) : Prop :=
  ∃ img q, fs w !! p = Some (File (Encoded img q)).

(** The world after [Image.open] was called on each of [ps] in turn. *)
Definition log_opens (ps : list string) (w : World) : World :=
  {| fs := fs w; opened := opened w ++ ps; shown := shown w |}.

(** The background of the canvas: mode and fill for an RGBA colour. *)
Definition background (c : Z * Z * Z * Z) : Mode * Fill :=
  let '(r, g, b, a) := c in
  if a <? 255 then (RGBA, Fill4 r g b a) else (RGB, Fill3 r g b).

(** The rectangle a paste covers lies inside the canvas. *)
Definition inside (canvas : Image) (p : Image * (Z * Z)) : Prop :=
  let '(src, (x, y)) := p in
  0 ≤ x ∧ 0 ≤ y
  ∧ x + width src ≤ width canvas ∧ y + height src ≤ height canvas.

(** A world whose first file is missing from a list of three. *)
Definition demo_paths_gap : list string :=
  ["a.png"; "missing.png"; "b.png"]%string.

(** Every image file decodes to an image with non-negative sides. *)
Definition sane_files (w : World) : Prop :=
  ∀ p img q, fs w !! p = Some (File (Encoded img q)) → nonneg_size img.

(** The image pasted by the [i]-th paste, and where. *)
Definition pasted_at (out : Image) (i : nat) (src : Image) (x y : Z) : Prop :=
  pastes out !! i = Some (src, (x, y)).

(** The items of [l] whose position, counted from [k], is not selected. *)
Fixpoint unselected {A} (sel : list nat) (k : nat) (l : list A) : list A :=
  match l with
  | [] => []
  | x :: l' =>
      if bool_decide (k ∈ sel) then unselected sel (S k) l'
      else x :: unselected sel (S k) l'
  end.

(** A working list of four images. *)
Definition four_paths : App :=
  set_paths ["a.png"; "b.png"; "c.png"; "d.png"]%string init_app.

(** Every setting but the sequential counter. *)
Definition settings_but_index (v : Vars) :=
  (live_preview_enabled v, preview_scale v, var_orient v, var_scale v,
   var_spacing v, var_bg v, var_target_mode v, var_output_mode v,
   var_out_dir v, var_direct_ext v, var_auto_reset v).



(** Two images listed, every setting at its default: single-shot
    output, auto-reset off. *)
Definition keep_app : App :=
  set_paths ["a.png"; "b.png"]%string init_app.


(** Sequential output into a directory that does not exist. *)
Definition nodir_app : App :=
  set_vars (example_vars (Some 0) "direct" "nowhere" 1 false)
           (set_paths ["a.png"; "b.png"]%string init_app).

(** Every setting but the zoom of the preview. *)
Definition settings_but_zoom (v : Vars) :=
  (live_preview_enabled v, var_orient v, var_scale v, var_spacing v,
   var_bg v, var_target_mode v, var_output_mode v, var_out_dir v,
   var_direct_ext v, var_direct_index v, var_auto_reset v).

(** The preview pane with nothing in it: no composition cached, nothing
    drawn, an empty size label and no timer pending. *)
Definition blank_view : Preview := {|
  preview_img_full := None; preview_img_tk := None; canvas_image := None;
  size_label := LabelEmpty; _preview_job := false
|}.

Definition preview_off (st : App) : Prop :=
  live_preview_enabled (vars st) = false ∧ view st = blank_view.

(** The events that leave the live-preview box alone. *)
Definition keeps_box (ev : Event) : Prop :=
  match ev with
  | ToggleLivePreview => False
  | EditVars v => live_preview_enabled v = false
  | _ => True
  end.

Definition is_run (ev : Event) : bool :=
  match ev with RunStitch => true | _ => false end.

(** A session with the preview switched off: files are added, the
    timer fires, the zoom is moved, the list is cleared. *)
Definition quiet_session : list (Env * Event) :=
  [(demo_env, AddFiles ["a.png"; "b.png"]%string);
   (demo_env, TimerFired);
   (demo_env, ScaleMoved (literal 2 1));
   (demo_env, FitWidth);
   (demo_env, ClearAll)].

(** ** Dropped files *)

(** [if token.strip(): result.append(token.strip()); token = ""] *)
Definition flush_stripped (res : list string) (token : string)
  : list string * string :=
  if String.eqb (OsPath.strip token) "" then (res, token)
  else (res ++ [OsPath.strip token], ""%string).

(** One round of the scanning loop of [_split_drop_paths], on the
    state [(result, token, in_brace)]. *)
Definition split_step (s : list string * string * bool) (ch : ascii)
  : list string * string * bool :=
  let '(res, token, in_brace) := s in
  if Ascii.eqb ch "{" then
    let '(res, token) := flush_stripped res token in (res, token, true)
  else if Ascii.eqb ch "}" then
    if String.eqb token "" then (res, token, false)
    else (res ++ [token], ""%string, false)
  else if Ascii.eqb ch " " && negb in_brace then
    let '(res, token) := flush_stripped res token in (res, token, in_brace)
  else (res, (token +:+ String ch "")%string, in_brace).

Fixpoint split_loop (data : string) (s : list string * string * bool)
  : list string * string * bool :=
  match data with
  | EmptyString => s
  | String ch data' => split_loop data' (split_step s ch)
  end.

(** The list [result] of [_split_drop_paths] when the scan is over. *)
Definition split_tokens (data : string) : list string :=
  let '(res, token, _) := split_loop data ([], ""%string, false) in
  fst (flush_stripped res token).

(** The files [os.walk(p)] leads to, each joined to its directory;
    [walk p] lists the directories under [p] with their files. *)
Definition walk_files (walk : string → list (string * list string))
    (p : string) : list string :=
  concat (map (fun '(root, files) => map (OsPath.join root) files) (walk p)).

Definition _split_drop_paths (walk : string → list (string * list string))
    (w : World) (data : string) : list string :=
  concat (map (fun p => if isdir w p
                        then List.filter is_image_file (walk_files walk p)
                        else if is_image_file p then [p] else [])
              (split_tokens data)).

Definition on_drop (walk : string → list (string * list string))
    (data : string) (w : World) (st : App) : World * App :=
  _add_paths (_split_drop_paths walk w data) w st.

(** Every character of [s] passes [f]. *)
Fixpoint all_chars (f : ascii → bool) (s : string) : bool :=
  match s with
  | EmptyString => true
  | String c s' => f c && all_chars f s'
  end.

Definition has_space (p : string) : bool :=
  negb (all_chars (fun c => negb (Ascii.eqb c " ")) p).

(** A name as a drop source writes it into a Tk list: in braces when it
    contains a space. *)
Definition tk_quote (p : string) : string :=
  if has_space p then ("{" +:+ p +:+ "}")%string else p.

(** The names such a list carries unchanged: not empty, free of braces
    and, when written without braces, free of white space (that of
    [str.strip]) at both ends. *)
Definition plain (p : string) : bool :=
  negb (String.eqb p "")
  && all_chars (fun c => negb (Ascii.eqb c "{") && negb (Ascii.eqb c "}")) p
  && (has_space p || String.eqb (OsPath.strip p) p).

(** No directory is walked. *)
Definition no_walk : string → list (string * list string) := fun _ => [].

Definition dropped_names : list string :=
  ["a.png"; "my holiday.JPG"; "notes.txt"; "b.png"]%string.

(** ** The zoom range *)

(** [0.05 ≤ s ≤ 3.0]; no NaN passes. *)
Definition in_zoom_range (s : float) : Prop :=
  SFleb scale_lo s = true ∧ SFleb s scale_hi = true.

(** The user picks the existing [b.png] in the save dialog, and every
    [img.save] fails half-way. *)
Definition clobber_env : Env := {|
  getcolor := fun _ => None;
  winfo_width := 1000;
  asksaveasfilename := "b.png";
  save_fault := fun _ => Some FailPartial
|}.

(** ** Names and extensions *)

(** The last component of a path: what follows its last [/]. *)
Fixpoint last_component (s : string) : string :=
  match s with
  | EmptyString => EmptyString
  | String c s' =>
      if all_chars (fun a => negb (Ascii.eqb a "/")) s'
      then (if Ascii.eqb c "/" then s' else s)
      else last_component s'
  end.

(** The file name in front of an extension is a name: its last
    component has a character other than the dot. *)
Definition proper_stem (root : string) : bool :=
  negb (all_chars (fun a => Ascii.eqb a ".") (last_component root)).

(** ** The models at work *)

Example literals_are_doubles :
  literal 98 100 = S754_finite false 8827055269646172 (-53)
  ∧ literal 5 100 = S754_finite false 7205759403792794 (-57)
  ∧ literal 3 1 = S754_finite false 6755399441055744 (-51).
Proof. repeat split. Qed.

Example round_ties_to_even :
  F64.round (literal 5 10) = Ok 0 ∧ F64.round (literal 15 10) = Ok 2
  ∧ F64.round (literal 25 10) = Ok 2 ∧ F64.round (literal (-25) 10) = Ok (-2).
Proof. repeat split. Qed.

Example int_truncates :
  to_int (literal 15 10) = Ok 1 ∧ to_int (literal (-15) 10) = Ok (-1)
  ∧ to_int (literal 299 100) = Ok 2.
Proof. repeat split. Qed.

Example quotient_then_product :
  int_truediv 13 6 = Ok (S754_finite false 4878899596318037 (-51))
  ∧ scaled_side 57 13 6 = Ok 123
  ∧ scaled_side 5 13 13 = Ok 5
  ∧ scaled_side 1 1 1000 = Ok 1.
Proof. repeat split. Qed.

Example splitext_examples :
  OsPath.splitext "a/b.c/x.tar.GZ" = ("a/b.c/x.tar", ".GZ")%string
  ∧ OsPath.splitext "a/b.c/.hidden" = ("a/b.c/.hidden", "")%string
  ∧ OsPath.splitext "...jpg" = ("...jpg", "")%string
  ∧ OsPath.splitext "x..jpg" = ("x.", ".jpg")%string.
Proof. repeat split. Qed.

Example is_image_file_examples :
  is_image_file "holiday/IMG_1.JPeG" = true
  ∧ is_image_file "scan.tiff" = true
  ∧ is_image_file "notes.txt" = false
  ∧ is_image_file ".png" = false
  ∧ is_image_file "archive.png/readme" = false.
Proof. repeat split. Qed.

Example candidate_examples :
  candidate "out" 6 "png" = "out/6.png"%string
  ∧ candidate "out/" 12 "webp" = "out/12.webp"%string
  ∧ OsPath.strip "  out dir  " = "out dir"%string.
Proof. repeat split. Qed.

(** ** Lists of integers *)

Lemma fold_left_add_sumZ l a : fold_left Z.add l a = a + sumZ l.
Proof.
  revert a. induction l as [|x xs IH]; intros a; simpl.
  - lia.
  - rewrite IH. lia.
Qed.

Lemma py_sum_sumZ l : py_sum l = sumZ l.
Proof. unfold py_sum. rewrite fold_left_add_sumZ. lia. Qed.

Lemma sumZ_nonneg l : Forall (fun x => 0 ≤ x) l → 0 ≤ sumZ l.
Proof. induction 1; simpl; lia. Qed.

Lemma fold_left_max_is_max xs x : is_max (fold_left Z.max xs x) (x :: xs).
Proof.
  revert x. induction xs as [|y ys IH]; intros x; simpl.
  - split; [left|]. intros z Hz. apply list_elem_of_singleton in Hz. lia.
  - destruct (IH (Z.max x y)) as [Hin Hle]. split.
    + apply elem_of_cons in Hin as [->|Hin].
      * destruct (Z.max_spec x y) as [[_ ->]|[_ ->]]; set_solver.
      * set_solver.
    + intros z Hz.
      assert (Z.max x y ≤ fold_left Z.max ys (Z.max x y))
        by (apply Hle; left).
      apply elem_of_cons in Hz as [->|Hz]; [lia|].
      apply elem_of_cons in Hz as [->|Hz]; [lia|].
      apply Hle. by right.
Qed.

Lemma fold_left_min_is_min xs x : is_min (fold_left Z.min xs x) (x :: xs).
Proof.
  revert x. induction xs as [|y ys IH]; intros x; simpl.
  - split; [left|]. intros z Hz. apply list_elem_of_singleton in Hz. lia.
  - destruct (IH (Z.min x y)) as [Hin Hle]. split.
    + apply elem_of_cons in Hin as [->|Hin].
      * destruct (Z.min_spec x y) as [[_ ->]|[_ ->]]; set_solver.
      * set_solver.
    + intros z Hz.
      assert (fold_left Z.min ys (Z.min x y) ≤ Z.min x y)
        by (apply Hle; left).
      apply elem_of_cons in Hz as [->|Hz]; [lia|].
      apply elem_of_cons in Hz as [->|Hz]; [lia|].
      apply Hle. by right.
Qed.

Lemma py_max_is_max l x : py_max l = Ok x → is_max x l.
Proof.
  destruct l; simpl; [discriminate|].
  intros [= <-]. apply fold_left_max_is_max.
Qed.

Lemma py_min_is_min l x : py_min l = Ok x → is_min x l.
Proof.
  destruct l; simpl; [discriminate|].
  intros [= <-]. apply fold_left_min_is_min.
Qed.

Lemma py_max_nonempty l : l ≠ [] → ∃ x, py_max l = Ok x.
Proof. destruct l; [done|]. simpl. eauto. Qed.

(** ** Opening the files *)

Lemma open_images_length w paths w' images :
  open_images w paths = (w', Ok images) → length images = length paths.
Proof.
  revert w w' images. induction paths as [|p ps IH]; intros w w' images; simpl.
  - by intros [= _ <-].
  - destruct (fs w !! p) as [[|[img q|]]|]; try discriminate.
    destruct (open_images (log_open p w) ps) as [w2 [imgs|e]] eqn:E;
      simpl; [|discriminate].
    intros [= _ <-]. simpl. f_equal. eauto.
Qed.

(** ** The paste loops *)

Lemma paste_column_size m sp images out y :
  size (paste_column m sp images out y) = size out.
Proof.
  revert out y. induction images as [|img rest IH]; intros out y; simpl; [done|].
  destruct (size img) as [w h]. by rewrite IH.
Qed.

Lemma paste_row_size m sp images out x :
  size (paste_row m sp images out x) = size out.
Proof.
  revert out x. induction images as [|img rest IH]; intros out x; simpl; [done|].
  destruct (size img) as [w h]. by rewrite IH.
Qed.

Lemma paste_column_mode m sp images out y :
  mode (paste_column m sp images out y) = mode out.
Proof.
  revert out y. induction images as [|img rest IH]; intros out y; simpl; [done|].
  destruct (size img) as [w h]. by rewrite IH.
Qed.

Lemma paste_row_mode m sp images out x :
  mode (paste_row m sp images out x) = mode out.
Proof.
  revert out x. induction images as [|img rest IH]; intros out x; simpl; [done|].
  destruct (size img) as [w h]. by rewrite IH.
Qed.

Lemma offset_0 sp l : offset sp l 0 = 0.
Proof. unfold offset. simpl. lia. Qed.

Lemma offset_S sp a l i : offset sp (a :: l) (S i) = a + sp + offset sp l i.
Proof. unfold offset. rewrite Nat2Z.inj_succ. simpl. lia. Qed.

Lemma paste_column_pastes m sp images out y :
  pastes (paste_column m sp images out y) =
  pastes out ++
  imap (fun i img =>
          (Converted img m, (0, y + offset sp (map height images) i)))
       images.
Proof.
  revert out y. induction images as [|img rest IH]; intros out y.
  - simpl. by rewrite app_nil_r.
  - cbn [paste_column imap map].
    assert (Hh : height img = snd (size img)) by done.
    destruct (size img) as [w h]. rewrite IH. cbn [pastes].
    rewrite <- app_assoc. f_equal. cbn [app]. f_equal.
    + rewrite offset_0. do 2 f_equal. lia.
    + apply imap_ext. intros i x _. unfold Basics.compose.
      rewrite offset_S, Hh. cbn [snd]. do 2 f_equal. lia.
Qed.

Lemma paste_row_pastes m sp images out x :
  pastes (paste_row m sp images out x) =
  pastes out ++
  imap (fun i img =>
          (Converted img m, (x + offset sp (map width images) i, 0)))
       images.
Proof.
  revert out x. induction images as [|img rest IH]; intros out x.
  - simpl. by rewrite app_nil_r.
  - cbn [paste_row imap map].
    assert (Hw : width img = fst (size img)) by done.
    destruct (size img) as [w h]. rewrite IH. cbn [pastes].
    rewrite <- app_assoc. f_equal. cbn [app]. f_equal.
    + rewrite offset_0. do 2 f_equal. lia.
    + apply imap_ext. intros i y _. unfold Basics.compose.
      rewrite offset_S, Hw. cbn [fst]. do 2 f_equal. lia.
Qed.

(** ** The canvas *)

Lemma gaps_eq {A} (images : list A) sp :
  images ≠ [] →
  sp * (if 1 <? len images then len images - 1 else 0) = sp * (len images - 1).
Proof.
  intros H. unfold len. destruct images as [|a [|b l]]; [done|simpl; lia|].
  destruct (_ <? _) eqn:E; [done|]. apply Z.ltb_ge in E. simpl in *; lia.
Qed.

Lemma build_canvas_vertical env images sp bg out :
  images ≠ [] →
  build_canvas env images "vertical" sp bg = Ok out →
  mode out = canvas_mode env bg
  ∧ is_max (width out) (map width images)
  ∧ height out = sumZ (map height images) + sp * (len images - 1)
  ∧ pastes out =
    imap (fun i img =>
            (Converted img (mode out), (0, offset sp (map height images) i)))
         images.
Proof.
  intros Hne. unfold build_canvas, canvas_mode.
  destruct (parse_color env bg) as [[[r g] b] a]. cbn [snd String.eqb].
  rewrite (gaps_eq images sp Hne). simpl.
  rewrite !map_map.
  destruct (py_max _) as [cw|] eqn:Hmax; [|discriminate]. simpl.
  destruct (_ || _) eqn:Hneg; [discriminate|]. simpl.
  intros [= <-].
  rewrite paste_column_mode. cbn [mode].
  unfold width, height.
  rewrite paste_column_size, paste_column_pastes. cbn [size fst snd pastes app].
  split; [done|]. split; [by apply py_max_is_max|].
  split; [by rewrite py_sum_sumZ|].
  apply imap_ext. intros i x _. simpl. do 2 f_equal.
Qed.

Lemma build_canvas_horizontal env images sp bg out :
  images ≠ [] →
  build_canvas env images "horizontal" sp bg = Ok out →
  mode out = canvas_mode env bg
  ∧ is_max (height out) (map height images)
  ∧ width out = sumZ (map width images) + sp * (len images - 1)
  ∧ pastes out =
    imap (fun i img =>
            (Converted img (mode out), (offset sp (map width images) i, 0)))
         images.
Proof.
  intros Hne. unfold build_canvas, canvas_mode.
  destruct (parse_color env bg) as [[[r g] b] a]. cbn [snd String.eqb].
  rewrite (gaps_eq images sp Hne). simpl.
  rewrite !map_map.
  destruct (py_max _) as [ch|] eqn:Hmax; [|discriminate]. simpl.
  destruct (_ || _) eqn:Hneg; [discriminate|]. simpl.
  intros [= <-].
  rewrite paste_row_mode. cbn [mode].
  unfold width, height.
  rewrite paste_row_size, paste_row_pastes. cbn [size fst snd pastes app].
  split; [done|]. split; [by apply py_max_is_max|].
  split; [by rewrite py_sum_sumZ|].
  apply imap_ext. intros i x _. simpl. do 2 f_equal.
Qed.

Lemma stitch_images_opened env w w' paths images o sc sp bg tem :
  paths ≠ [] → open_images w paths = (w', Ok images) →
  stitch_images env w paths o sc sp bg tem =
  (w', stitch_opened env images o sc sp bg tem).
Proof.
  intros Hne Hopen. unfold stitch_images.
  destruct paths; [done|]. by rewrite Hopen.
Qed.

Lemma open_images_nonempty w w' paths images :
  paths ≠ [] → open_images w paths = (w', Ok images) → images ≠ [].
Proof.
  intros Hne Hopen. apply open_images_length in Hopen.
  destruct images; [|done]. by destruct paths.
Qed.

(** ** The composition engine *)

(** C1. Without edge alignment a non-empty list of images is stacked
    flush to the origin.  Whenever [stitch_images] returns a canvas for
    a vertical composition, the canvas is as wide as the widest image,
    as high as all the heights plus one gap between neighbours, and the
    [i]-th image is pasted at [x = 0] and at [y] the heights and gaps
    before it.  Horizontally the same holds with width and height
    exchanged. *)
Theorem stitch_unaligned_layout env w w' paths spacing bg tem :
  (∀ out,
     stitch_images env w paths "vertical" false spacing bg tem = (w', Ok out) →
     ∃ images,
       open_images w paths = (w', Ok images)
       ∧ images ≠ []
       ∧ is_max (width out) (map width images)
       ∧ height out = sumZ (map height images) + spacing * (len images - 1)
       ∧ length (pastes out) = length images
       ∧ ∀ i img, images !! i = Some img →
           pastes out !! i =
           Some (Converted img (mode out),
                 (0, offset spacing (map height images) i)))
  ∧ (∀ out,
     stitch_images env w paths "horizontal" false spacing bg tem
     = (w', Ok out) →
     ∃ images,
       open_images w paths = (w', Ok images)
       ∧ images ≠ []
       ∧ is_max (height out) (map height images)
       ∧ width out = sumZ (map width images) + spacing * (len images - 1)
       ∧ length (pastes out) = length images
       ∧ ∀ i img, images !! i = Some img →
           pastes out !! i =
           Some (Converted img (mode out),
                 (offset spacing (map width images) i, 0))).
Proof.
  split; intros out Hrun; unfold stitch_images in Hrun;
    destruct paths as [|p ps] eqn:Hpaths; try done;
    destruct (open_images w (p :: ps)) as [w1 [images|e]] eqn:Hopen;
    try done; injection Hrun as <- Hout; exists images;
    (split; [done|]);
    assert (Hne : images ≠ [])
      by (by eapply open_images_nonempty; [|exact Hopen]);
    (split; [exact Hne|]);
    unfold stitch_opened, align_edge in Hout; simpl in Hout.
  - destruct (build_canvas_vertical _ _ _ _ _ Hne Hout)
      as (_ & Hmax & Hh & Hp).
    split; [exact Hmax|]. split; [exact Hh|]. split.
    + rewrite Hp. by rewrite length_imap.
    + intros i img Hi. rewrite Hp, list_lookup_imap, Hi. done.
  - destruct (build_canvas_horizontal _ _ _ _ _ Hne Hout)
      as (_ & Hmax & Hh & Hp).
    split; [exact Hmax|]. split; [exact Hh|]. split.
    + rewrite Hp. by rewrite length_imap.
    + intros i img Hi. rewrite Hp, list_lookup_imap, Hi. done.
Qed.

Lemma stitch_unaligned_layout_witness :
  (stitch_images demo_env demo_world ["a.png"; "b.png"]%string
                 "vertical" false 2 "#FFFFFF" "max"
   = (demo_opened, Ok demo_column_out)
   ∧ width demo_column_out = 13 ∧ height demo_column_out = 64
   ∧ pastes demo_column_out !! 1%nat
     = Some (Converted (Pixels "b" 13 5 RGB) (mode demo_column_out), (0, 59)))
  ∧ (stitch_images demo_env demo_world ["a.png"; "b.png"]%string
                   "horizontal" false 2 "#FFFFFF" "max"
     = (demo_opened, Ok demo_row_out)
     ∧ height demo_row_out = 57 ∧ width demo_row_out = 21
     ∧ pastes demo_row_out !! 1%nat
       = Some (Converted (Pixels "b" 13 5 RGB) (mode demo_row_out), (8, 0))).
Proof.
  assert (Hcol : stitch_images demo_env demo_world ["a.png"; "b.png"]%string
                   "vertical" false 2 "#FFFFFF" "max"
                 = (demo_opened, Ok demo_column_out))
    by (vm_compute; reflexivity).
  assert (Hrow : stitch_images demo_env demo_world ["a.png"; "b.png"]%string
                   "horizontal" false 2 "#FFFFFF" "max"
                 = (demo_opened, Ok demo_row_out))
    by (vm_compute; reflexivity).
  destruct (stitch_unaligned_layout demo_env demo_world demo_opened
              ["a.png"; "b.png"]%string 2 "#FFFFFF" "max") as [Hv Hh].
  destruct (Hv _ Hcol) as (images & Hopen & _ & _ & Hheight & _ & Hp).
  destruct (Hh _ Hrow) as (images' & Hopen' & _ & _ & Hwidth & _ & Hp').
  vm_compute in Hopen. injection Hopen as <-.
  vm_compute in Hopen'. injection Hopen' as <-.
  split.
  - split; [exact Hcol|]. split; [reflexivity|].
    split; [exact Hheight|]. exact (Hp 1%nat _ eq_refl).
  - split; [exact Hrow|]. split; [reflexivity|].
    split; [exact Hwidth|]. exact (Hp' 1%nat _ eq_refl).
Defined.

(** *** Edge alignment *)

Lemma align_widths_spec edge images images' :
  align_widths edge images = Ok images' →
  Forall2 (width_aligned edge) images images'.
Proof.
  revert images'. induction images as [|img rest IH]; intros images'.
  - intros [= <-]. constructor.
  - cbn [align_widths].
    assert (Hw : width img = fst (size img)) by done.
    assert (Hh : height img = snd (size img)) by done.
    destruct (size img) as [w h]. cbn [fst snd] in Hw, Hh.
    destruct (w =? edge) eqn:E.
    + apply Z.eqb_eq in E. simpl.
      destruct (align_widths edge rest) as [rest'|]; [|discriminate].
      simpl. intros [= <-]. constructor; [|by apply IH].
      left. split; [lia|done].
    + apply Z.eqb_neq in E.
      destruct (scaled_side h edge w) as [h'|] eqn:Hs; [|discriminate].
      simpl.
      destruct (align_widths edge rest) as [rest'|]; [|discriminate].
      simpl. intros [= <-]. constructor; [|by apply IH].
      right. split; [lia|]. exists h'. by rewrite Hw, Hh.
Qed.

Lemma align_heights_spec edge images images' :
  align_heights edge images = Ok images' →
  Forall2 (height_aligned edge) images images'.
Proof.
  revert images'. induction images as [|img rest IH]; intros images'.
  - intros [= <-]. constructor.
  - cbn [align_heights].
    assert (Hw : width img = fst (size img)) by done.
    assert (Hh : height img = snd (size img)) by done.
    destruct (size img) as [w h]. cbn [fst snd] in Hw, Hh.
    destruct (h =? edge) eqn:E.
    + apply Z.eqb_eq in E. simpl.
      destruct (align_heights edge rest) as [rest'|]; [|discriminate].
      simpl. intros [= <-]. constructor; [|by apply IH].
      left. split; [lia|done].
    + apply Z.eqb_neq in E.
      destruct (scaled_side w edge h) as [w'|] eqn:Hs; [|discriminate].
      simpl.
      destruct (align_heights edge rest) as [rest'|]; [|discriminate].
      simpl. intros [= <-]. constructor; [|by apply IH].
      right. split; [lia|]. exists w'. by rewrite Hw, Hh.
Qed.

Lemma map_width images : map fst (map size images) = map width images.
Proof. by rewrite map_map. Qed.

Lemma map_height images : map snd (map size images) = map height images.
Proof. by rewrite map_map. Qed.

Lemma pick_edge_spec tem lengths edge :
  (if String.eqb tem "max" then py_max lengths else py_min lengths) = Ok edge →
  target_edge tem edge lengths.
Proof.
  destruct (String.eqb tem "max") eqn:E; intros H.
  - apply String.eqb_eq in E as ->. split; [intros _|done].
    by apply py_max_is_max.
  - apply String.eqb_neq in E. split; [done|intros _].
    by apply py_min_is_min.
Qed.

(** C2 (amended), vertical and horizontal.  With edge alignment on, a
    composition that succeeds has aligned every image to one target
    length [W] of the shared edge: the greatest input length for
    ["max"], the least for ["min"].  An image already at [W] is pasted
    as it is; any other is resampled to [W] by [scaled_side], that is
    [max(1, round(a * r))] with [r = W / b] the double-precision
    quotient and [a * r] the double-precision product. *)
Theorem stitch_aligned_sizes env w w' paths images spacing bg tem :
  paths ≠ [] →
  open_images w paths = (w', Ok images) →
  (∀ out,
     stitch_images env w paths "vertical" true spacing bg tem = (w', Ok out) →
     ∃ W, target_edge tem W (map width images)
          ∧ length (pastes out) = length images
          ∧ ∀ i img, images !! i = Some img →
              ∃ img' pos,
                pastes out !! i = Some (Converted img' (mode out), pos)
                ∧ width img' = W
                ∧ width_aligned W img img')
  ∧ (∀ out,
     stitch_images env w paths "horizontal" true spacing bg tem = (w', Ok out) →
     ∃ W, target_edge tem W (map height images)
          ∧ length (pastes out) = length images
          ∧ ∀ i img, images !! i = Some img →
              ∃ img' pos,
                pastes out !! i = Some (Converted img' (mode out), pos)
                ∧ height img' = W
                ∧ height_aligned W img img').
Proof.
  intros Hne Hopen.
  pose proof (open_images_nonempty _ _ _ _ Hne Hopen) as Hne'.
  split; intros out;
    rewrite (stitch_images_opened _ _ _ _ _ _ _ _ _ _ Hne Hopen);
    unfold stitch_opened, align_edge; cbn [String.eqb Ascii.eqb Bool.eqb orb negb];
    rewrite ?map_width, ?map_height; intros [= Hrun].
  - destruct (if String.eqb tem "max" then _ else _) as [W|] eqn:HW;
      [|discriminate].
    apply pick_edge_spec in HW. cbn in Hrun.
    destruct (align_widths W images) as [images'|] eqn:Hal; [|discriminate].
    cbn in Hrun. apply align_widths_spec in Hal.
    assert (Hne'' : images' ≠ []).
    { apply Forall2_length in Hal. destruct images'; [|done]. by destruct images. }
    destruct (build_canvas_vertical _ _ _ _ _ Hne'' Hrun) as (_ & _ & _ & Hp).
    exists W. split; [done|]. split.
    { rewrite Hp, length_imap. symmetry. by eapply Forall2_length. }
    intros i img Hi.
    destruct (Forall2_lookup_l _ _ _ _ _ Hal Hi) as (img' & Hi' & Hrel).
    exists img', (0, offset spacing (map height images') i).
    split; [by rewrite Hp, list_lookup_imap, Hi'|]. split; [|done].
    destruct Hrel as [[? ->]|[_ (h' & _ & ->)]]; done.
  - destruct (if String.eqb tem "max" then _ else _) as [W|] eqn:HW;
      [|discriminate].
    apply pick_edge_spec in HW. cbn in Hrun.
    destruct (align_heights W images) as [images'|] eqn:Hal; [|discriminate].
    cbn in Hrun. apply align_heights_spec in Hal.
    assert (Hne'' : images' ≠ []).
    { apply Forall2_length in Hal. destruct images'; [|done]. by destruct images. }
    destruct (build_canvas_horizontal _ _ _ _ _ Hne'' Hrun) as (_ & _ & _ & Hp).
    exists W. split; [done|]. split.
    { rewrite Hp, length_imap. symmetry. by eapply Forall2_length. }
    intros i img Hi.
    destruct (Forall2_lookup_l _ _ _ _ _ Hal Hi) as (img' & Hi' & Hrel).
    exists img', (offset spacing (map width images') i, 0).
    split; [by rewrite Hp, list_lookup_imap, Hi'|]. split; [|done].
    destruct Hrel as [[? ->]|[_ (h' & _ & ->)]]; done.
Qed.

Lemma stitch_aligned_sizes_witness :
  ∃ W, target_edge "max" W (map width demo_images)
       ∧ length (pastes demo_aligned_out) = length demo_images
       ∧ ∀ i img, demo_images !! i = Some img →
           ∃ img' pos,
             pastes demo_aligned_out !! i
             = Some (Converted img' (mode demo_aligned_out), pos)
             ∧ width img' = W
             ∧ width_aligned W img img'.
Proof.
  destruct (stitch_aligned_sizes demo_env demo_world demo_opened
              ["a.png"; "b.png"]%string demo_images 0 "#FFFFFF" "max")
    as [Hv _].
  - done.
  - vm_compute. reflexivity.
  - apply Hv. vm_compute. reflexivity.
Defined.

(** C2, counterexample.  A 6×57 image aligned to the width 13 of its
    13×5 neighbour is resized to 13×123: the quotient 13/6 is rounded
    down to a double, so the product with 57 falls just below 123.5,
    while 57 × 13 / 6 is exactly 123.5 and rounds to 124. *)
Lemma aligned_height_counterexample :
  stitch_images demo_env demo_world ["a.png"; "b.png"]%string
                "vertical" true 0 "#FFFFFF" "max"
  = (demo_opened, Ok demo_aligned_out)
  ∧ pastes demo_aligned_out !! 0%nat
    = Some (Converted (Resized (Pixels "a" 6 57 RGB) 13 123) RGB, (0, 0))
  ∧ 2 * (57 * 13) = (2 * 123 + 1) * 6
  ∧ spec_scaled_side 57 13 6 = 124
  ∧ scaled_side 57 13 6 ≠ Ok (spec_scaled_side 57 13 6).
Proof.
  split; [vm_compute; reflexivity|].
  split; [reflexivity|].
  split; [reflexivity|].
  split; [reflexivity|].
  vm_compute. discriminate.
Qed.

(** ** Double-precision arithmetic never invents a NaN *)

Lemma shr_1_nonneg mrs : 0 ≤ shr_m mrs → 0 ≤ shr_m (shr_1 mrs).
Proof. destruct mrs as [[|[p|p|]|p] r s]; simpl; lia. Qed.

Lemma iter_pos_shr_1_nonneg n mrs :
  0 ≤ shr_m mrs → 0 ≤ shr_m (SpecFloat.iter_pos shr_1 n mrs).
Proof.
  revert mrs. induction n as [n IH|n IH|]; intros mrs H; simpl.
  - apply IH, IH. by apply shr_1_nonneg.
  - by apply IH, IH.
  - by apply shr_1_nonneg.
Qed.

Lemma shr_record_of_loc_m m l : shr_m (shr_record_of_loc m l) = m.
Proof. by destruct l as [|[]]. Qed.

Lemma shr_fexp_nonneg m e l :
  0 ≤ m → 0 ≤ shr_m (fst (shr_fexp prec emax m e l)).
Proof.
  intros H. unfold shr_fexp, shr.
  destruct (_ - e) as [|n|n]; cbn [fst]; rewrite ?shr_record_of_loc_m; try done.
  apply iter_pos_shr_1_nonneg. by rewrite shr_record_of_loc_m.
Qed.

Lemma round_nearest_even_nonneg m l : 0 ≤ m → 0 ≤ round_nearest_even m l.
Proof.
  intros H. destruct l as [|[]]; simpl; try lia.
  destruct (Z.even m); lia.
Qed.

Lemma binary_round_aux_number s m e l :
  0 ≤ m → is_nan (binary_round_aux prec emax s m e l) = false.
Proof.
  intros H. unfold binary_round_aux.
  pose proof (shr_fexp_nonneg m e l H) as H1.
  destruct (shr_fexp prec emax m e l) as [mrs' e']. cbn [fst] in H1.
  pose proof (shr_fexp_nonneg _ e' loc_Exact
                (round_nearest_even_nonneg _ (loc_of_shr_record mrs') H1))
    as H2.
  destruct (shr_fexp prec emax _ e' loc_Exact) as [mrs'' e''].
  cbn [fst] in H2.
  destruct (shr_m mrs'') as [|p|p]; [done| |lia].
  by destruct (_ <=? _).
Qed.


Lemma float_of_int_number z f : float_of_int z = Ok f → is_nan f = false.
Proof.
  unfold float_of_int, binary_normalize, binary_round.
  destruct z as [|p|p].
  - by intros [= <-].
  - destruct (shl_align _ _ _) as [mz ez].
    pose proof (binary_round_aux_number false (Z.pos mz) ez loc_Exact) as H.
    destruct (binary_round_aux _ _ _ _ _ _); intros [= <-]; auto with zarith.
  - destruct (shl_align _ _ _) as [mz ez].
    pose proof (binary_round_aux_number true (Z.pos mz) ez loc_Exact) as H.
    destruct (binary_round_aux _ _ _ _ _ _); intros [= <-]; auto with zarith.
Qed.

Lemma fmul_finite_number x s m e :
  is_nan x = false → x ≠ S754_infinity false → x ≠ S754_infinity true →
  is_nan (fmul x (S754_finite s m e)) = false.
Proof.
  intros Hx Hp Hn. destruct x as [sx|[]| |sx mx ex]; try done.
  unfold fmul, SFmul. apply binary_round_aux_number. lia.
Qed.

Lemma fdiv_finite_number x s m e :
  is_nan x = false → is_nan (fdiv x (S754_finite s m e)) = false.
Proof.
  intros Hx. destruct x as [sx|sx| |sx mx ex]; try done.
  unfold fdiv, SFdiv, SFdiv_core_binary.
  set (m' := match _ - _ with Z.pos _ => _ | Z0 => _ | Z.neg _ => _ end).
  assert (Hm' : 0 ≤ m').
  { subst m'. destruct (_ - _); [lia| |lia]. apply Z.shiftl_nonneg. lia. }
  pose proof (Z_div_mod m' (Z.pos m) eq_refl) as Hdm.
  destruct (Z.div_eucl m' (Z.pos m)) as [q r].
  apply binary_round_aux_number. nia.
Qed.

(** ** [fit_preview_width] *)

Lemma SFcompare_antisym a b c :
  SFcompare a b = Some c → SFcompare b a = Some (CompOpp c).
Proof.
  destruct a as [sa|sa| |sa ma ea], b as [sb|sb| |sb mb eb]; simpl;
    try discriminate; intros [= <-];
    repeat match goal with s : bool |- _ => destruct s end; try done.
  - rewrite (Z.compare_antisym ea eb).
    destruct (ea ?= eb); simpl; try done.
    by rewrite Pos.compare_cont_antisym, CompOpp_involutive.
  - rewrite (Z.compare_antisym ea eb).
    destruct (ea ?= eb); simpl; try done.
    by rewrite Pos.compare_cont_antisym.
Qed.

Lemma SFcompare_Eq_finite a s m e :
  SFcompare a (S754_finite s m e) = Some Eq → a = S754_finite s m e.
Proof.
  destruct a as [sa|sa| |sa ma ea]; simpl; try discriminate.
  - destruct s; discriminate.
  - destruct sa; discriminate.
  - destruct sa, s; try discriminate.
    + destruct (Z.compare_spec ea e); try discriminate.
      destruct (Pos.compare_cont Eq ma m) eqn:E; try discriminate.
      apply Pos.compare_eq in E. by subst.
    + destruct (Z.compare_spec ea e); try discriminate.
      intros [= E]. apply Pos.compare_eq in E. by subst.
Qed.

Lemma SFcompare_number a b :
  is_nan a = false → is_nan b = false → ∃ c, SFcompare a b = Some c.
Proof. destruct a, b; simpl; try discriminate; eauto. Qed.

Lemma float_of_int_finite z f :
  float_of_int z = Ok f →
  (∃ s, f = S754_zero s) ∨ (∃ s m e, f = S754_finite s m e).
Proof.
  intros H. pose proof (float_of_int_number _ _ H) as Hn.
  unfold float_of_int in H.
  destruct (binary_normalize _ _ _ _ _) as [s|s| |s m e];
    try discriminate; injection H as <-; try done; eauto.
Qed.

Lemma scale_lo_eq : scale_lo = S754_finite false 7205759403792794 (-57).
Proof. reflexivity. Qed.

Lemma scale_hi_eq : scale_hi = S754_finite false 6755399441055744 (-51).
Proof. reflexivity. Qed.

Lemma fit_margin_eq : fit_margin = S754_finite false 8827055269646172 (-53).
Proof. reflexivity. Qed.

(** On numbers, Python's [min(hi, max(lo, x))] is the clamp to
    [[lo, hi]]. *)
Lemma clamp_min_max_finite q lo hi sl ml el sh mh eh :
  lo = S754_finite sl ml el → hi = S754_finite sh mh eh →
  SFcompare lo hi = Some Lt →
  is_nan q = false →
  fmin hi (fmax lo q) = clamp q lo hi.
Proof.
  intros Hlo Hhi Hlh Hq.
  destruct (SFcompare_number q lo Hq) as [c Hc]; [by subst lo|].
  destruct (SFcompare_number q hi Hq) as [c' Hc']; [by subst hi|].
  pose proof (SFcompare_antisym _ _ _ Hc) as Hd.
  pose proof (SFcompare_antisym _ _ _ Hc') as Hd'.
  pose proof (SFcompare_antisym _ _ _ Hlh) as Hhl.
  unfold fmin, fmax, clamp, fltb, SFltb. rewrite Hc, Hd.
  destruct c; cbn [CompOpp].
  - rewrite Hlo in Hc. apply SFcompare_Eq_finite in Hc.
    rewrite <- Hlo in Hc. subst q. by rewrite Hlh, Hhl.
  - by rewrite Hlh.
  - rewrite Hc', Hd'. destruct c'; cbn [CompOpp]; try reflexivity.
    rewrite Hhi in Hc'. apply SFcompare_Eq_finite in Hc'. congruence.
Qed.

Lemma clamp_min_max q :
  is_nan q = false →
  fmin scale_hi (fmax scale_lo q) = clamp q scale_lo scale_hi.
Proof.
  apply (clamp_min_max_finite q scale_lo scale_hi _ _ _ _ _ _
           scale_lo_eq scale_hi_eq eq_refl).
Qed.

Lemma fit_quotient_number v c q :
  float_of_int v = Ok (A:=float) c →
  ∀ x, is_nan x = false → float_truediv x c = Ok q → is_nan q = false.
Proof.
  intros Hc x Hx. unfold float_truediv.
  destruct (float_of_int_finite _ _ Hc) as [[s ->]|(s & m & e & ->)];
    [discriminate|].
  intros [= <-]. by apply fdiv_finite_number.
Qed.

(** C7. For positive widths [fit_preview_width] sets the zoom to
    [clamp(viewport × 0.98 / composed, 0.05, 3.0)], both as the pure
    computation [fit_scale] and as the update of [preview_scale]; for a
    viewport of 1000 and a composition 2000 wide the zoom is 0.49. *)
Theorem fit_preview_width_clamp :
  (∀ vw cw, 0 < vw → 0 < cw → fit_scale vw cw = fitToWidth vw cw)
  ∧ (∀ env st full,
       preview_img_full (view st) = Some full →
       live_preview_enabled (vars st) = true →
       0 < winfo_width env → 0 < width full →
       fit_preview_width env st =
       match fitToWidth (winfo_width env) (width full) with
       | Ok scale => (set_preview_scale scale st, Ok tt)
       | Err e => (st, Err e)
       end)
  ∧ fit_scale 1000 2000 = Ok (literal 49 100).
Proof.
  assert (Hfit : ∀ vw cw, 0 < vw → 0 < cw → fit_scale vw cw = fitToWidth vw cw).
  { intros vw cw Hvw Hcw. unfold fit_scale, fitToWidth.
    rewrite !Z.max_r by lia.
    destruct (float_of_int vw) as [v|] eqn:Hv; [|done].
    destruct (float_of_int cw) as [c|] eqn:Hc; [|done].
    cbn [mbind result_bind].
    destruct (float_truediv _ c) as [q|] eqn:Hq; [|done].
    cbn [mbind result_bind].
    f_equal. apply clamp_min_max.
    eapply fit_quotient_number; [exact Hc| |exact Hq].
    rewrite fit_margin_eq.
    destruct (float_of_int_finite _ _ Hv) as [[s ->]|(s & m & e & ->)];
      [done|].
    by apply fmul_finite_number. }
  split; [exact Hfit|]. split; [|reflexivity].
  intros env st full Hfull Hlive Hvw Hcw.
  unfold fit_preview_width. rewrite Hfull, Hlive. cbn [negb].
  by rewrite <- Hfit.
Qed.


Lemma fit_preview_width_clamp_witness :
  fit_scale 1000 2000 = fitToWidth 1000 2000
  ∧ fit_preview_width demo_env demo_preview =
    match fitToWidth 1000 3 with
    | Ok scale => (set_preview_scale scale demo_preview, Ok tt)
    | Err e => (demo_preview, Err e)
    end.
Proof.
  destruct fit_preview_width_clamp as (Hpure & Hstate & _).
  split.
  - apply Hpure; lia.
  - apply (Hstate demo_env demo_preview demo_canvas);
      [reflexivity|reflexivity|simpl; lia|vm_compute; reflexivity].
Defined.

(** ** [render_preview_scaled] *)

Lemma SFcompare_above x lo hi ml el mh eh :
  lo = S754_finite false ml el → hi = S754_finite false mh eh →
  SFcompare lo hi = Some Lt →
  SFcompare x hi = Some Gt → SFcompare x lo = Some Gt.
Proof.
  intros -> ->. destruct x as [s|[]| |[] m e]; simpl; try done.
  change (Pos.compare_cont Eq ?a ?b) with (Pos.compare a b).
  destruct (Z.compare_spec el eh), (Z.compare_spec e eh),
    (Z.compare_spec e el); subst; try done; try lia.
  - destruct (Pos.compare_spec ml mh), (Pos.compare_spec m mh),
      (Pos.compare_spec m ml); subst; try done; lia.
Qed.

(** On numbers, Python's [max(lo, min(hi, x))] is the clamp to
    [[lo, hi]] as well. *)
Lemma clamp_max_min_finite x lo hi ml el mh eh :
  lo = S754_finite false ml el → hi = S754_finite false mh eh →
  SFcompare lo hi = Some Lt →
  is_nan x = false →
  fmax lo (fmin hi x) = clamp x lo hi.
Proof.
  intros Hlo Hhi Hlh Hx.
  destruct (SFcompare_number x lo Hx) as [c Hc]; [by subst lo|].
  destruct (SFcompare_number x hi Hx) as [c' Hc']; [by subst hi|].
  pose proof (SFcompare_antisym _ _ _ Hc) as Hd.
  pose proof (SFcompare_antisym _ _ _ Hc') as Hd'.
  pose proof (SFcompare_antisym _ _ _ Hlh) as Hhl.
  unfold fmin, fmax, clamp, fltb, SFltb. rewrite Hc, Hc', Hd'.
  destruct c'; cbn [CompOpp].
  - rewrite Hhi in Hc'. apply SFcompare_Eq_finite in Hc'.
    rewrite <- Hhi in Hc'. subst x. rewrite Hlh.
    rewrite Hhl in Hc. by injection Hc as <-.
  - rewrite Hd. destruct c; cbn [CompOpp]; try reflexivity.
    rewrite Hlo in Hc. apply SFcompare_Eq_finite in Hc. congruence.
  - rewrite Hlh.
    rewrite (SFcompare_above x lo hi _ _ _ _ Hlo Hhi Hlh Hc') in Hc.
    by injection Hc as <-.
Qed.

Lemma scaled_px_ge_1 n s k : scaled_px n s = Ok k → 1 ≤ k.
Proof.
  unfold scaled_px. destruct (float_of_int n); [|done]. cbn [mbind result_bind].
  destruct (to_int _); [|done]. cbn [mbind result_bind].
  intros [= <-]. lia.
Qed.

(** C8 (amended). A call of [render_preview_scaled] that completes
    shows the composition resampled to
    [max(1, int(width × s)) × max(1, int(height × s))], where [int]
    drops the fraction and [s] is the zoom after
    [max(0.05, min(3.0, ·))], the clamp to the zoom range; both sides
    are at least 1 pixel.  Whatever the outcome, the cached
    full-resolution composition is the one it was before. *)
Theorem render_preview_scaled_dims st :
  (∀ full st',
     preview_img_full (view st) = Some full →
     live_preview_enabled (vars st) = true →
     render_preview_scaled st = (st', Ok tt) →
     let s := fmax scale_lo (fmin scale_hi (preview_scale (vars st))) in
     (is_nan (preview_scale (vars st)) = false →
      s = clamp (preview_scale (vars st)) scale_lo scale_hi)
     ∧ ∃ sw sh,
         scaled_px (width full) s = Ok sw
         ∧ scaled_px (height full) s = Ok sh
         ∧ 1 ≤ sw ∧ 1 ≤ sh
         ∧ canvas_image (view st') = Some (Resized full sw sh)
         ∧ size (Resized full sw sh) = (sw, sh))
  ∧ preview_img_full (view (fst (render_preview_scaled st)))
    = preview_img_full (view st).
Proof.
  split.
  - intros full st' Hfull Hlive Hrun s. split.
    { apply (clamp_max_min_finite _ scale_lo scale_hi _ _ _ _
               scale_lo_eq scale_hi_eq eq_refl). }
    unfold render_preview_scaled in Hrun. rewrite Hfull, Hlive in Hrun.
    cbn [negb] in Hrun. fold s in Hrun.
    assert (Hw : width full = fst (size full)) by done.
    assert (Hh : height full = snd (size full)) by done.
    destruct (size full) as [W H]. cbn [fst snd] in Hw, Hh. subst W H.
    destruct (scaled_px (width full) s) as [sw|] eqn:Hsw; [|done].
    destruct (scaled_px (height full) s) as [sh|] eqn:Hsh; [|done].
    cbn [mbind result_bind] in Hrun.
    destruct (float_of_int 100); [|done]. cbn [mbind result_bind] in Hrun.
    destruct (to_int _); [|done].
    injection Hrun as <-.
    exists sw, sh. repeat split; try done; by eapply scaled_px_ge_1.
  - unfold render_preview_scaled.
    destruct (preview_img_full (view st)) as [full|] eqn:Hfull; [|done].
    destruct (negb _); [done|].
    destruct (size full) as [W H].
    destruct (_ ≫= _) as [[sw sh]|]; [|done].
    destruct (_ ≫= _); done.
Qed.

Lemma render_preview_scaled_dims_witness :
  ∃ sw sh,
    scaled_px 3 (literal 5 10) = Ok sw
    ∧ scaled_px 3 (literal 5 10) = Ok sh
    ∧ 1 ≤ sw ∧ 1 ≤ sh
    ∧ canvas_image (view (fst (render_preview_scaled demo_preview)))
      = Some (Resized demo_canvas sw sh)
    ∧ size (Resized demo_canvas sw sh) = (sw, sh).
Proof.
  destruct (render_preview_scaled_dims demo_preview) as [H _].
  destruct (H demo_canvas (fst (render_preview_scaled demo_preview)))
    as [_ Hdims]; [reflexivity|reflexivity|vm_compute; reflexivity|].
  exact Hdims.
Defined.

(** C8, counterexample. A 3×3 composition at zoom 0.5 is shown 1×1:
    [int(1.5)] is 1, where [round(1.5)] is 2. *)
Lemma render_scaled_truncates :
  canvas_image (view (fst (render_preview_scaled demo_preview)))
  = Some (Resized demo_canvas 1 1)
  ∧ spec_scaled_px 3 (preview_scale (vars demo_preview)) = Ok 2.
Proof. split; vm_compute; reflexivity. Qed.

(** ** Reading files does not write *)

Lemma open_images_frame w paths :
  fs (fst (open_images w paths)) = fs w
  ∧ shown (fst (open_images w paths)) = shown w.
Proof.
  revert w. induction paths as [|p ps IH]; intros w; [done|].
  cbn [open_images]. unfold open_image_safe.
  destruct (fs w !! p) as [[|[img q|]]|]; try done.
  specialize (IH (log_open p w)).
  destruct (open_images (log_open p w) ps) as [w2 r]. exact IH.
Qed.

Lemma stitch_images_frame env w paths o sc sp bg tem :
  fs (fst (stitch_images env w paths o sc sp bg tem)) = fs w
  ∧ shown (fst (stitch_images env w paths o sc sp bg tem)) = shown w.
Proof.
  unfold stitch_images. destruct paths as [|p ps]; [done|].
  pose proof (open_images_frame w (p :: ps)) as H.
  destruct (open_images w (p :: ps)) as [w1 r]. exact H.
Qed.

(** ** Candidate names *)

Lemma list_ascii_of_string_app (s t : string) :
  list_ascii_of_string (s +:+ t)
  = list_ascii_of_string s ++ list_ascii_of_string t.
Proof. induction s as [|c s IH]; simpl; [done|]. by rewrite IH. Qed.

Lemma list_ascii_of_string_inj (s t : string) :
  list_ascii_of_string s = list_ascii_of_string t → s = t.
Proof.
  intros H. rewrite <- (string_of_list_ascii_of_string s),
    <- (string_of_list_ascii_of_string t). by rewrite H.
Qed.

Lemma string_app_inv_tail (s1 s2 t : string) :
  s1 +:+ t = s2 +:+ t → s1 = s2.
Proof.
  intros H. apply list_ascii_of_string_inj.
  apply (f_equal list_ascii_of_string) in H.
  rewrite !list_ascii_of_string_app in H. by apply app_inv_tail in H.
Qed.

Lemma pretty_N_go_no_sep x s :
  OsPath.startswith_sep s = false →
  OsPath.startswith_sep (pretty_N_go x s) = false.
Proof.
  revert s. induction (N.lt_wf_0 x) as [x _ IH]; intros s Hs.
  assert (x = 0 ∨ 0 < x)%N as [->|Hx] by lia.
  - by rewrite pretty_N_go_0.
  - rewrite pretty_N_go_step by done. apply IH.
    { by apply N.div_lt. }
    unfold pretty_N_char. by repeat case_match.
Qed.

Lemma pretty_Z_no_sep (z : Z) : OsPath.startswith_sep (pretty z) = false.
Proof.
  destruct z as [|p|p]; [done| |done].
  unfold pretty, pretty_Z, pretty, pretty_positive, pretty, pretty_N.
  case_decide; [done|]. by apply pretty_N_go_no_sep.
Qed.

Lemma pretty_N_go_nonempty x s :
  s ≠ ""%string → pretty_N_go x s ≠ ""%string.
Proof.
  revert s. induction (N.lt_wf_0 x) as [x _ IH]; intros s Hs.
  assert (x = 0 ∨ 0 < x)%N as [->|Hx] by lia.
  - by rewrite pretty_N_go_0.
  - rewrite pretty_N_go_step by done. apply IH; [by apply N.div_lt|done].
Qed.

Lemma pretty_Z_nonempty (z : Z) : pretty z ≠ ""%string.
Proof.
  destruct z as [|p|p]; [done| |done].
  unfold pretty, pretty_Z, pretty, pretty_positive, pretty, pretty_N.
  case_decide; [done|].
  rewrite pretty_N_go_step by lia. by apply pretty_N_go_nonempty.
Qed.

Lemma name_no_sep (z : Z) (t : string) :
  OsPath.startswith_sep (pretty z +:+ t) = false.
Proof.
  pose proof (pretty_Z_no_sep z) as H.
  pose proof (pretty_Z_nonempty z) as Hne.
  destruct (pretty z) as [|c s]; [done|]. exact H.
Qed.

Lemma candidate_inj dir ext : Inj (=) (=) (fun idx => candidate dir idx ext).
Proof.
  intros i j. unfold candidate, OsPath.join.
  rewrite !name_no_sep. intros H.
  assert (Hn : pretty i +:+ "." +:+ ext = pretty j +:+ "." +:+ ext).
  { destruct (_ || _).
    - by apply (inj (String.append dir)) in H.
    - apply (inj (String.append dir)) in H.
      by apply (inj (String.append "/")) in H. }
  apply string_app_inv_tail in Hn. by apply (inj pretty) in Hn.
Qed.

Lemma candidate_nonempty dir idx ext : candidate dir idx ext ≠ ""%string.
Proof.
  unfold candidate, OsPath.join. rewrite name_no_sep.
  assert (Hn : ∀ s : string, s +:+ pretty idx +:+ "." +:+ ext ≠ ""%string).
  { intros s. destruct s; [|done]. simpl.
    destruct (pretty idx); done. }
  destruct (_ || _); [apply Hn|].
  destruct dir; done.
Qed.

(** ** The probing loop *)

Lemma probe_free_spec fuel w dir ext i j :
  probe_free fuel w dir ext i = Some j →
  i ≤ j
  ∧ path_exists w (candidate dir j ext) = false
  ∧ ∀ k, i ≤ k < j → path_exists w (candidate dir k ext) = true.
Proof.
  revert i. induction fuel as [|fuel IH]; intros i; simpl; [done|].
  destruct (path_exists w (candidate dir i ext)) eqn:E.
  - intros H. apply IH in H as (Hle & Hfree & Hbelow).
    split; [lia|]. split; [done|]. intros k Hk.
    destruct (decide (k = i)) as [->|Hne]; [done|]. apply Hbelow. lia.
  - intros [= <-]. split; [lia|]. split; [done|]. intros k Hk. lia.
Qed.

Lemma probe_free_none fuel w dir ext i :
  probe_free fuel w dir ext i = None →
  ∀ k, i ≤ k < i + Z.of_nat fuel →
       path_exists w (candidate dir k ext) = true.
Proof.
  revert i. induction fuel as [|fuel IH]; intros i; simpl.
  - intros _ k Hk. lia.
  - destruct (path_exists w (candidate dir i ext)) eqn:E; [|done].
    intros H k Hk. destruct (decide (k = i)) as [->|Hne]; [done|].
    apply (IH _ H). lia.
Qed.

(** The loop terminates: among [size + 1] distinct candidate names one
    is absent from a file system with [size] entries. *)
Lemma probe_free_total w dir ext i :
  ∃ j, probe_free (probe_bound w) w dir ext i = Some j.
Proof.
  destruct (probe_free (probe_bound w) w dir ext i) as [j|] eqn:E; [eauto|].
  exfalso. pose proof (probe_free_none _ _ _ _ _ E) as Hall.
  set (n := base.size (dom (fs w))) in *.
  set (l := (fun k => candidate dir k ext) <$> seqZ i (Z.of_nat (S n))).
  assert (Hnd : NoDup l).
  { apply (@NoDup_fmap_2 _ _ _ (candidate_inj dir ext)), NoDup_seqZ. }
  assert (Hsub : list_to_set (C:=gset string) l ⊆ dom (fs w)).
  { intros p Hp. apply elem_of_list_to_set in Hp.
    apply list_elem_of_fmap in Hp as (k & -> & Hk).
    apply elem_of_seqZ in Hk.
    specialize (Hall k). unfold probe_bound in Hall. fold n in Hall.
    unfold path_exists in Hall. apply elem_of_dom.
    destruct (fs w !! candidate dir k ext); [eauto|].
    discriminate Hall. lia. }
  apply subseteq_size in Hsub.
  rewrite size_list_to_set in Hsub by done.
  unfold l in Hsub. rewrite length_fmap, length_seqZ in Hsub.
  fold n in Hsub. lia.
Qed.



(** ** The output writer *)

Lemma isdir_ext w1 w2 p : fs w1 = fs w2 → isdir w1 p = isdir w2 p.
Proof. unfold isdir. by intros ->. Qed.


Lemma stitch_from_vars_fs env w st spacing :
  fs (fst (stitch_from_vars env w st spacing)) = fs w
  ∧ shown (fst (stitch_from_vars env w st spacing)) = shown w.
Proof. apply stitch_images_frame. Qed.




(** *** Failed writes *)

Lemma shown_not_extended (l : list Dialog) d : l ≠ l ++ [d].
Proof.
  intros H. apply (f_equal length) in H. rewrite length_app in H.
  simpl in H. lia.
Qed.

Lemma save_image_frame env w img p :
  shown (fst (_save_image env w img p)) = shown w
  ∧ ∀ q, q ≠ p → fs (fst (_save_image env w img p)) !! q = fs w !! q.
Proof.
  unfold _save_image. destruct (save_fault env p) as [[|]|]; cbn; split;
    try done; intros q Hq; by rewrite lookup_insert_ne.
Qed.

Lemma save_image_ok env w img p w' :
  _save_image env w img p = (w', Ok tt) →
  save_fault env p = None
  ∧ fs w' = <[p := File (encoded_for p img)]> (fs w).
Proof.
  unfold _save_image. destruct (save_fault env p) as [[|]|]; try done.
  by intros [= <-].
Qed.

Lemma save_image_err env w img p w' e :
  _save_image env w img p = (w', Err e) → is_Some (save_fault env p).
Proof.
  unfold _save_image. destruct (save_fault env p) as [[|]|]; try done; eauto.
Qed.

(** The dialogs tell the outcome: [show] appends exactly one. *)
Ltac shown_cases H :=
  first [ by apply shown_not_extended in H
        | apply app_inv_head in H; try discriminate H ].

Lemma run_stitch_write_failed env w st w1 st1 success_path p :
  run_stitch_write env w st = (w1, st1, success_path) →
  shown w1 = shown w ++ [ErrSave p] →
  success_path = None
  ∧ is_Some (save_fault env p)
  ∧ paths st1 = paths st
  ∧ var_direct_index (vars st1) = var_direct_index (vars st)
  ∧ (∀ q, q ≠ p → fs w1 !! q = fs w !! q)
  ∧ (String.eqb (var_output_mode (vars st)) "single" = false →
     fs w !! p = None)
  ∧ (String.eqb (var_output_mode (vars st)) "single" = true →
     p = asksaveasfilename env).
Proof.
  unfold run_stitch_write.
  destruct (paths st) as [|p0 ps] eqn:Hp.
  { intros [= <- <- <-] H. cbn [shown show] in H. shown_cases H. }
  destruct (read_spacing st) as [spacing|].
  2: { intros [= <- <- <-] H. cbn [shown show] in H. shown_cases H. }
  pose proof (stitch_from_vars_fs env w (_set_progress 5 st) spacing)
    as [Hfs Hsh].
  destruct (stitch_from_vars env w (_set_progress 5 st) spacing)
    as [w0 [img|e]]; cbn [fst] in Hfs, Hsh.
  2: { intros [= <- <- <-] H. cbn [shown show] in H. rewrite Hsh in H.
       shown_cases H. }
  change (vars (_set_progress 60 (_set_progress 5 st))) with (vars st).
  destruct (String.eqb (var_output_mode (vars st)) "single") eqn:Hmode.
  - destruct (String.eqb (asksaveasfilename env) "").
    { intros [= <- <- <-] H. cbn [shown show] in H. rewrite Hsh in H.
      shown_cases H. }
    pose proof (save_image_frame env w0 img (asksaveasfilename env))
      as [Hsh' Hfs'].
    destruct (_save_image env w0 img (asksaveasfilename env))
      as [w2 [[]|e]] eqn:Hsave; cbn [fst] in Hsh', Hfs';
      intros [= <- <- <-] H; cbn [shown show] in H;
      rewrite Hsh', Hsh in H; shown_cases H.
    injection H as <-.
    split; [done|]. split; [by eapply save_image_err|].
    split; [done|]. split; [done|]. split; [|done].
    intros q Hq. by rewrite Hfs', Hfs.
  - destruct (String.eqb (OsPath.strip (var_out_dir (vars st))) "").
    { intros [= <- <- <-] H. cbn [shown show] in H. rewrite Hsh in H.
      shown_cases H. }
    destruct (negb _).
    { intros [= <- <- <-] H. cbn [shown show] in H. rewrite Hsh in H.
      shown_cases H. }
    destruct (read_index _) as [i|].
    2: { intros [= <- <- <-] H. cbn [shown show] in H. rewrite Hsh in H.
         shown_cases H. }
    destruct (probe_free _ _ _ _ _) as [j|] eqn:Hj.
    2: { intros [= <- <- <-] H. cbn [shown show] in H. rewrite Hsh in H.
         shown_cases H. }
    cbv zeta.
    set (dest := candidate _ j _).
    pose proof (save_image_frame env w0 img dest) as [Hsh' Hfs'].
    destruct (_save_image env w0 img dest) as [w2 [[]|e]] eqn:Hsave;
      cbn [fst] in Hsh', Hfs'; intros [= <- <- <-] H; cbn [shown show] in H;
      rewrite Hsh', Hsh in H; shown_cases H.
    injection H as <-.
    split; [done|]. split; [by eapply save_image_err|].
    split; [done|]. split; [done|]. split; [|split; [|done]].
    + intros q Hq. by rewrite Hfs', Hfs.
    + intros _. apply probe_free_spec in Hj as (_ & Hfree & _).
      unfold path_exists in Hfree. fold dest in Hfree. rewrite Hfs in Hfree.
      by destruct (fs w !! dest).
Qed.

Lemma run_stitch_write_success env w st w1 st1 p :
  run_stitch_write env w st = (w1, st1, Some p) →
  p ≠ ""%string
  ∧ save_fault env p = None
  ∧ (∃ img, fs w1 = <[p := File (encoded_for p img)]> (fs w))
  ∧ var_auto_reset (vars st1) = var_auto_reset (vars st)
  ∧ (String.eqb (var_output_mode (vars st)) "single" = true →
     p = asksaveasfilename env).
Proof.
  unfold run_stitch_write.
  destruct (paths st) as [|p0 ps] eqn:Hp; [done|].
  destruct (read_spacing st) as [spacing|]; [|done].
  pose proof (stitch_from_vars_fs env w (_set_progress 5 st) spacing)
    as [Hfs _].
  destruct (stitch_from_vars env w (_set_progress 5 st) spacing)
    as [w0 [img|e]]; cbn [fst] in Hfs; [|done].
  change (vars (_set_progress 60 (_set_progress 5 st))) with (vars st).
  destruct (String.eqb (var_output_mode (vars st)) "single") eqn:Hmode.
  - destruct (String.eqb (asksaveasfilename env) "") eqn:Hcancel; [done|].
    destruct (_save_image env w0 img (asksaveasfilename env))
      as [w2 [[]|e]] eqn:Hsave; [|done].
    intros [= <- <- <-]. apply save_image_ok in Hsave as [Hok Hfs'].
    split; [by apply String.eqb_neq|]. split; [done|].
    split; [|done]. exists img. cbn [fs show]. by rewrite Hfs', Hfs.
  - destruct (String.eqb (OsPath.strip (var_out_dir (vars st))) ""); [done|].
    destruct (negb _); [done|].
    destruct (read_index _) as [i|]; [|done].
    destruct (probe_free _ _ _ _ _) as [j|] eqn:Hj; [|done].
    cbv zeta. set (dest := candidate _ j _).
    destruct (_save_image env w0 img dest) as [w2 [[]|e]] eqn:Hsave; [|done].
    intros [= <- <- <-]. apply save_image_ok in Hsave as [Hok Hfs'].
    split; [apply candidate_nonempty|]. split; [done|].
    split; [|done]. exists img. by rewrite Hfs', Hfs.
Qed.

(** C4 (amended). When the write fails, which [run_stitch] reports
    with its save-error dialog for the destination [p], the working list
    and the sequential counter are what they were, every file other than
    [p] is untouched, and the auto-reset has not run: the final state is
    the one the write step left.  In sequential mode [p] was a free
    name, so every file that existed is untouched; in single-shot mode
    [p] is the path picked in the dialog, and a file that existed there
    is not protected.  More generally the auto-reset runs only when
    [success_path] is set, which happens only when the write went
    through. *)
Theorem failed_write_keeps_state env w st :
  (∀ w' st' p,
     run_stitch env w st = (w', st') →
     shown w' = shown w ++ [ErrSave p] →
     is_Some (save_fault env p)
     ∧ paths st' = paths st
     ∧ var_direct_index (vars st') = var_direct_index (vars st)
     ∧ (∀ q node, q ≠ p → fs w !! q = Some node → fs w' !! q = Some node)
     ∧ (String.eqb (var_output_mode (vars st)) "single" = false →
        ∀ q node, fs w !! q = Some node → fs w' !! q = Some node)
     ∧ (String.eqb (var_output_mode (vars st)) "single" = true →
        p = asksaveasfilename env)
     ∧ run_stitch_write env w st = (w', st', None))
  ∧ (∀ w1 st1 success_path,
       run_stitch_write env w st = (w1, st1, success_path) →
       (success_path = None → run_stitch env w st = (w1, st1))
       ∧ (∀ p, success_path = Some p → save_fault env p = None)).
Proof.
  split.
  - intros w' st' p Hrun Hshown. unfold run_stitch in Hrun.
    destruct (run_stitch_write env w st) as [[w1 st1] sp] eqn:Hw.
    injection Hrun as <- <-.
    destruct (run_stitch_write_failed _ _ _ _ _ _ _ Hw Hshown)
      as (-> & Hfault & Hpaths & Hidx & Hfs & Hfree & Hpick).
    cbn [auto_reset truthy andb].
    split; [done|]. split; [done|]. split; [done|]. split.
    { intros q node Hq Hnode. by rewrite Hfs. }
    split; [|done].
    intros Hmode q node Hnode. specialize (Hfree Hmode).
    rewrite Hfs; [done|]. intros ->. by rewrite Hnode in Hfree.
  - intros w1 st1 sp Hw. split.
    + intros ->. unfold run_stitch. by rewrite Hw.
    + intros p ->. by apply run_stitch_write_success in Hw as (_ & ? & _).
Qed.

Lemma failed_write_keeps_state_witness :
  let r := run_stitch failing_env seq_world seq_app in
  is_Some (save_fault failing_env "out/6.png")
  ∧ paths (snd r) = paths seq_app
  ∧ var_direct_index (vars (snd r)) = var_direct_index (vars seq_app)
  ∧ (∀ q node, q ≠ "out/6.png"%string →
       fs seq_world !! q = Some node → fs (fst r) !! q = Some node)
  ∧ (String.eqb (var_output_mode (vars seq_app)) "single" = false →
     ∀ q node, fs seq_world !! q = Some node → fs (fst r) !! q = Some node)
  ∧ (String.eqb (var_output_mode (vars seq_app)) "single" = true →
     "out/6.png"%string = asksaveasfilename failing_env)
  ∧ run_stitch_write failing_env seq_world seq_app = (fst r, snd r, None).
Proof.
  intros r.
  destruct (failed_write_keeps_state failing_env seq_world seq_app) as [H _].
  apply (H (fst r) (snd r) "out/6.png"%string).
  - apply surjective_pairing.
  - vm_compute. reflexivity.
Defined.

(** C4, counterexample. Single-shot output onto the existing [b.png]
    with a write that fails half-way: the run ends with the save-error
    dialog, list and counter are kept, yet [b.png] no longer holds the
    image it held. *)
Lemma failed_single_write_damages_destination :
  fs demo_world !! "b.png"%string = Some (photo "b" 13 5)
  ∧ shown (fst (run_stitch clobber_env demo_world keep_app))
    = [ErrSave "b.png"]
  ∧ fs (fst (run_stitch clobber_env demo_world keep_app)) !! "b.png"%string
    = Some (File Garbage)
  ∧ paths (snd (run_stitch clobber_env demo_world keep_app)) = paths keep_app
  ∧ var_direct_index (vars (snd (run_stitch clobber_env demo_world keep_app)))
    = var_direct_index (vars keep_app).
Proof.
  split; [reflexivity|]. split; [vm_compute; reflexivity|].
  split; [vm_compute; reflexivity|]. split; vm_compute; reflexivity.
Qed.

(** C10. After a successful write, single-shot or sequential, with
    auto-reset enabled, [run_stitch] ends with the working list empty
    and the sequential next-index back at 1. *)
Theorem auto_reset_after_write env w st w1 st1 p :
  run_stitch_write env w st = (w1, st1, Some p) →
  var_auto_reset (vars st) = true →
  save_fault env p = None
  ∧ is_Some (fs w1 !! p)
  ∧ ∃ st', run_stitch env w st = (w1, st')
           ∧ var_direct_index (vars st') = Some 1
           ∧ paths st' = [].
Proof.
  intros Hw Hauto.
  destruct (run_stitch_write_success _ _ _ _ _ _ Hw)
    as (Hne & Hok & (img & Hfs) & Hflag & _).
  split; [done|]. split.
  { rewrite Hfs, lookup_insert_eq. eauto. }
  unfold run_stitch. rewrite Hw. eexists. split; [reflexivity|].
  unfold auto_reset, truthy. apply String.eqb_neq in Hne.
  rewrite Hne, Hflag, Hauto. cbn [negb andb].
  split; [done|]. unfold clear_all, schedule_preview_update.
  by destruct (negb _).
Qed.

Lemma auto_reset_after_write_witness :
  save_fault single_env "stitched.png" = None
  ∧ is_Some (fs (fst (run_stitch single_env demo_world single_app))
               !! "stitched.png"%string)
  ∧ ∃ st', run_stitch single_env demo_world single_app
           = (fst (run_stitch single_env demo_world single_app), st')
           ∧ var_direct_index (vars st') = Some 1
           ∧ paths st' = [].
Proof.
  apply (auto_reset_after_write single_env demo_world single_app
           (fst (run_stitch single_env demo_world single_app))
           (fst (run_stitch_write single_env demo_world single_app)).2
           "stitched.png"%string).
  - vm_compute. reflexivity.
  - reflexivity.
Defined.

(** ** Empty input *)

(** C9. [stitch_images] refuses an empty list with [EmptyInput].  With
    an empty working list [run_stitch] only warns, writing no file and
    changing nothing, and the preview recompute leaves no cached
    composition and an empty canvas. *)
Theorem empty_list_composes_nothing env w st o sc sp bg tem :
  stitch_images env w [] o sc sp bg tem = (w, Err EmptyInput)
  ∧ (paths st = [] →
     run_stitch env w st = (show WarnNoImages w, st)
     ∧ fs (fst (run_stitch env w st)) = fs w)
  ∧ (paths st = [] →
     ∃ st', render_preview_full env w st = (w, st')
            ∧ preview_img_full (view st') = None
            ∧ canvas_image (view st') = None
            ∧ size_label (view st') = LabelEmpty).
Proof.
  split; [done|]. split.
  - intros Hp. unfold run_stitch, run_stitch_write. by rewrite Hp.
  - intros Hp. unfold render_preview_full.
    change (paths (set_job false st)) with (paths st). rewrite Hp.
    eexists. split; [reflexivity|]. done.
Qed.

Lemma empty_list_composes_nothing_witness :
  (run_stitch demo_env demo_world init_app
   = (show WarnNoImages demo_world, init_app)
   ∧ fs (fst (run_stitch demo_env demo_world init_app)) = fs demo_world)
  ∧ ∃ st', render_preview_full demo_env demo_world init_app = (demo_world, st')
           ∧ preview_img_full (view st') = None
           ∧ canvas_image (view st') = None
           ∧ size_label (view st') = LabelEmpty.
Proof.
  destruct (empty_list_composes_nothing demo_env demo_world init_app
              "vertical" true 0 "#FFFFFF" "max") as (_ & Hrun & Hview).
  split; [apply Hrun|apply Hview]; reflexivity.
Defined.

(** ** Failed previews *)

(** C5 (amended). When the recompute itself raises — [stitch_images],
    or the fit or scaling that follow it — the cached composition is
    dropped, the canvas is emptied and the failure marker is shown.
    When the spacing entry is invalid, [render_preview_full] returns
    before that and leaves cache, canvas and label as they were. *)
Theorem preview_failure_clears env w st :
  paths st ≠ [] →
  live_preview_enabled (vars st) = true →
  (∀ spacing w' st1 e,
     read_spacing st = Some spacing →
     preview_recompute env w (set_job false st) spacing = (w', st1, Err e) →
     ∃ st', render_preview_full env w st = (w', st')
            ∧ preview_img_full (view st') = None
            ∧ canvas_image (view st') = None
            ∧ size_label (view st') = LabelFailed)
  ∧ (∀ spacing w' e,
       read_spacing st = Some spacing →
       stitch_from_vars env w st spacing = (w', Err e) →
       preview_recompute env w (set_job false st) spacing
       = (w', set_job false st, Err e))
  ∧ (read_spacing st = None →
     render_preview_full env w st = (w, set_job false st)).
Proof.
  intros Hne Hlive. split; [|split].
  - intros spacing w' st1 e Hsp Hrec. unfold render_preview_full.
    change (paths (set_job false st)) with (paths st).
    destruct (paths st); [done|].
    change (vars (set_job false st)) with (vars st). rewrite Hlive.
    cbn [negb].
    change (read_spacing (set_job false st)) with (read_spacing st).
    rewrite Hsp, Hrec. eexists. split; [reflexivity|]. done.
  - intros spacing w' e Hsp Hst. unfold preview_recompute.
    change (stitch_from_vars env w (set_job false st) spacing)
      with (stitch_from_vars env w st spacing).
    by rewrite Hst.
  - intros Hsp. unfold render_preview_full.
    change (paths (set_job false st)) with (paths st).
    destruct (paths st); [done|].
    change (vars (set_job false st)) with (vars st). rewrite Hlive.
    cbn [negb].
    change (read_spacing (set_job false st)) with (read_spacing st).
    by rewrite Hsp.
Qed.

Lemma preview_failure_clears_witness :
  (∃ st', render_preview_full demo_env demo_world
            (set_paths ["missing.png"%string] demo_preview)
          = (log_open "missing.png" demo_world, st')
          ∧ preview_img_full (view st') = None
          ∧ canvas_image (view st') = None
          ∧ size_label (view st') = LabelFailed)
  ∧ render_preview_full demo_env demo_world (stale_preview None)
    = (demo_world, set_job false (stale_preview None)).
Proof.
  split.
  - destruct (preview_failure_clears demo_env demo_world
                (set_paths ["missing.png"%string] demo_preview))
      as (Hfail & _ & _); [done|reflexivity|].
    eapply (Hfail 0); [reflexivity|]. vm_compute. reflexivity.
  - destruct (preview_failure_clears demo_env demo_world (stale_preview None))
      as (_ & _ & Hskip); [done|reflexivity|].
    apply Hskip. reflexivity.
Defined.

(** C5, counterexample. With a composition cached and drawn, a negative
    or unreadable spacing makes the recompute return early: the earlier
    composition stays cached and visible, and no failure marker is
    shown. *)
Lemma invalid_spacing_keeps_stale_preview :
  (read_spacing (stale_preview (Some (-1))) = None
   ∧ preview_img_full (view (stale_after (Some (-1)))) = Some demo_canvas
   ∧ canvas_image (view (stale_after (Some (-1))))
     = Some (Resized demo_canvas 1 1)
   ∧ size_label (view (stale_after (Some (-1)))) = LabelSize 3 3 50
   ∧ size_label (view (stale_after (Some (-1)))) ≠ LabelFailed)
  ∧ (read_spacing (stale_preview None) = None
     ∧ preview_img_full (view (stale_after None)) = Some demo_canvas
     ∧ canvas_image (view (stale_after None))
       = Some (Resized demo_canvas 1 1)
     ∧ size_label (view (stale_after None)) = LabelSize 3 3 50
     ∧ size_label (view (stale_after None)) ≠ LabelFailed).
Proof. split; vm_compute; repeat split; discriminate. Qed.

(** ** Which files are opened *)

Lemma open_images_opened (P : string → Prop) w paths :
  Forall P (opened w) → Forall P paths →
  Forall P (opened (fst (open_images w paths))).
Proof.
  revert w. induction paths as [|p ps IH]; intros w Hw Hps; [done|].
  apply Forall_cons in Hps as [Hp Hps].
  cbn [open_images]. unfold open_image_safe.
  assert (Hlog : Forall P (opened (log_open p w))).
  { cbn [opened log_open]. apply Forall_app. split; [done|]. by constructor. }
  destruct (fs w !! p) as [[|[img q|]]|]; try done.
  specialize (IH (log_open p w) Hlog Hps).
  by destruct (open_images (log_open p w) ps) as [w2 r].
Qed.

Lemma stitch_images_opened_paths (P : string → Prop) env w paths o sc sp bg tem :
  Forall P (opened w) → Forall P paths →
  Forall P (opened (fst (stitch_images env w paths o sc sp bg tem))).
Proof.
  intros Hw Hps. unfold stitch_images. destruct paths as [|p ps]; [done|].
  pose proof (open_images_opened P w (p :: ps) Hw Hps) as H.
  by destruct (open_images w (p :: ps)) as [w1 r].
Qed.

Lemma save_image_opened env w img p :
  opened (fst (_save_image env w img p)) = opened w.
Proof. unfold _save_image. by destruct (save_fault env p) as [[|]|]. Qed.

Lemma fit_preview_width_paths env st :
  paths (fst (fit_preview_width env st)) = paths st.
Proof.
  unfold fit_preview_width. destruct (preview_img_full _); [|done].
  destruct (negb _); [done|]. by destruct (fit_scale _ _).
Qed.

Lemma render_preview_scaled_paths st :
  paths (fst (render_preview_scaled st)) = paths st.
Proof.
  unfold render_preview_scaled. destruct (preview_img_full _); [|done].
  destruct (negb _); [done|]. destruct (size _) as [W H].
  destruct (_ ≫= _) as [[sw sh]|]; [|done]. by destruct (_ ≫= _).
Qed.

Lemma render_preview_full_inv env w st :
  image_paths (paths st) → image_paths (opened w) →
  image_paths (paths (snd (render_preview_full env w st)))
  ∧ image_paths (opened (fst (render_preview_full env w st))).
Proof.
  intros Hp Hw. unfold render_preview_full.
  change (paths (set_job false st)) with (paths st).
  destruct (paths st) as [|p ps] eqn:Hps.
  { split; [simpl; by rewrite Hps|done]. }
  destruct (negb _).
  { split; [simpl; by rewrite Hps|done]. }
  destruct (read_spacing _) as [spacing|].
  2: { split; [simpl; by rewrite Hps|done]. }
  unfold preview_recompute.
  assert (Hop : image_paths
                  (opened (fst (stitch_from_vars env w (set_job false st)
                                                 spacing)))).
  { apply stitch_images_opened_paths; [done|].
    change (paths (set_job false st)) with (paths st). by rewrite Hps. }
  destruct (stitch_from_vars env w (set_job false st) spacing)
    as [w1 [img|e]]; cbn [fst] in Hop.
  2: { split; [simpl; by rewrite Hps|done]. }
  pose proof (fit_preview_width_paths env
                (set_img_full (Some img) (set_job false st))) as Hfit.
  destruct (fit_preview_width env _) as [st1 [[]|e]]; cbn [fst] in Hfit.
  2: { split; [|done]. simpl. rewrite Hfit. simpl. by rewrite Hps. }
  pose proof (render_preview_scaled_paths st1) as Hsc.
  destruct (render_preview_scaled st1) as [st2 [[]|e]]; cbn [fst] in Hsc;
    (split; [|done]); simpl; rewrite Hsc, Hfit; simpl; by rewrite Hps.
Qed.

Lemma run_stitch_write_inv env w st :
  image_paths (paths st) → image_paths (opened w) →
  paths (snd (fst (run_stitch_write env w st))) = paths st
  ∧ image_paths (opened (fst (fst (run_stitch_write env w st)))).
Proof.
  intros Hp Hw. unfold run_stitch_write.
  destruct (paths st) as [|p ps] eqn:Hps; [by rewrite ?Hps|].
  destruct (read_spacing st) as [spacing|]; [|by rewrite ?Hps].
  assert (Hop : image_paths
                  (opened (fst (stitch_from_vars env w (_set_progress 5 st)
                                                 spacing)))).
  { apply stitch_images_opened_paths; [done|].
    change (paths (_set_progress 5 st)) with (paths st). by rewrite Hps. }
  destruct (stitch_from_vars env w (_set_progress 5 st) spacing)
    as [w1 [img|e]]; cbn [fst] in Hop; [|by rewrite ?Hps].
  destruct (String.eqb _ "single").
  - destruct (String.eqb _ ""); [by rewrite ?Hps|].
    pose proof (save_image_opened env w1 img (asksaveasfilename env)) as Hs.
    destruct (_save_image _ _ _ _) as [w2 [[]|e]]; cbn [fst] in Hs;
      cbn [fst snd opened show]; rewrite Hs; by rewrite ?Hps.
  - destruct (String.eqb _ ""); [by rewrite ?Hps|].
    destruct (negb _); [by rewrite ?Hps|].
    destruct (read_index _) as [i|]; [|by rewrite ?Hps].
    destruct (probe_free _ _ _ _ _) as [j|]; [|by rewrite ?Hps].
    cbv zeta.
    pose proof (save_image_opened env w1 img
                  (candidate (OsPath.strip
                                (var_out_dir
                                   (vars (_set_progress 60
                                            (_set_progress 5 st)))))
                             j
                             (direct_ext (_set_progress 60
                                            (_set_progress 5 st))))) as Hs.
    destruct (_save_image _ _ _ _) as [w2 [[]|e]]; cbn [fst] in Hs;
      cbn [fst snd opened show]; rewrite Hs; by rewrite ?Hps.
Qed.

Lemma auto_reset_paths sp st :
  paths (auto_reset sp st) = paths st ∨ paths (auto_reset sp st) = [].
Proof.
  unfold auto_reset. destruct (_ && _); [right|by left].
  unfold clear_all, schedule_preview_update. by destruct (negb _).
Qed.

Lemma run_stitch_inv env w st :
  image_paths (paths st) → image_paths (opened w) →
  image_paths (paths (snd (run_stitch env w st)))
  ∧ image_paths (opened (fst (run_stitch env w st))).
Proof.
  intros Hp Hw. unfold run_stitch.
  pose proof (run_stitch_write_inv env w st Hp Hw) as [Hpaths Hop].
  destruct (run_stitch_write env w st) as [[w1 st1] sp].
  cbn [fst snd] in *. split; [|done].
  destruct (auto_reset_paths sp st1) as [-> | ->]; [by rewrite Hpaths|].
  constructor.
Qed.

Lemma schedule_preview_update_paths st :
  paths (schedule_preview_update st) = paths st.
Proof. unfold schedule_preview_update. by destruct (negb _). Qed.

Lemma add_paths_inv ps w st :
  image_paths (paths st) →
  image_paths (paths (snd (_add_paths ps w st)))
  ∧ opened (fst (_add_paths ps w st)) = opened w.
Proof.
  intros Hp. unfold _add_paths.
  destruct (List.filter is_image_file ps) as [|q qs] eqn:Hf; [done|].
  cbn [fst snd]. split; [|done].
  rewrite schedule_preview_update_paths. cbn [paths set_paths].
  apply Forall_app. split; [done|]. rewrite <- Hf.
  apply List.Forall_forall. intros x Hx. by apply List.filter_In in Hx as [_ ?].
Qed.

Lemma remove_selected_inv sel st :
  image_paths (paths st) → image_paths (paths (remove_selected sel st)).
Proof.
  intros Hp. unfold remove_selected. destruct sel as [|i sel]; [done|].
  rewrite schedule_preview_update_paths. cbn [paths set_paths].
  generalize (rev (i :: sel)). intros l. revert Hp. generalize (paths st).
  induction l as [|k l IH]; intros ps Hps; simpl; [done|].
  apply IH. by apply Forall_delete.
Qed.

Lemma swap_items_inv i j l : image_paths l → image_paths (_swap_items i j l).
Proof.
  intros Hl. unfold _swap_items.
  destruct (l !! i) as [vi|] eqn:Hi; [|done].
  destruct (l !! j) as [vj|] eqn:Hj; [|done].
  unfold image_paths in *.
  apply Forall_insert; [apply Forall_insert; [done|]|].
  - exact (proj1 (Forall_lookup _ l) Hl j vj Hj).
  - exact (proj1 (Forall_lookup _ l) Hl i vi Hi).
Qed.

Lemma move_selection_inv d sel st :
  image_paths (paths st) → image_paths (paths (move_selection d sel st)).
Proof.
  intros Hp. unfold move_selection. destruct sel as [|i sel]; [done|].
  rewrite schedule_preview_update_paths. cbn [paths set_paths].
  destruct (d <? 0).
  - generalize (i :: sel). intros l. revert Hp. generalize (paths st).
    induction l as [|k l IH]; intros ps Hps; simpl; [done|].
    apply IH. destruct (Nat.eqb k 0); [done|]. by apply swap_items_inv.
  - generalize (rev (i :: sel)). intros l. revert Hp. generalize (paths st).
    induction l as [|k l IH]; intros ps Hps; simpl; [done|].
    apply IH. destruct (Nat.eqb k _); [done|]. by apply swap_items_inv.
Qed.

Lemma toggle_live_preview_paths st : paths (toggle_live_preview st) = paths st.
Proof.
  unfold toggle_live_preview. destruct (live_preview_enabled _); [|done].
  apply schedule_preview_update_paths.
Qed.

Lemma handle_inv env ev w st :
  image_paths (paths st) → image_paths (opened w) →
  image_paths (paths (snd (handle env ev w st)))
  ∧ image_paths (opened (fst (handle env ev w st))).
Proof.
  intros Hp Hw. destruct ev; cbn [handle fst snd].
  - unfold add_files. destruct chosen; [done|].
    destruct (add_paths_inv (s :: chosen) w st Hp) as [? ->]. done.
  - destruct (add_paths_inv dropped w st Hp) as [? ->]. done.
  - split; [by apply remove_selected_inv|done].
  - split; [|done]. unfold clear_all.
    rewrite schedule_preview_update_paths. constructor.
  - split; [by apply move_selection_inv|done].
  - done.
  - by rewrite schedule_preview_update_paths.
  - by apply render_preview_full_inv.
  - by rewrite toggle_live_preview_paths.
  - by rewrite render_preview_scaled_paths.
  - by rewrite fit_preview_width_paths.
  - by apply run_stitch_inv.
  - done.
Qed.

(** C6 (amended). The extension filter sits at the entrance of the
    working list, not in the loader: whatever the user does, every path
    of the working list and every path the application hands to
    [Image.open] has a supported extension. *)
Theorem only_image_files_opened evs w st :
  image_paths (paths st) → image_paths (opened w) →
  image_paths (paths (snd (run_events evs w st)))
  ∧ image_paths (opened (fst (run_events evs w st))).
Proof.
  revert w st. induction evs as [|[env ev] evs IH]; intros w st Hp Hw.
  - done.
  - cbn [run_events].
    destruct (handle_inv env ev w st Hp Hw) as [Hp' Hw'].
    destruct (handle env ev w st) as [w1 st1]. by apply IH.
Qed.

Lemma only_image_files_opened_witness :
  image_paths (paths (snd (run_events demo_session demo_world init_app)))
  ∧ image_paths (opened (fst (run_events demo_session demo_world init_app))).
Proof.
  apply (only_image_files_opened demo_session demo_world init_app);
    constructor.
Defined.

(** C6, counterexample. [notes.txt] has no supported extension, yet the
    loader opens and decodes it, alone or from [stitch_images]: neither
    checks the extension. *)
Lemma loader_ignores_extension :
  is_image_file "notes.txt" = false
  ∧ open_image_safe demo_world "notes.txt"
    = (log_open "notes.txt" demo_world, Ok (Pixels "n" 4 4 RGB))
  ∧ opened (fst (stitch_images demo_env demo_world ["notes.txt"%string]
                               "vertical" true 0 "#FFFFFF" "max"))
    = ["notes.txt"%string]
  ∧ ∃ out, snd (stitch_images demo_env demo_world ["notes.txt"%string]
                              "vertical" true 0 "#FFFFFF" "max") = Ok out.
Proof.
  split; [vm_compute; reflexivity|]. split; [vm_compute; reflexivity|].
  split; [vm_compute; reflexivity|]. eexists. vm_compute. reflexivity.
Qed.

(** * Further properties of the code *)

(** ** [stitch_images]: what is read, and which error wins *)

Lemma open_images_ok_log w paths w' images :
  open_images w paths = (w', Ok images) → w' = log_opens paths w.
Proof.
  revert w w' images. induction paths as [|p ps IH]; intros w w' images.
  - intros [= <- _]. destruct w. unfold log_opens. cbn. by rewrite app_nil_r.
  - cbn [open_images]. unfold open_image_safe.
    destruct (fs w !! p) as [[|[img q|]]|]; try done.
    destruct (open_images (log_open p w) ps) as [w2 [imgs|e]] eqn:E; [|done].
    intros [= <- _]. rewrite (IH _ _ _ E). unfold log_opens, log_open. cbn.
    by rewrite <- app_assoc.
Qed.

Lemma open_images_readable w paths :
  Forall (readable w) paths → ∃ images, open_images w paths = (log_opens paths w, Ok images).
Proof.
  revert w. induction paths as [|p ps IH]; intros w Hall.
  - exists []. destruct w. unfold log_opens. cbn. by rewrite app_nil_r.
  - apply Forall_cons in Hall as [(img & q & Hp) Hps].
    destruct (IH (log_open p w)) as [imgs Himgs]; [done|].
    exists (img :: imgs). cbn [open_images]. unfold open_image_safe.
    rewrite Hp, Himgs. unfold log_opens, log_open. cbn.
    by rewrite <- app_assoc.
Qed.

Lemma open_images_first_unreadable w good p rest :
  Forall (readable w) good → ¬ readable w p →
  open_images w (good ++ p :: rest)
  = (log_opens (good ++ [p]) w, Err (Unreadable p)).
Proof.
  revert w. induction good as [|g good IH]; intros w Hgood Hp.
  - cbn [app open_images]. unfold open_image_safe.
    destruct (fs w !! p) as [[|[img q|]]|] eqn:E; try done.
    exfalso. apply Hp. by exists img, q.
  - apply Forall_cons in Hgood as [(img & q & Hg) Hgood].
    cbn [app open_images]. unfold open_image_safe. rewrite Hg.
    rewrite (IH (log_open g w)); [|done|done].
    unfold log_opens, log_open. cbn. by rewrite <- app_assoc.
Qed.

(** X1. A composition that succeeds has opened every listed path once,
    in list order, and has neither changed the file system nor shown a
    dialog. *)
Theorem stitch_images_reads_in_order env w paths o sc sp bg tem w' out :
  stitch_images env w paths o sc sp bg tem = (w', Ok out) →
  opened w' = opened w ++ paths ∧ fs w' = fs w ∧ shown w' = shown w.
Proof.
  unfold stitch_images. destruct paths as [|p ps]; [done|].
  destruct (open_images w (p :: ps)) as [w1 [images|e]] eqn:E; [|done].
  intros [= <- _]. by rewrite (open_images_ok_log _ _ _ _ E).
Qed.

Lemma stitch_images_reads_in_order_witness :
  opened demo_opened = opened demo_world ++ ["a.png"; "b.png"]%string
  ∧ fs demo_opened = fs demo_world ∧ shown demo_opened = shown demo_world.
Proof.
  apply (stitch_images_reads_in_order demo_env demo_world
           ["a.png"; "b.png"]%string "vertical" true 0 "#FFFFFF" "max"
           demo_opened demo_aligned_out).
  vm_compute. reflexivity.
Defined.

(** X2. When some file of the list cannot be decoded, the composition
    fails with [Unreadable] for the first such file, whatever the other
    parameters are (an invalid orientation included); the files before
    it have been opened, the files after it have not. *)
Theorem stitch_images_first_unreadable env w good p rest o sc sp bg tem :
  Forall (readable w) good → ¬ readable w p →
  stitch_images env w (good ++ p :: rest) o sc sp bg tem
  = (log_opens (good ++ [p]) w, Err (Unreadable p)).
Proof.
  intros Hgood Hp. unfold stitch_images.
  rewrite (open_images_first_unreadable w good p rest Hgood Hp).
  by destruct good.
Qed.

Lemma stitch_images_first_unreadable_witness :
  stitch_images demo_env demo_world demo_paths_gap "diagonal" true 0
                "#FFFFFF" "max"
  = (log_opens ["a.png"; "missing.png"]%string demo_world,
     Err (Unreadable "missing.png")).
Proof.
  apply (stitch_images_first_unreadable demo_env demo_world
           ["a.png"%string] "missing.png" ["b.png"%string]).
  - repeat constructor. by exists (Pixels "a" 6 57 RGB), None.
  - intros (img & q & H). vm_compute in H. discriminate H.
Defined.

(** X3. With every file readable, an orientation other than
    ["vertical"] and ["horizontal"] is refused with
    [InvalidOrientation], but only after all the files were opened. *)
Theorem stitch_images_invalid_orientation env w paths o sc sp bg tem :
  paths ≠ [] → Forall (readable w) paths →
  o ≠ "vertical"%string → o ≠ "horizontal"%string →
  stitch_images env w paths o sc sp bg tem
  = (log_opens paths w, Err InvalidOrientation).
Proof.
  intros Hne Hall Hv Hh. unfold stitch_images.
  destruct (open_images_readable w paths Hall) as [images Hopen].
  destruct paths as [|p ps]; [done|]. rewrite Hopen.
  unfold stitch_opened. apply String.eqb_neq in Hv, Hh.
  by rewrite Hv, Hh.
Qed.

Lemma stitch_images_invalid_orientation_witness :
  stitch_images demo_env demo_world ["a.png"; "b.png"]%string "diagonal"
                true 0 "#FFFFFF" "max"
  = (log_opens ["a.png"; "b.png"]%string demo_world, Err InvalidOrientation).
Proof.
  apply (stitch_images_invalid_orientation demo_env demo_world
           ["a.png"; "b.png"]%string "diagonal"); try done.
  repeat constructor.
  - by exists (Pixels "a" 6 57 RGB), None.
  - by exists (Pixels "b" 13 5 RGB), None.
Defined.

(** ** [stitch_images]: the canvas *)

Lemma stitch_opened_inv env images o sc sp bg tem out :
  stitch_opened env images o sc sp bg tem = Ok out →
  ∃ images', align_edge images o sc tem = Ok images'
             ∧ build_canvas env images' o sp bg = Ok out.
Proof.
  unfold stitch_opened. destruct (negb _); [done|].
  destruct (align_edge images o sc tem) as [images'|]; [|done].
  cbn [mbind result_bind]. eauto.
Qed.

Lemma stitch_images_inv env w paths o sc sp bg tem w' out :
  stitch_images env w paths o sc sp bg tem = (w', Ok out) →
  ∃ images images',
    paths ≠ [] ∧ open_images w paths = (w', Ok images)
    ∧ align_edge images o sc tem = Ok images'
    ∧ build_canvas env images' o sp bg = Ok out.
Proof.
  unfold stitch_images. destruct paths as [|p ps]; [done|].
  destruct (open_images w (p :: ps)) as [w1 [images|e]] eqn:E; [|done].
  intros [= <- H]. apply stitch_opened_inv in H as (images' & ? & ?).
  by exists images, images'.
Qed.

Lemma paste_column_base m sp images out y :
  base (paste_column m sp images out y) = base out.
Proof.
  revert out y. induction images as [|img rest IH]; intros out y; simpl; [done|].
  destruct (size img) as [w h]. by rewrite IH.
Qed.

Lemma paste_row_base m sp images out x :
  base (paste_row m sp images out x) = base out.
Proof.
  revert out x. induction images as [|img rest IH]; intros out x; simpl; [done|].
  destruct (size img) as [w h]. by rewrite IH.
Qed.

Lemma build_canvas_base env images o sp bg out :
  build_canvas env images o sp bg = Ok out →
  base out = Blank (background (parse_color env bg)).1 (width out) (height out)
                   (background (parse_color env bg)).2
  ∧ mode out = (background (parse_color env bg)).1
  ∧ Forall (fun p => ∃ img, p.1 = Converted img (mode out)) (pastes out).
Proof.
  unfold build_canvas, background, width, height.
  destruct (parse_color env bg) as [[[r g] b] a].
  set (m := if a <? 255 then RGBA else RGB).
  set (fill := match m with RGBA => Fill4 r g b a | _ => Fill3 r g b end).
  assert (Hbg : (if a <? 255 then (RGBA, Fill4 r g b a) else (RGB, Fill3 r g b))
                = (m, fill)).
  { subst fill m. by destruct (a <? 255). }
  rewrite Hbg. cbn [fst snd].
  destruct (String.eqb o "vertical").
  - destruct (py_max _) as [cw|]; [|done]. cbn [mbind result_bind].
    unfold Image_new. destruct (_ || _); [done|]. cbn [mbind result_bind].
    intros [= <-].
    rewrite paste_column_base, paste_column_mode, paste_column_size,
      paste_column_pastes. cbn [base mode size fst snd pastes app].
    repeat split. apply Forall_forall. intros p Hp.
    apply elem_of_lookup_imap in Hp as (i & img & -> & _). by exists img.
  - destruct (py_max _) as [ch|]; [|done]. cbn [mbind result_bind].
    unfold Image_new. destruct (_ || _); [done|]. cbn [mbind result_bind].
    intros [= <-].
    rewrite paste_row_base, paste_row_mode, paste_row_size,
      paste_row_pastes. cbn [base mode size fst snd pastes app].
    repeat split. apply Forall_forall. intros p Hp.
    apply elem_of_lookup_imap in Hp as (i & img & -> & _). by exists img.
Qed.

(** X4. The canvas of a composition is a blank image of the size of
    the result, opaque [RGB] when the background's alpha is 255 and
    [RGBA] with the given alpha otherwise; every image is converted to
    that mode before it is pasted.  A colour string that does not parse
    gives an opaque white canvas. *)
Theorem canvas_background env w paths o sc sp bg tem w' out :
  stitch_images env w paths o sc sp bg tem = (w', Ok out) →
  base out = Blank (background (parse_color env bg)).1 (width out) (height out)
                   (background (parse_color env bg)).2
  ∧ mode out = (background (parse_color env bg)).1
  ∧ Forall (fun p => ∃ img, p.1 = Converted img (mode out)) (pastes out)
  ∧ (getcolor env bg = None →
     base out = Blank RGB (width out) (height out) (Fill3 255 255 255)).
Proof.
  intros H. apply stitch_images_inv in H as (images & images' & _ & _ & _ & H).
  apply build_canvas_base in H as (Hbase & Hmode & Hp).
  repeat split; try done.
  intros Hnone. rewrite Hbase. unfold parse_color. by rewrite Hnone.
Qed.

Lemma canvas_background_witness :
  base demo_aligned_out
  = Blank (background (parse_color demo_env "#FFFFFF")).1
          (width demo_aligned_out) (height demo_aligned_out)
          (background (parse_color demo_env "#FFFFFF")).2
  ∧ mode demo_aligned_out = (background (parse_color demo_env "#FFFFFF")).1
  ∧ Forall (fun p => ∃ img, p.1 = Converted img (mode demo_aligned_out))
           (pastes demo_aligned_out)
  ∧ (getcolor demo_env "#FFFFFF" = None →
     base demo_aligned_out
     = Blank RGB (width demo_aligned_out) (height demo_aligned_out)
             (Fill3 255 255 255)).
Proof.
  apply (canvas_background demo_env demo_world ["a.png"; "b.png"]%string
           "vertical" true 0 "#FFFFFF" "max" demo_opened).
  vm_compute. reflexivity.
Defined.

Lemma background_eq c :
  background c
  = ((if c.2 <? 255 then RGBA else RGB),
     match (if c.2 <? 255 then RGBA else RGB) with
     | RGBA => Fill4 c.1.1.1 c.1.1.2 c.1.2 c.2
     | _ => Fill3 c.1.1.1 c.1.1.2 c.1.2
     end).
Proof. destruct c as [[[r g] b] a]. cbn. by destruct (a <? 255). Qed.

(** X5. A list of one image composes to a canvas of exactly that
    image's size with the image pasted at the origin, for either
    orientation, with or without edge alignment and whatever the
    spacing: no gap is added and nothing is resampled. *)
Theorem single_image_composition env w p img q o sc sp bg tem :
  fs w !! p = Some (File (Encoded img q)) →
  nonneg_size img →
  o = "vertical"%string ∨ o = "horizontal"%string →
  stitch_images env w [p] o sc sp bg tem
  = (log_open p w,
     Ok (Pasted (Blank (background (parse_color env bg)).1
                       (width img) (height img)
                       (background (parse_color env bg)).2)
                (Converted img (background (parse_color env bg)).1) 0 0)).
Proof.
  intros Hp [Hw Hh] Ho. unfold stitch_images, open_images, open_image_safe.
  rewrite Hp. cbn [mbind result_bind]. f_equal.
  rewrite background_eq. cbn [fst snd].
  unfold stitch_opened, align_edge, build_canvas, width, height in *.
  destruct (parse_color env bg) as [[[r g] b] a]. cbn [fst snd].
  destruct (size img) as [iw ih] eqn:Hsz. cbn [fst snd] in Hw, Hh.
  assert (Hiw : (iw <? 0) = false) by (apply Z.ltb_ge; lia).
  assert (Hih : (ih <? 0) = false) by (apply Z.ltb_ge; lia).
  destruct Ho as [-> | ->]; destruct sc, (String.eqb tem "max");
    cbn -[Z.ltb Z.eqb Z.mul]; rewrite ?Hsz, ?Z.eqb_refl;
    cbn -[Z.ltb Z.eqb Z.mul]; rewrite ?Hsz;
    cbn -[Z.ltb Z.eqb Z.mul];
    rewrite ?Z.mul_0_r, ?Z.add_0_r, ?Z.add_0_l, ?Hiw, ?Hih;
    cbn -[Z.ltb Z.eqb Z.mul]; by rewrite ?Hsz.
Qed.

Lemma single_image_composition_witness :
  stitch_images demo_env demo_world ["a.png"%string] "horizontal" true 40
                "#FFFFFF" "min"
  = (log_open "a.png" demo_world,
     Ok (Pasted (Blank RGB 6 57 (Fill3 255 255 255))
                (Converted (Pixels "a" 6 57 RGB) RGB) 0 0)).
Proof.
  apply (single_image_composition demo_env demo_world "a.png"
           (Pixels "a" 6 57 RGB) None "horizontal" true 40 "#FFFFFF" "min").
  - reflexivity.
  - split; vm_compute; discriminate.
  - by right.
Defined.

(** ** [stitch_images]: aligned edges and geometry *)

Lemma scaled_side_ge_1 a edge b k : scaled_side a edge b = Ok k → 1 ≤ k.
Proof.
  unfold scaled_side. destruct (int_truediv edge b); [|done].
  cbn [mbind result_bind]. destruct (float_of_int a); [|done].
  cbn [mbind result_bind]. destruct (F64.round _); [|done].
  cbn [mbind result_bind]. intros [= <-]. lia.
Qed.

Lemma align_edge_vertical_inv images tem images' :
  align_edge images "vertical" true tem = Ok images' →
  ∃ W, target_edge tem W (map width images)
       ∧ Forall2 (width_aligned W) images images'.
Proof.
  unfold align_edge. cbn [String.eqb Ascii.eqb Bool.eqb].
  rewrite map_width.
  destruct (if String.eqb tem "max" then _ else _) as [W|] eqn:HW; [|done].
  cbn [mbind result_bind]. intros Hal. exists W.
  split; [by apply pick_edge_spec|by apply align_widths_spec].
Qed.

Lemma align_edge_horizontal_inv images tem images' :
  align_edge images "horizontal" true tem = Ok images' →
  ∃ W, target_edge tem W (map height images)
       ∧ Forall2 (height_aligned W) images images'.
Proof.
  unfold align_edge. cbn [String.eqb Ascii.eqb Bool.eqb].
  rewrite map_height.
  destruct (if String.eqb tem "max" then _ else _) as [W|] eqn:HW; [|done].
  cbn [mbind result_bind]. intros Hal. exists W.
  split; [by apply pick_edge_spec|by apply align_heights_spec].
Qed.

Lemma width_aligned_width W img img' : width_aligned W img img' → width img' = W.
Proof. by intros [[? ->]|[_ (h' & _ & ->)]]. Qed.

Lemma height_aligned_height W img img' :
  height_aligned W img img' → height img' = W.
Proof. by intros [[? ->]|[_ (w' & _ & ->)]]. Qed.

Lemma is_max_constant x W (l : list Z) :
  is_max x l → Forall (fun y => y = W) l → x = W.
Proof.
  intros [Hin _] Hall. rewrite Forall_forall in Hall. by apply Hall.
Qed.

(** X6. With edge alignment on, every image pasted into a vertical
    composition is exactly as wide as the canvas, and that width is the
    target edge of the inputs; in a horizontal composition every pasted
    image is exactly as high as the canvas.  No background shows beside
    an image. *)
Theorem aligned_images_span_canvas env w paths sp bg tem w' out :
  (stitch_images env w paths "vertical" true sp bg tem = (w', Ok out) →
   ∃ images, open_images w paths = (w', Ok images)
             ∧ target_edge tem (width out) (map width images)
             ∧ Forall (fun p => width p.1 = width out) (pastes out))
  ∧ (stitch_images env w paths "horizontal" true sp bg tem = (w', Ok out) →
     ∃ images, open_images w paths = (w', Ok images)
               ∧ target_edge tem (height out) (map height images)
               ∧ Forall (fun p => height p.1 = height out) (pastes out)).
Proof.
  split; intros H;
    apply stitch_images_inv in H as (images & images' & Hne & Hopen & Hal & Hc);
    exists images; (split; [done|]);
    pose proof (open_images_nonempty _ _ _ _ Hne Hopen) as Hne'.
  - apply align_edge_vertical_inv in Hal as (W & HW & Hal).
    assert (Hne'' : images' ≠ []).
    { apply Forall2_length in Hal. destruct images'; [|done]. by destruct images. }
    destruct (build_canvas_vertical _ _ _ _ _ Hne'' Hc) as (_ & Hmax & _ & Hp).
    assert (Hall : Forall (fun i => width i = W) images').
    { apply Forall_forall. intros i' Hi'.
      apply list_elem_of_lookup in Hi' as [k Hk].
      destruct (Forall2_lookup_r _ _ _ _ _ Hal Hk) as (i & _ & Hrel).
      by eapply width_aligned_width. }
    assert (HWout : width out = W).
    { apply (is_max_constant _ _ _ Hmax). by apply Forall_fmap. }
    rewrite HWout. split; [done|]. rewrite Hp.
    apply Forall_forall. intros p Hp'.
    apply elem_of_lookup_imap in Hp' as (k & i' & -> & Hk).
    rewrite Forall_forall in Hall. change (width i' = W). apply Hall.
    apply list_elem_of_lookup. eauto.
  - apply align_edge_horizontal_inv in Hal as (W & HW & Hal).
    assert (Hne'' : images' ≠ []).
    { apply Forall2_length in Hal. destruct images'; [|done]. by destruct images. }
    destruct (build_canvas_horizontal _ _ _ _ _ Hne'' Hc) as (_ & Hmax & _ & Hp).
    assert (Hall : Forall (fun i => height i = W) images').
    { apply Forall_forall. intros i' Hi'.
      apply list_elem_of_lookup in Hi' as [k Hk].
      destruct (Forall2_lookup_r _ _ _ _ _ Hal Hk) as (i & _ & Hrel).
      by eapply height_aligned_height. }
    assert (HWout : height out = W).
    { apply (is_max_constant _ _ _ Hmax). by apply Forall_fmap. }
    rewrite HWout. split; [done|]. rewrite Hp.
    apply Forall_forall. intros p Hp'.
    apply elem_of_lookup_imap in Hp' as (k & i' & -> & Hk).
    rewrite Forall_forall in Hall. change (height i' = W). apply Hall.
    apply list_elem_of_lookup. eauto.
Qed.

Lemma aligned_images_span_canvas_witness :
  ∃ images, open_images demo_world ["a.png"; "b.png"]%string
            = (demo_opened, Ok images)
            ∧ target_edge "max" (width demo_aligned_out) (map width images)
            ∧ Forall (fun p => width p.1 = width demo_aligned_out)
                     (pastes demo_aligned_out).
Proof.
  apply (aligned_images_span_canvas demo_env demo_world
           ["a.png"; "b.png"]%string 0 "#FFFFFF" "max" demo_opened
           demo_aligned_out).
  vm_compute. reflexivity.
Defined.

Lemma sumZ_app l1 l2 : sumZ (l1 ++ l2) = sumZ l1 + sumZ l2.
Proof. induction l1 as [|x l1 IH]; simpl; lia. Qed.

Lemma sumZ_take_le l i : Forall (fun x => 0 ≤ x) l → sumZ (take i l) ≤ sumZ l.
Proof.
  intros Hl. rewrite <- (take_drop i l) at 2. rewrite sumZ_app.
  pose proof (sumZ_nonneg (drop i l) (Forall_drop _ _ _ Hl)). lia.
Qed.

Lemma offset_succ sp l i h :
  l !! i = Some h → offset sp l (S i) = offset sp l i + h + sp.
Proof.
  intros Hi. unfold offset. rewrite (take_S_r _ _ _ Hi), sumZ_app.
  rewrite Nat2Z.inj_succ. simpl. lia.
Qed.

Lemma offset_nonneg sp l i :
  0 ≤ sp → Forall (fun x => 0 ≤ x) l → 0 ≤ offset sp l i.
Proof.
  intros Hsp Hl. unfold offset.
  pose proof (sumZ_nonneg (take i l) (Forall_take _ _ _ Hl)). lia.
Qed.

Lemma offset_end sp l i h :
  0 ≤ sp → Forall (fun x => 0 ≤ x) l → l !! i = Some h →
  offset sp l i + h ≤ sumZ l + sp * (len l - 1).
Proof.
  intros Hsp Hl Hi. pose proof (offset_succ sp l i h Hi) as Hs.
  unfold offset in *. pose proof (sumZ_take_le l (S i) Hl).
  apply lookup_lt_Some in Hi. unfold len. nia.
Qed.

Lemma offset_last sp l h :
  last l = Some h →
  offset sp l (length l - 1) + h = sumZ l + sp * (len l - 1).
Proof.
  intros Hl. destruct (last_Some l h) as [[l' ->] _]; [done|].
  unfold offset, len. rewrite length_app. simpl.
  replace (length l' + 1 - 1)%nat with (length l') by lia.
  rewrite take_app_length, sumZ_app. simpl. lia.
Qed.

Lemma open_images_sane w paths w' images :
  sane_files w → open_images w paths = (w', Ok images) →
  Forall nonneg_size images.
Proof.
  revert w w' images. induction paths as [|p ps IH]; intros w w' images Hw.
  - intros [= _ <-]. constructor.
  - cbn [open_images]. unfold open_image_safe.
    destruct (fs w !! p) as [[|[img q|]]|] eqn:Hp; try done.
    destruct (open_images (log_open p w) ps) as [w2 [imgs|e]] eqn:E; [|done].
    intros [= _ <-]. constructor; [by eapply Hw|].
    by eapply (IH (log_open p w)).
Qed.

Lemma is_max_elem x l : is_max x l → x ∈ l.
Proof. by intros [? _]. Qed.

Lemma target_pick_elem tem lengths edge :
  (if String.eqb tem "max" then py_max lengths else py_min lengths) = Ok edge →
  edge ∈ lengths.
Proof.
  destruct (String.eqb tem "max"); intros H.
  - by apply py_max_is_max in H as [? _].
  - by apply py_min_is_min in H as [? _].
Qed.

Lemma align_edge_nonneg images o sc tem images' :
  Forall nonneg_size images →
  align_edge images o sc tem = Ok images' →
  Forall nonneg_size images'.
Proof.
  intros Hall. unfold align_edge. destruct sc; [|by intros [= <-]].
  rewrite map_width, map_height.
  destruct (String.eqb o "vertical").
  - destruct (if String.eqb tem "max" then _ else _) as [W|] eqn:HW; [|done].
    cbn [mbind result_bind]. intros Hal.
    apply target_pick_elem in HW.
    apply list_elem_of_fmap in HW as (i0 & -> & Hi0).
    rewrite Forall_forall in Hall. pose proof (Hall _ Hi0) as [HW0 _].
    apply align_widths_spec in Hal.
    apply Forall_forall. intros i' Hi'.
    apply list_elem_of_lookup in Hi' as [k Hk].
    destruct (Forall2_lookup_r _ _ _ _ _ Hal Hk) as (i & Hi & Hrel).
    destruct Hrel as [[_ ->]|[_ (h' & Hh' & ->)]].
    + apply Hall. apply list_elem_of_lookup. eauto.
    + apply scaled_side_ge_1 in Hh'. split; [done|].
      unfold height. simpl. lia.
  - destruct (if String.eqb tem "max" then _ else _) as [W|] eqn:HW; [|done].
    cbn [mbind result_bind]. intros Hal.
    apply target_pick_elem in HW.
    apply list_elem_of_fmap in HW as (i0 & -> & Hi0).
    rewrite Forall_forall in Hall. pose proof (Hall _ Hi0) as [_ HW0].
    apply align_heights_spec in Hal.
    apply Forall_forall. intros i' Hi'.
    apply list_elem_of_lookup in Hi' as [k Hk].
    destruct (Forall2_lookup_r _ _ _ _ _ Hal Hk) as (i & Hi & Hrel).
    destruct Hrel as [[_ ->]|[_ (w0 & Hw0 & ->)]].
    + apply Hall. apply list_elem_of_lookup. eauto.
    + apply scaled_side_ge_1 in Hw0. split; [|done].
      unfold width. simpl. lia.
Qed.

Lemma nonneg_heights images :
  Forall nonneg_size images → Forall (fun x => 0 ≤ x) (map height images).
Proof. intros H. apply Forall_fmap. eapply Forall_impl; [exact H|]. by intros x [? ?]. Qed.

Lemma nonneg_widths images :
  Forall nonneg_size images → Forall (fun x => 0 ≤ x) (map width images).
Proof. intros H. apply Forall_fmap. eapply Forall_impl; [exact H|]. by intros x [? ?]. Qed.

(** X7. Geometry of a vertical composition (spacing not negative, image
    sides not negative): every pasted image lies inside the canvas; the
    first starts at the top, each next one starts exactly [spacing]
    below the end of the one before, and the last one ends at the bottom
    edge of the canvas.  So images never overlap and never stick out. *)
Theorem column_geometry env w paths sc sp bg tem w' out :
  sane_files w → 0 ≤ sp →
  stitch_images env w paths "vertical" sc sp bg tem = (w', Ok out) →
  Forall (inside out) (pastes out)
  ∧ (∀ src x y, pasted_at out 0 src x y → x = 0 ∧ y = 0)
  ∧ (∀ i src x y src' x' y',
       pasted_at out i src x y → pasted_at out (S i) src' x' y' →
       x' = 0 ∧ y' = y + height src + sp)
  ∧ (∀ src x y, last (pastes out) = Some (src, (x, y)) →
       y + height src = height out).
Proof.
  intros Hsane Hsp H.
  apply stitch_images_inv in H as (images & images' & Hne & Hopen & Hal & Hc).
  pose proof (open_images_nonempty _ _ _ _ Hne Hopen) as Hne'.
  pose proof (align_edge_nonneg _ _ _ _ _
                (open_images_sane _ _ _ _ Hsane Hopen) Hal) as Hnn.
  assert (Hne'' : images' ≠ []).
  { intros ->. unfold build_canvas in Hc.
    destruct (parse_color env bg) as [[[r g] b] a]. done. }
  destruct (build_canvas_vertical _ _ _ _ _ Hne'' Hc) as (_ & Hmax & Hh & Hp).
  pose proof (nonneg_heights _ Hnn) as Hhs.
  unfold pasted_at. rewrite Hp. split; [|split; [|split]].
  - apply Forall_forall. intros p Hp'.
    apply elem_of_lookup_imap in Hp' as (k & i' & -> & Hk).
    unfold inside. change (width (Converted i' (mode out))) with (width i').
    change (height (Converted i' (mode out))) with (height i').
    assert (Hhk : map height images' !! k = Some (height i'))
      by (by rewrite list_lookup_fmap, Hk).
    split; [done|]. split; [by apply offset_nonneg|]. split.
    + destruct Hmax as [_ Hle]. simpl. apply Hle.
      apply list_elem_of_fmap. exists i'. split; [done|].
      apply list_elem_of_lookup. eauto.
    + rewrite Hh. replace (len images') with (len (map height images'))
        by (unfold len; by rewrite length_map).
      by apply offset_end.
  - intros src x y H0. rewrite list_lookup_imap in H0.
    destruct (images' !! 0%nat); simplify_eq/=. by rewrite offset_0.
  - intros i src x y src' x' y' Hi HS. rewrite !list_lookup_imap in *.
    destruct (images' !! i) as [a|] eqn:Ha; [|done].
    destruct (images' !! S i) as [b|] eqn:Hb; [|done].
    simplify_eq/=. change (height (Converted a (mode out))) with (height a).
    split; [done|]. apply offset_succ. by rewrite list_lookup_fmap, Ha.
  - intros src x y Hlast.
    rewrite last_lookup, length_imap, list_lookup_imap in Hlast.
    destruct (images' !! _) as [a|] eqn:Ha; [|done]. simplify_eq/=.
    change (height (Converted a (mode out))) with (height a).
    rewrite Hh.
    replace (len images') with (len (map height images'))
      by (unfold len; by rewrite length_map).
    replace (Init.Nat.pred (length images'))
      with (length (map height images') - 1)%nat
      by (rewrite length_map; lia).
    apply offset_last. rewrite last_lookup, list_lookup_fmap, length_map.
    by rewrite Ha.
Qed.

Lemma demo_world_sane : sane_files demo_world.
Proof.
  intros p img q H. unfold demo_world in H. cbn [fs] in H.
  repeat (apply lookup_insert_Some in H as [[_ H]|[_ H]];
          [injection H as <- _; split; vm_compute; discriminate|]).
  apply lookup_singleton_Some in H as [_ H].
  injection H as <- _. split; vm_compute; discriminate.
Qed.

Lemma column_geometry_witness :
  Forall (inside demo_aligned_out) (pastes demo_aligned_out)
  ∧ (∀ src x y, pasted_at demo_aligned_out 0 src x y → x = 0 ∧ y = 0)
  ∧ (∀ i src x y src' x' y',
       pasted_at demo_aligned_out i src x y →
       pasted_at demo_aligned_out (S i) src' x' y' →
       x' = 0 ∧ y' = y + height src + 0)
  ∧ (∀ src x y, last (pastes demo_aligned_out) = Some (src, (x, y)) →
       y + height src = height demo_aligned_out).
Proof.
  apply (column_geometry demo_env demo_world ["a.png"; "b.png"]%string
           true 0 "#FFFFFF" "max" demo_opened demo_aligned_out).
  - exact demo_world_sane.
  - lia.
  - vm_compute. reflexivity.
Defined.

(** X8. Geometry of a horizontal composition, under the same
    conditions: every pasted image lies inside the canvas; the first
    starts at the left edge, each next one starts exactly [spacing] to
    the right of the end of the one before, and the last one ends at the
    right edge of the canvas. *)
Theorem row_geometry env w paths sc sp bg tem w' out :
  sane_files w → 0 ≤ sp →
  stitch_images env w paths "horizontal" sc sp bg tem = (w', Ok out) →
  Forall (inside out) (pastes out)
  ∧ (∀ src x y, pasted_at out 0 src x y → x = 0 ∧ y = 0)
  ∧ (∀ i src x y src' x' y',
       pasted_at out i src x y → pasted_at out (S i) src' x' y' →
       y' = 0 ∧ x' = x + width src + sp)
  ∧ (∀ src x y, last (pastes out) = Some (src, (x, y)) →
       x + width src = width out).
Proof.
  intros Hsane Hsp H.
  apply stitch_images_inv in H as (images & images' & Hne & Hopen & Hal & Hc).
  pose proof (open_images_nonempty _ _ _ _ Hne Hopen) as Hne'.
  pose proof (align_edge_nonneg _ _ _ _ _
                (open_images_sane _ _ _ _ Hsane Hopen) Hal) as Hnn.
  assert (Hne'' : images' ≠ []).
  { intros ->. unfold build_canvas in Hc.
    destruct (parse_color env bg) as [[[r g] b] a]. done. }
  destruct (build_canvas_horizontal _ _ _ _ _ Hne'' Hc) as (_ & Hmax & Hh & Hp).
  pose proof (nonneg_widths _ Hnn) as Hws.
  unfold pasted_at. rewrite Hp. split; [|split; [|split]].
  - apply Forall_forall. intros p Hp'.
    apply elem_of_lookup_imap in Hp' as (k & i' & -> & Hk).
    unfold inside. change (width (Converted i' (mode out))) with (width i').
    change (height (Converted i' (mode out))) with (height i').
    assert (Hwk : map width images' !! k = Some (width i'))
      by (by rewrite list_lookup_fmap, Hk).
    split; [by apply offset_nonneg|]. split; [done|]. split.
    + rewrite Hh. replace (len images') with (len (map width images'))
        by (unfold len; by rewrite length_map).
      by apply offset_end.
    + destruct Hmax as [_ Hle]. simpl. apply Hle.
      apply list_elem_of_fmap. exists i'. split; [done|].
      apply list_elem_of_lookup. eauto.
  - intros src x y H0. rewrite list_lookup_imap in H0.
    destruct (images' !! 0%nat); simplify_eq/=. by rewrite offset_0.
  - intros i src x y src' x' y' Hi HS. rewrite !list_lookup_imap in *.
    destruct (images' !! i) as [a|] eqn:Ha; [|done].
    destruct (images' !! S i) as [b|] eqn:Hb; [|done].
    simplify_eq/=. change (width (Converted a (mode out))) with (width a).
    split; [done|]. apply offset_succ. by rewrite list_lookup_fmap, Ha.
  - intros src x y Hlast.
    rewrite last_lookup, length_imap, list_lookup_imap in Hlast.
    destruct (images' !! _) as [a|] eqn:Ha; [|done]. simplify_eq/=.
    change (width (Converted a (mode out))) with (width a).
    rewrite Hh.
    replace (len images') with (len (map width images'))
      by (unfold len; by rewrite length_map).
    replace (Init.Nat.pred (length images'))
      with (length (map width images') - 1)%nat
      by (rewrite length_map; lia).
    apply offset_last. rewrite last_lookup, list_lookup_fmap, length_map.
    by rewrite Ha.
Qed.

Lemma row_geometry_witness :
  ∃ out,
    stitch_images demo_env demo_world ["a.png"; "b.png"]%string "horizontal"
                  false 2 "#FFFFFF" "max" = (demo_opened, Ok out)
    ∧ Forall (inside out) (pastes out)
    ∧ (∀ src x y, last (pastes out) = Some (src, (x, y)) →
         x + width src = width out).
Proof.
  eexists. split; [vm_compute; reflexivity|].
  match goal with
  | |- Forall (inside ?o) _ ∧ _ =>
      destruct (row_geometry demo_env demo_world ["a.png"; "b.png"]%string
                  false 2 "#FFFFFF" "max" demo_opened o)
        as (Hin & _ & _ & Hlast)
  end.
  - exact demo_world_sane.
  - lia.
  - vm_compute. reflexivity.
  - by split.
Defined.

(** ** [is_image_file] *)

Lemma substring_all (s : string) : String.substring 0 (String.length s) s = s.
Proof. induction s as [|c s IH]; simpl; [done|]. by rewrite IH. Qed.

Lemma str_take_drop n (s : string) :
  (OsPath.str_take n s +:+ OsPath.str_drop n s)%string = s.
Proof.
  unfold OsPath.str_take, OsPath.str_drop. revert n.
  induction s as [|c s IH]; intros n.
  - by destruct n.
  - destruct n as [|n].
    + cbn [String.substring String.append]. rewrite Nat.sub_0_r.
      change (String.length (String c s)) with (S (String.length s)).
      cbn [String.substring]. by rewrite substring_all.
    + cbn [String.substring String.length Nat.sub].
      change (String c (String.substring 0 n s
                        +:+ String.substring n (String.length s - n) s)
              = String c s).
      by rewrite IH.
Qed.

Lemma string_app_nil_r (s : string) : (s +:+ "")%string = s.
Proof.
  induction s as [|c s IH]; [done|].
  change (String c (s +:+ "") = String c s). by rewrite IH.
Qed.

Lemma ascii_lower_eqb_dot c :
  Ascii.eqb (OsPath.ascii_lower c) "." = Ascii.eqb c ".".
Proof. by destruct c as [[] [] [] [] [] [] [] []]. Qed.

Lemma ascii_lower_eqb_sep c :
  Ascii.eqb (OsPath.ascii_lower c) "/" = Ascii.eqb c "/".
Proof. by destruct c as [[] [] [] [] [] [] [] []]. Qed.

Lemma string_app_snoc (s : string) c (s' : string) :
  ((s +:+ String c "") +:+ s' = s +:+ String c s')%string.
Proof.
  induction s as [|a s IH]; [done|].
  change (String a ((s +:+ String c "") +:+ s') = String a (s +:+ String c s')).
  by rewrite IH.
Qed.

Lemma string_length_app (a b : string) :
  String.length (a +:+ b) = (String.length a + String.length b)%nat.
Proof.
  induction a as [|c a IH]; [done|].
  change (S (String.length (a +:+ b)) = S (String.length a + String.length b)).
  by rewrite IH.
Qed.

Lemma rfind_from_app c (a b : string) i last :
  OsPath.rfind_from c (a +:+ b) i last
  = OsPath.rfind_from c b (i + Z.of_nat (String.length a))
                      (OsPath.rfind_from c a i last).
Proof.
  revert i last. induction a as [|x a IH]; intros i last.
  - cbn [String.length OsPath.rfind_from]. change ("" +:+ b)%string with b.
    by rewrite Z.add_0_r.
  - change (String x a +:+ b)%string with (String x (a +:+ b)).
    cbn [OsPath.rfind_from String.length]. rewrite IH. f_equal. lia.
Qed.

Lemma rfind_from_absent c s i last :
  all_chars (fun a => negb (Ascii.eqb a c)) s = true →
  OsPath.rfind_from c s i last = last.
Proof.
  revert i last. induction s as [|x s IH]; intros i last H; [done|].
  cbn [all_chars] in H. apply andb_true_iff in H as [Hx H].
  apply negb_true_iff in Hx. cbn [OsPath.rfind_from]. rewrite Hx. by apply IH.
Qed.

Lemma last_component_whole s :
  all_chars (fun a => negb (Ascii.eqb a "/")) s = true → last_component s = s.
Proof.
  destruct s as [|c s]; [done|]. cbn [all_chars last_component].
  intros H. apply andb_true_iff in H as [Hc ->].
  apply negb_true_iff in Hc. by rewrite Hc.
Qed.

Lemma last_component_suffix s :
  ∃ pre, s = (pre +:+ last_component s)%string.
Proof.
  induction s as [|c s [pre IH]]; [by exists ""%string|].
  cbn [last_component].
  destruct (all_chars _ s).
  - destruct (Ascii.eqb c "/"); [by exists (String c "")|by exists ""%string].
  - exists (String c pre).
    change (String c s = String c (pre +:+ last_component s)). by f_equal.
Qed.

Lemma last_component_length s :
  (String.length (last_component s) ≤ String.length s)%nat.
Proof.
  destruct (last_component_suffix s) as [pre H].
  rewrite H at 2. rewrite string_length_app. lia.
Qed.

(** [rfind "/"] finds the place in front of the last component. *)
Lemma rfind_from_sep s i last :
  OsPath.rfind_from "/" s i last + 1
  = if all_chars (fun a => negb (Ascii.eqb a "/")) s then last + 1
    else i + Z.of_nat (String.length s - String.length (last_component s)).
Proof.
  revert i last. induction s as [|c s IH]; intros i last; [done|].
  cbn [OsPath.rfind_from all_chars last_component].
  destruct (all_chars (fun a => negb (Ascii.eqb a "/")) s) eqn:Hs.
  - rewrite (rfind_from_absent "/" s _ _ Hs).
    destruct (Ascii.eqb c "/"); cbn [negb andb]; [|done].
    cbn [String.length]. lia.
  - rewrite andb_false_r, IH. cbn [String.length].
    pose proof (last_component_length s). lia.
Qed.

Lemma rfind_sep root :
  OsPath.rfind "/" root + 1
  = Z.of_nat (String.length root - String.length (last_component root)).
Proof.
  unfold OsPath.rfind. rewrite rfind_from_sep.
  destruct (all_chars _ root) eqn:H; [|lia].
  rewrite last_component_whole by done. lia.
Qed.

Lemma get_app_at (pre : string) c (rest : string) :
  String.get (String.length pre) (pre +:+ String c rest) = Some c.
Proof. induction pre as [|x pre IH]; [done|]. exact IH. Qed.

(** The scan of [splitext] over a stretch of the path. *)
Lemma has_non_dot_mid (pre mid rest : string) :
  OsPath.has_non_dot (pre +:+ mid +:+ rest) (String.length pre)
                     (String.length mid)
  = negb (all_chars (fun a => Ascii.eqb a ".") mid).
Proof.
  revert pre. induction mid as [|c mid IH]; intros pre; [done|].
  change (String c mid +:+ rest)%string with (String c (mid +:+ rest)).
  cbn [String.length OsPath.has_non_dot all_chars].
  rewrite get_app_at. destruct (Ascii.eqb c "."); [|done]. cbn [andb].
  rewrite <- (string_app_snoc pre c (mid +:+ rest)).
  specialize (IH (pre +:+ String c "")%string).
  rewrite string_length_app in IH. cbn [String.length] in IH.
  by rewrite Nat.add_1_r in IH.
Qed.

Lemma str_take_app (a b : string) :
  OsPath.str_take (String.length a) (a +:+ b) = a.
Proof.
  unfold OsPath.str_take. induction a as [|c a IH]; [by destruct b|].
  change (String c a +:+ b)%string with (String c (a +:+ b)).
  cbn [String.length String.substring]. by rewrite IH.
Qed.

Lemma str_drop_app (a b : string) :
  OsPath.str_drop (String.length a) (a +:+ b) = b.
Proof.
  unfold OsPath.str_drop. induction a as [|c a IH].
  - change ("" +:+ b)%string with b. cbn [String.length].
    rewrite Nat.sub_0_r. apply substring_all.
  - change (String c a +:+ b)%string with (String c (a +:+ b)).
    cbn [String.length String.substring Nat.sub]. exact IH.
Qed.

Lemma string_app_assoc (a b c : string) :
  ((a +:+ b) +:+ c = a +:+ b +:+ c)%string.
Proof.
  induction a as [|x a IH]; [done|].
  change (String x ((a +:+ b) +:+ c) = String x (a +:+ b +:+ c)).
  by rewrite IH.
Qed.

(** [splitext] on a path that ends in a dot followed by characters
    other than the dot and the separator: the extension is split off
    exactly when the name in front of it is a name. *)
Lemma splitext_app root e :
  all_chars (fun a => negb (Ascii.eqb a ".")) e = true →
  all_chars (fun a => negb (Ascii.eqb a "/")) e = true →
  OsPath.splitext (root +:+ String "." e)
  = if proper_stem root then (root, String "." e)
    else ((root +:+ String "." e)%string, ""%string).
Proof.
  intros Hdot Hsep. unfold OsPath.splitext.
  assert (Hs : OsPath.rfind "/" (root +:+ String "." e)
               = OsPath.rfind "/" root).
  { unfold OsPath.rfind. rewrite rfind_from_app.
    apply rfind_from_absent. cbn [all_chars]. by rewrite Hsep. }
  assert (Hd : OsPath.rfind "." (root +:+ String "." e)
               = Z.of_nat (String.length root)).
  { unfold OsPath.rfind. rewrite rfind_from_app.
    cbn [OsPath.rfind_from Ascii.eqb Bool.eqb].
    rewrite rfind_from_absent by done. lia. }
  rewrite Hs, Hd. pose proof (rfind_sep root) as Hr.
  pose proof (last_component_length root) as Hlen.
  destruct (last_component_suffix root) as [pre Hpre].
  assert (Hplen : (String.length root - String.length (last_component root)
                   = String.length pre)%nat).
  { rewrite Hpre at 1. rewrite string_length_app. lia. }
  replace (OsPath.rfind "/" root <? Z.of_nat (String.length root))
    with true by (symmetry; apply Z.ltb_lt; lia).
  replace (Z.to_nat (OsPath.rfind "/" root + 1)) with (String.length pre)
    by lia.
  replace (Z.to_nat (Z.of_nat (String.length root)
                     - (OsPath.rfind "/" root + 1)))
    with (String.length (last_component root)) by lia.
  rewrite Nat2Z.id. cbn [andb].
  rewrite Hpre at 1. rewrite string_app_assoc, has_non_dot_mid.
  fold (proper_stem root).
  destruct (proper_stem root); [|done].
  by rewrite str_take_app, str_drop_app.
Qed.

Lemma all_chars_lower f s :
  (∀ c, f (OsPath.ascii_lower c) = f c) →
  all_chars f (OsPath.lower s) = all_chars f s.
Proof.
  intros Hf. induction s as [|c s IH]; [done|].
  cbn [OsPath.lower all_chars]. by rewrite Hf, IH.
Qed.

(** A supported extension is a dot followed by characters other than
    the dot and the separator. *)
Lemma valid_ext_shape ext :
  OsPath.lower ext ∈ VALID_EXTS →
  ∃ e, ext = String "." e
       ∧ all_chars (fun a => negb (Ascii.eqb a ".")) e = true
       ∧ all_chars (fun a => negb (Ascii.eqb a "/")) e = true.
Proof.
  intros H.
  assert (Hshape : ∃ t, OsPath.lower ext = String "." t
            ∧ all_chars (fun a => negb (Ascii.eqb a ".")) t = true
            ∧ all_chars (fun a => negb (Ascii.eqb a "/")) t = true).
  { unfold VALID_EXTS in H. set_unfold in H.
    destruct H as [[[[[[[H|H]|H]|H]|H]|H]|H]|H]; rewrite H;
      eexists; (split; [reflexivity|]); by split. }
  destruct Hshape as (t & Ht & Hdot & Hsep).
  destruct ext as [|c e]; [done|].
  cbn [OsPath.lower] in Ht. injection Ht as Hc He.
  exists e. subst t.
  rewrite all_chars_lower in Hdot
    by (intros a; by rewrite ascii_lower_eqb_dot).
  rewrite all_chars_lower in Hsep
    by (intros a; by rewrite ascii_lower_eqb_sep).
  split; [|by split]. f_equal.
  apply Ascii.eqb_eq. rewrite <- ascii_lower_eqb_dot, Hc. reflexivity.
Qed.

(** X9. Which paths [is_image_file] accepts.  A path made of a root and
    one of the eight supported extensions, in any letter case, is
    accepted exactly when the last component of the root has a
    character other than the dot (so [.png], [dir/.png] and [..png] are
    no image files).  Every accepted path is such a path, split by
    [os.path.splitext] at that extension; a path whose
    [os.path.splitext] extension is empty is never accepted. *)
Theorem is_image_file_extension :
  (∀ root ext,
     OsPath.lower ext ∈ VALID_EXTS →
     is_image_file (root +:+ ext) = proper_stem root)
  ∧ (∀ path,
       is_image_file path = true →
       ∃ root ext,
         OsPath.splitext path = (root, ext)
         ∧ path = (root +:+ ext)%string
         ∧ OsPath.lower ext ∈ VALID_EXTS
         ∧ proper_stem root = true)
  ∧ (∀ path,
       snd (OsPath.splitext path) = ""%string → is_image_file path = false).
Proof.
  assert (Hmade : ∀ root ext,
            OsPath.lower ext ∈ VALID_EXTS →
            is_image_file (root +:+ ext) = proper_stem root).
  { intros root ext Hext.
    destruct (valid_ext_shape ext Hext) as (e & -> & Hdot & Hsep).
    unfold is_image_file. rewrite splitext_app by done.
    destruct (proper_stem root); cbn [snd].
    - by apply bool_decide_eq_true_2.
    - by apply bool_decide_eq_false_2. }
  split; [exact Hmade|]. split.
  - intros path H. pose proof H as Hacc.
    unfold is_image_file in H. apply bool_decide_eq_true in H.
    exists (OsPath.splitext path).1, (OsPath.splitext path).2.
    assert (Hpath : path = ((OsPath.splitext path).1
                            +:+ (OsPath.splitext path).2)%string).
    { unfold OsPath.splitext. destruct (_ && _); cbn [fst snd].
      - by rewrite str_take_drop.
      - by rewrite string_app_nil_r. }
    split; [by destruct (OsPath.splitext path)|].
    split; [exact Hpath|]. split; [exact H|].
    rewrite <- (Hmade _ _ H), <- Hpath. exact Hacc.
  - intros path Hext. unfold is_image_file. rewrite Hext.
    by apply bool_decide_eq_false_2.
Qed.

Lemma is_image_file_extension_witness :
  is_image_file "holiday/IMG_1.JPeG" = proper_stem "holiday/IMG_1"
  ∧ is_image_file "holiday/.png" = proper_stem "holiday/"
  ∧ proper_stem "holiday/IMG_1" = true
  ∧ proper_stem "holiday/" = false
  ∧ is_image_file "notes" = false.
Proof.
  destruct is_image_file_extension as (Hmade & _ & Hnone).
  split; [apply (Hmade "holiday/IMG_1" ".JPeG")%string; by vm_compute|].
  split; [apply (Hmade "holiday/" ".png")%string; by vm_compute|].
  split; [reflexivity|]. split; [reflexivity|].
  apply Hnone. reflexivity.
Defined.

Lemma ascii_lower_idem c :
  OsPath.ascii_lower (OsPath.ascii_lower c) = OsPath.ascii_lower c.
Proof. by destruct c as [[] [] [] [] [] [] [] []]. Qed.

Lemma lower_idem s : OsPath.lower (OsPath.lower s) = OsPath.lower s.
Proof.
  induction s as [|c s IH]; [done|].
  cbn [OsPath.lower]. by rewrite ascii_lower_idem, IH.
Qed.

Lemma length_lower s : String.length (OsPath.lower s) = String.length s.
Proof. induction s as [|c s IH]; [done|]. cbn [OsPath.lower String.length]. by rewrite IH. Qed.

Lemma substring_lower n m s :
  String.substring n m (OsPath.lower s) = OsPath.lower (String.substring n m s).
Proof.
  revert n m. induction s as [|c s IH]; intros n m.
  - by destruct n, m.
  - destruct n as [|n]; [destruct m as [|m]|]; cbn [OsPath.lower String.substring];
      by rewrite ?IH.
Qed.

Lemma rfind_from_lower_dot s i last :
  OsPath.rfind_from "." (OsPath.lower s) i last = OsPath.rfind_from "." s i last.
Proof.
  revert i last. induction s as [|c s IH]; intros i last; [done|].
  cbn [OsPath.lower OsPath.rfind_from]. by rewrite ascii_lower_eqb_dot, IH.
Qed.

Lemma rfind_from_lower_sep s i last :
  OsPath.rfind_from "/" (OsPath.lower s) i last = OsPath.rfind_from "/" s i last.
Proof.
  revert i last. induction s as [|c s IH]; intros i last; [done|].
  cbn [OsPath.lower OsPath.rfind_from]. by rewrite ascii_lower_eqb_sep, IH.
Qed.

Lemma get_lower n s :
  String.get n (OsPath.lower s) = OsPath.ascii_lower <$> String.get n s.
Proof.
  revert n. induction s as [|c s IH]; intros n; [done|].
  destruct n as [|n]; cbn [OsPath.lower String.get]; [done|]. by rewrite IH.
Qed.

Lemma has_non_dot_lower s i n :
  OsPath.has_non_dot (OsPath.lower s) i n = OsPath.has_non_dot s i n.
Proof.
  revert i. induction n as [|n IH]; intros i; [done|].
  cbn [OsPath.has_non_dot]. rewrite get_lower.
  destruct (String.get i s) as [c|]; cbn; [|done].
  by rewrite ascii_lower_eqb_dot, IH.
Qed.

Lemma splitext_lower p :
  (OsPath.splitext (OsPath.lower p)).2 = OsPath.lower (OsPath.splitext p).2.
Proof.
  unfold OsPath.splitext, OsPath.rfind.
  rewrite rfind_from_lower_dot, rfind_from_lower_sep, has_non_dot_lower.
  destruct (_ && _); cbn [snd]; [|done].
  unfold OsPath.str_drop. by rewrite length_lower, substring_lower.
Qed.

(** X10. The extension test ignores letter case: a path and its
    lower-case form are accepted or rejected alike. *)
Theorem is_image_file_ignores_case path :
  is_image_file (OsPath.lower path) = is_image_file path.
Proof.
  unfold is_image_file. by rewrite splitext_lower, lower_idem.
Qed.

(** ** The working list: reordering and removing *)

Lemma insert_swap_head {A} (l : list A) j a v :
  l !! j = Some v → v :: <[j := a]> l ≡ₚ a :: l.
Proof.
  revert j. induction l as [|x l IH]; intros j Hj; [done|].
  destruct j as [|j]; simpl in *.
  - injection Hj as ->. apply perm_swap.
  - rewrite (perm_swap x v), (IH _ Hj). apply perm_swap.
Qed.

Lemma swap_items_perm i j l : _swap_items i j l ≡ₚ l.
Proof.
  unfold _swap_items.
  destruct (l !! i) as [vi|] eqn:Hi; [|done].
  destruct (l !! j) as [vj|] eqn:Hj; [|done].
  revert i j Hi Hj. induction l as [|x l IH]; intros i j Hi Hj; [done|].
  destruct i as [|i], j as [|j]; simpl in *.
  - by simplify_eq.
  - injection Hi as ->. by apply insert_swap_head.
  - injection Hj as ->. symmetry. rewrite <- (insert_swap_head l i vj vi Hi).
    done.
  - f_equiv. by apply IH.
Qed.

Lemma swap_items_length i j l : length (_swap_items i j l) = length l.
Proof.
  unfold _swap_items. destruct (l !! i); [|done]. destruct (l !! j); [|done].
  by rewrite !length_insert.
Qed.

(** X11. Moving the selection up or down (the selected positions
    being positions of the list, as the listbox reports them) only
    reorders the working list: the result holds the same paths, each as
    often as before. *)
Theorem move_selection_permutes direction sel st :
  Forall (fun i => (i < length (paths st))%nat) sel →
  paths (move_selection direction sel st) ≡ₚ paths st.
Proof.
  intros _. unfold move_selection. destruct sel as [|i sel]; [done|].
  rewrite schedule_preview_update_paths. cbn [paths set_paths].
  destruct (direction <? 0).
  - generalize (i :: sel). intros l. generalize (paths st).
    induction l as [|k l IH]; intros ps; simpl; [done|].
    rewrite IH. destruct (Nat.eqb k 0); [done|]. apply swap_items_perm.
  - generalize (rev (i :: sel)). intros l. generalize (paths st).
    induction l as [|k l IH]; intros ps; simpl; [done|].
    rewrite IH. destruct (Nat.eqb k _); [done|]. apply swap_items_perm.
Qed.

Lemma move_selection_permutes_witness :
  paths (move_selection (-1) [1%nat; 2%nat] four_paths) ≡ₚ paths four_paths
  ∧ paths (move_selection 1 [1%nat; 3%nat] four_paths) ≡ₚ paths four_paths.
Proof.
  split; apply move_selection_permutes;
    repeat (constructor; [cbn; lia|]); constructor.
Defined.

Lemma swap_items_sym i j l : i ≠ j → _swap_items i j l = _swap_items j i l.
Proof.
  intros Hij. unfold _swap_items.
  destruct (l !! i) as [vi|], (l !! j) as [vj|]; try done.
  by apply list_insert_insert_ne.
Qed.

Lemma swap_items_twice i j l :
  i ≠ j → _swap_items i j (_swap_items i j l) = l.
Proof.
  intros Hij. unfold _swap_items at 2.
  destruct (l !! i) as [vi|] eqn:Hi; [|by unfold _swap_items; rewrite Hi].
  destruct (l !! j) as [vj|] eqn:Hj;
    [|by unfold _swap_items; rewrite Hi, Hj].
  pose proof (lookup_lt_Some _ _ _ Hi) as Hli.
  pose proof (lookup_lt_Some _ _ _ Hj) as Hlj.
  unfold _swap_items.
  rewrite list_lookup_insert_ne by done.
  rewrite list_lookup_insert_eq by done.
  rewrite list_lookup_insert_eq by (by rewrite length_insert).
  rewrite (list_insert_insert_ne _ i j vi vi) by done.
  rewrite !list_insert_insert_eq.
  by rewrite (list_insert_id _ _ _ Hi), (list_insert_id _ _ _ Hj).
Qed.

(** X12. Moving one selected item up and then down again (the
    selection follows the item) restores the working list; moving the
    first item up, or the last item down, leaves the list as it is. *)
Theorem move_up_then_down i st :
  (paths (move_selection (-1) [0%nat] st) = paths st)
  ∧ (S i = length (paths st) →
     paths (move_selection 1 [i] st) = paths st)
  ∧ ((0 < i < length (paths st))%nat →
     paths (move_selection 1 [(i - 1)%nat] (move_selection (-1) [i] st))
     = paths st).
Proof.
  split; [|split].
  - unfold move_selection. by rewrite schedule_preview_update_paths.
  - intros Hlast. unfold move_selection.
    rewrite schedule_preview_update_paths. cbn.
    replace (length (paths st) - 1)%nat with i by lia.
    by rewrite Nat.eqb_refl.
  - intros Hi. unfold move_selection.
    rewrite !schedule_preview_update_paths. cbn.
    destruct (Nat.eqb i 0) eqn:E0; [apply Nat.eqb_eq in E0; lia|].
    rewrite swap_items_length.
    destruct (Nat.eqb (i - 1) (length (paths st) - 1)) eqn:E1;
      [apply Nat.eqb_eq in E1; lia|].
    replace (i - 1 + 1)%nat with i by lia.
    rewrite (swap_items_sym (i - 1) i) by lia.
    apply swap_items_twice. lia.
Qed.

Lemma move_up_then_down_witness :
  paths (move_selection 1 [1%nat] (move_selection (-1) [2%nat] four_paths))
  = paths four_paths
  ∧ paths (move_selection 1 [3%nat] four_paths) = paths four_paths.
Proof.
  destruct (move_up_then_down 2 four_paths) as (_ & _ & Hmid).
  destruct (move_up_then_down 3 four_paths) as (_ & Hlast & _).
  split; [apply Hmid; simpl; lia|apply Hlast; reflexivity].
Defined.

Lemma unselected_nil {A} k (l : list A) : unselected [] k l = l.
Proof.
  revert k. induction l as [|x l IH]; intros k; cbn [unselected]; [done|].
  rewrite bool_decide_eq_false_2 by set_solver. by rewrite IH.
Qed.

Lemma unselected_below {A} a sel k (l : list A) :
  (a < k)%nat → unselected (a :: sel) k l = unselected sel k l.
Proof.
  revert k. induction l as [|x l IH]; intros k Hk; cbn [unselected]; [done|].
  rewrite (IH (S k)) by lia.
  destruct (decide (k ∈ sel)) as [Hin|Hin].
  - rewrite !bool_decide_eq_true_2; [done|done|set_solver].
  - rewrite !bool_decide_eq_false_2; [done|done|].
    intros [->|?]%elem_of_cons; [lia|done].
Qed.

Lemma delete_unselected {A} a sel k (l : list A) :
  Forall (fun s => (k + a < s)%nat) sel →
  delete a (unselected sel k l) = unselected ((k + a)%nat :: sel) k l.
Proof.
  revert k a. induction l as [|x l IH]; intros k a Hsel; [done|].
  assert (Hk : k ∉ sel).
  { intros Hin. rewrite Forall_forall in Hsel. specialize (Hsel _ Hin). lia. }
  cbn [unselected]. rewrite (bool_decide_eq_false_2 _ Hk).
  destruct a as [|a].
  - rewrite Nat.add_0_r. rewrite bool_decide_eq_true_2 by set_solver.
    cbn. by rewrite unselected_below by lia.
  - rewrite bool_decide_eq_false_2.
    2: { intros [?|?]%elem_of_cons; [lia|done]. }
    cbn. f_equal. replace (k + S a)%nat with (S k + a)%nat by lia.
    apply IH. eapply Forall_impl; [exact Hsel|]. intros s Hs. simpl in *. lia.
Qed.

Lemma foldr_delete_unselected {A} sel (l : list A) :
  StronglySorted lt sel →
  foldr (fun idx acc => delete idx acc) l sel = unselected sel 0 l.
Proof.
  induction 1 as [|a sel Hsorted IH Ha]; simpl.
  - by rewrite unselected_nil.
  - rewrite IH. by apply (delete_unselected a sel 0).
Qed.

(** X13. [remove_selected], given the selection as the listbox reports
    it (positions of the list, in increasing order), removes exactly the
    selected positions and keeps every other path in its order;
    deleting from the highest position down is what keeps the remaining
    positions valid. *)
Theorem remove_selected_removes_selection sel st :
  StronglySorted lt sel →
  Forall (fun i => (i < length (paths st))%nat) sel →
  paths (remove_selected sel st) = unselected sel 0 (paths st).
Proof.
  intros Hsorted _. unfold remove_selected. destruct sel as [|i sel].
  - by rewrite unselected_nil.
  - rewrite schedule_preview_update_paths. cbn [paths set_paths].
    rewrite <- fold_left_rev_right, rev_involutive.
    by apply foldr_delete_unselected.
Qed.

Lemma remove_selected_removes_selection_witness :
  paths (remove_selected [0%nat; 2%nat] four_paths)
  = unselected [0%nat; 2%nat] 0 (paths four_paths)
  ∧ unselected [0%nat; 2%nat] 0 (paths four_paths)
    = ["b.png"; "d.png"]%string.
Proof.
  split; [|reflexivity].
  apply remove_selected_removes_selection.
  - repeat constructor.
  - repeat (constructor; [cbn; lia|]); constructor.
Defined.

(** ** The output writer as a whole *)

Lemma stitch_images_ok_world env w paths o sc sp bg tem w' out :
  stitch_images env w paths o sc sp bg tem = (w', Ok out) →
  w' = log_opens paths w.
Proof.
  intros H. apply stitch_images_inv in H as (images & _ & _ & Hopen & _).
  by eapply open_images_ok_log.
Qed.

Lemma run_stitch_write_effect env w st w1 st1 success_path :
  run_stitch_write env w st = (w1, st1, success_path) →
  paths st1 = paths st
  ∧ view st1 = view st
  ∧ settings_but_index (vars st1) = settings_but_index (vars st)
  ∧ (var_direct_index (vars st1) = var_direct_index (vars st)
     ∨ String.eqb (var_output_mode (vars st)) "single" = false)
  ∧ (fs w1 = fs w
     ∨ ∃ p node, fs w1 = <[p := node]> (fs w)
                 ∧ if String.eqb (var_output_mode (vars st)) "single"
                   then p = asksaveasfilename env
                   else fs w !! p = None).
Proof.
  unfold run_stitch_write.
  destruct (paths st) as [|p0 ps] eqn:Hp.
  { intros [= <- <- <-]. rewrite Hp. repeat split; auto. }
  destruct (read_spacing st) as [spacing|].
  2: { intros [= <- <- <-]. rewrite Hp. repeat split; auto. }
  pose proof (stitch_from_vars_fs env w (_set_progress 5 st) spacing)
    as [Hfs _].
  destruct (stitch_from_vars env w (_set_progress 5 st) spacing)
    as [w0 [img|e]]; cbn [fst] in Hfs.
  2: { intros [= <- <- <-]. cbn. rewrite Hp. repeat split; auto. }
  change (vars (_set_progress 60 (_set_progress 5 st))) with (vars st).
  destruct (String.eqb (var_output_mode (vars st)) "single") eqn:Hmode.
  - destruct (String.eqb (asksaveasfilename env) "").
    { intros [= <- <- <-]. cbn. rewrite Hp. repeat split; auto. }
    unfold _save_image.
    destruct (save_fault env (asksaveasfilename env)) as [[]|];
      intros [= <- <- <-]; cbn; rewrite Hp, ?Hfs;
      (split; [done|]); (split; [done|]); (split; [done|]);
      (split; [by left|]); first [by left | right; eauto].
  - destruct (String.eqb (OsPath.strip (var_out_dir (vars st))) "").
    { intros [= <- <- <-]. cbn. rewrite Hp. repeat split; auto. }
    destruct (negb _).
    { intros [= <- <- <-]. cbn. rewrite Hp. repeat split; auto. }
    destruct (read_index _) as [i|].
    2: { intros [= <- <- <-]. cbn. rewrite Hp. repeat split; auto. }
    destruct (probe_free _ _ _ _ _) as [j|] eqn:Hj.
    2: { intros [= <- <- <-]. cbn. rewrite Hp. repeat split; auto. }
    cbv zeta. set (dest := candidate _ j _).
    assert (Hfree : fs w !! dest = None).
    { apply probe_free_spec in Hj as (_ & Hfree & _).
      unfold path_exists in Hfree. fold dest in Hfree. rewrite Hfs in Hfree.
      by destruct (fs w !! dest). }
    unfold _save_image.
    destruct (save_fault env dest) as [[]|];
      intros [= <- <- <-]; cbn; rewrite Hp, ?Hfs;
      (split; [done|]); (split; [done|]); (split; [done|]);
      (split; [by auto|]); first [by left | right; eauto].
Qed.

Lemma run_stitch_world env w st :
  fst (run_stitch env w st) = fst (fst (run_stitch_write env w st)).
Proof.
  unfold run_stitch. by destruct (run_stitch_write env w st) as [[w1 st1] sp].
Qed.

(** X14. Whatever its outcome, [run_stitch] changes the file system in
    at most one path and never removes a file.  In single-shot mode
    that path is the one picked in the save dialog; in sequential mode
    it is a name that was free, so every file that existed is kept as it
    was. *)
Theorem run_stitch_keeps_files env w st :
  let w' := fst (run_stitch env w st) in
  (fs w' = fs w ∨ ∃ p node, fs w' = <[p := node]> (fs w))
  ∧ dom (fs w) ⊆ dom (fs w')
  ∧ (∀ q, q ≠ asksaveasfilename env →
          String.eqb (var_output_mode (vars st)) "single" = true →
          fs w' !! q = fs w !! q)
  ∧ (String.eqb (var_output_mode (vars st)) "single" = false →
     ∀ q node, fs w !! q = Some node → fs w' !! q = Some node).
Proof.
  cbv zeta. rewrite run_stitch_world.
  destruct (run_stitch_write env w st) as [[w1 st1] sp] eqn:E. cbn [fst].
  apply run_stitch_write_effect in E as (_ & _ & _ & _ & [Hfs|Hfs]).
  - rewrite Hfs. split; [by left|]. split; [done|]. split; done.
  - destruct Hfs as (p & node & Hfs & Hp). rewrite Hfs.
    split; [right; eauto|]. split.
    { rewrite dom_insert. set_solver. }
    split.
    + intros q Hq Hmode. rewrite Hmode in Hp. subst p.
      by rewrite lookup_insert_ne.
    + intros Hmode q node' Hq. rewrite Hmode in Hp.
      rewrite lookup_insert_ne; [done|]. intros ->. by rewrite Hp in Hq.
Qed.

Lemma run_stitch_keeps_files_witness :
  fs (fst (run_stitch demo_env seq_world seq_app)) !! "out/3.png"%string
  = Some (photo "3" 1 1)
  ∧ fs (fst (run_stitch single_env demo_world single_app)) !! "a.png"%string
    = fs demo_world !! "a.png"%string.
Proof.
  destruct (run_stitch_keeps_files demo_env seq_world seq_app)
    as (_ & _ & _ & Hseq).
  destruct (run_stitch_keeps_files single_env demo_world single_app)
    as (_ & _ & Hsingle & _).
  split.
  - apply Hseq; reflexivity.
  - apply Hsingle; [discriminate|reflexivity].
Defined.

(** X15. [run_stitch] changes no setting other than the sequential
    counter and leaves the preview cache and canvas alone.  The working
    list is either kept or, after a write with auto-reset set, emptied
    with the counter back at 1.  With auto-reset off the list is always
    kept, and in single-shot mode the counter is then kept too. *)
Theorem run_stitch_keeps_settings env w st :
  let st' := snd (run_stitch env w st) in
  settings_but_index (vars st') = settings_but_index (vars st)
  ∧ preview_img_full (view st') = preview_img_full (view st)
  ∧ canvas_image (view st') = canvas_image (view st)
  ∧ (paths st' = paths st
     ∨ (paths st' = [] ∧ var_auto_reset (vars st) = true
        ∧ var_direct_index (vars st') = Some 1))
  ∧ (var_auto_reset (vars st) = false →
     paths st' = paths st
     ∧ (String.eqb (var_output_mode (vars st)) "single" = true →
        var_direct_index (vars st') = var_direct_index (vars st))).
Proof.
  cbv zeta. unfold run_stitch.
  destruct (run_stitch_write env w st) as [[w1 st1] sp] eqn:E. cbn [snd].
  apply run_stitch_write_effect in E as (Hp & Hv & Hs & Hi & _).
  assert (Hauto : var_auto_reset (vars st1) = var_auto_reset (vars st)).
  { unfold settings_but_index in Hs. by injection Hs. }
  unfold auto_reset. rewrite Hauto.
  destruct (truthy sp && var_auto_reset (vars st)) eqn:Hreset.
  - apply andb_true_iff in Hreset as [_ Hreset].
    unfold clear_all, schedule_preview_update.
    destruct (negb (live_preview_enabled (vars (set_paths [] st1)))); cbn;
      rewrite Hv; (split; [exact Hs|]); (split; [done|]); (split; [done|]);
      (split; [right; by rewrite Hreset|]); intros Hoff;
      by rewrite Hoff in Hreset.
  - split; [exact Hs|]. rewrite Hv. split; [done|]. split; [done|].
    split; [by left|]. intros Hoff. split; [done|]. intros Hmode.
    destruct Hi as [Hi|Hi]; [done|]. by rewrite Hi in Hmode.
Qed.

Lemma run_stitch_keeps_settings_witness :
  paths (snd (run_stitch single_env demo_world keep_app)) = paths keep_app
  ∧ var_direct_index (vars (snd (run_stitch single_env demo_world keep_app)))
    = var_direct_index (vars keep_app).
Proof.
  destruct (run_stitch_keeps_settings single_env demo_world keep_app)
    as (_ & _ & _ & _ & Hkeep).
  destruct (Hkeep eq_refl) as [Hpaths Hindex].
  split; [exact Hpaths|apply Hindex; reflexivity].
Defined.

Lemma run_stitch_write_single env w st spacing w1 img :
  paths st ≠ [] →
  read_spacing st = Some spacing →
  stitch_from_vars env w st spacing = (w1, Ok img) →
  String.eqb (var_output_mode (vars st)) "single" = true →
  String.eqb (asksaveasfilename env) "" = false →
  save_fault env (asksaveasfilename env) = None →
  run_stitch_write env w st =
  (show (InfoDone (asksaveasfilename env))
     (set_fs (<[asksaveasfilename env :=
                  File (encoded_for (asksaveasfilename env) img)]> (fs w1)) w1),
   _set_progress 0 st, Some (asksaveasfilename env)).
Proof.
  intros Hne Hsp Hst Hmode Hpick Hok.
  unfold run_stitch_write. destruct (paths st) eqn:Hp; [done|].
  rewrite Hsp.
  change (stitch_from_vars env w (_set_progress 5 st) spacing)
    with (stitch_from_vars env w st spacing).
  rewrite Hst.
  change (vars (_set_progress 60 (_set_progress 5 st))) with (vars st).
  rewrite Hmode, Hpick. unfold _save_image. rewrite Hok. reflexivity.
Qed.

(** X16. Single-shot output, end to end: with a non-empty list, a valid
    spacing, a composition that succeeds, a destination picked in the
    dialog and a write that goes through, [run_stitch] reads the listed
    images in order, stores the composition at exactly the picked path
    (replacing whatever was there, no free name is looked for), reports
    it with the done dialog and resets the progress bar.  The list and
    the sequential counter are kept unless auto-reset is set. *)
Theorem single_shot_write env w st spacing w1 img :
  paths st ≠ [] →
  read_spacing st = Some spacing →
  stitch_from_vars env w st spacing = (w1, Ok img) →
  String.eqb (var_output_mode (vars st)) "single" = true →
  asksaveasfilename env ≠ ""%string →
  save_fault env (asksaveasfilename env) = None →
  let p := asksaveasfilename env in
  ∃ w' st',
    run_stitch env w st = (w', st')
    ∧ fs w' = <[p := File (encoded_for p img)]> (fs w)
    ∧ opened w' = opened w ++ paths st
    ∧ shown w' = shown w ++ [InfoDone p]
    ∧ progress st' = 0
    ∧ paths st' = (if var_auto_reset (vars st) then [] else paths st)
    ∧ var_direct_index (vars st')
      = (if var_auto_reset (vars st) then Some 1
         else var_direct_index (vars st)).
Proof.
  intros Hne Hsp Hst Hmode Hpick Hok p.
  apply String.eqb_neq in Hpick.
  pose proof (run_stitch_write_single env w st spacing w1 img
                Hne Hsp Hst Hmode Hpick Hok) as Hrun.
  apply stitch_images_ok_world in Hst as ->.
  unfold run_stitch. rewrite Hrun. eexists _, _. split; [reflexivity|].
  cbn [fs show set_fs log_opens opened shown].
  split; [done|]. split; [done|]. split; [done|].
  unfold auto_reset, truthy. fold p.
  change (String.eqb p "") with (String.eqb (asksaveasfilename env) "").
  rewrite Hpick. cbn [negb andb].
  change (vars (_set_progress 0 st)) with (vars st).
  destruct (var_auto_reset (vars st)); [|done].
  unfold clear_all, schedule_preview_update.
  by destruct (negb _).
Qed.

Lemma single_shot_write_witness :
  ∃ w' st',
    run_stitch single_env demo_world keep_app = (w', st')
    ∧ fs w' = <["stitched.png"%string :=
                  File (encoded_for "stitched.png" demo_aligned_out)]>
                (fs demo_world)
    ∧ opened w' = ["a.png"; "b.png"]%string
    ∧ shown w' = [InfoDone "stitched.png"]
    ∧ progress st' = 0
    ∧ paths st' = ["a.png"; "b.png"]%string
    ∧ var_direct_index (vars st') = Some 1.
Proof.
  apply (single_shot_write single_env demo_world keep_app 0
           demo_opened demo_aligned_out).
  - discriminate.
  - reflexivity.
  - vm_compute. reflexivity.
  - reflexivity.
  - discriminate.
  - reflexivity.
Defined.

Lemma size_converted img m : size (Converted img m) = size img.
Proof. reflexivity. Qed.



(** X18. Sequential output checks its settings only after composing:
    with the composition done, an output directory that is unset or is
    no directory, or a counter that is no integer of at least 1, makes
    [run_stitch] show one dialog and stop.  The images were read, but no
    file is written and list, settings, counter and status line are
    what they were; only the progress bar is back at 0. *)
Theorem sequential_settings_checked env w st spacing w1 img :
  paths st ≠ [] →
  read_spacing st = Some spacing →
  stitch_from_vars env w st spacing = (w1, Ok img) →
  String.eqb (var_output_mode (vars st)) "single" = false →
  let out_dir := OsPath.strip (var_out_dir (vars st)) in
  out_dir = ""%string ∨ isdir w out_dir = false ∨ read_index st = None →
  ∃ d, run_stitch env w st = (show d w1, _set_progress 0 st)
       ∧ d ∈ [WarnNoDir; ErrDirMissing out_dir; ErrIndex]
       ∧ (d = WarnNoDir ↔ out_dir = ""%string)
       ∧ fs w1 = fs w
       ∧ opened w1 = opened w ++ paths st.
Proof.
  intros Hne Hsp Hst Hmode out_dir Hbad.
  pose proof (stitch_images_ok_world _ _ _ _ _ _ _ _ _ _ Hst) as Hw1.
  assert (Hfs : fs w1 = fs w) by by rewrite Hw1.
  assert (Hop : opened w1 = opened w ++ paths st) by by rewrite Hw1.
  assert (Hrun : ∃ d, run_stitch_write env w st
                      = (show d w1, _set_progress 0 st, None)
                      ∧ d ∈ [WarnNoDir; ErrDirMissing out_dir; ErrIndex]
                      ∧ (d = WarnNoDir ↔ out_dir = ""%string)).
  { unfold run_stitch_write. destruct (paths st) eqn:Hp; [done|].
    rewrite Hsp.
    change (stitch_from_vars env w (_set_progress 5 st) spacing)
      with (stitch_from_vars env w st spacing).
    rewrite Hst.
    change (vars (_set_progress 60 (_set_progress 5 st))) with (vars st).
    rewrite Hmode. fold out_dir.
    destruct (String.eqb out_dir "") eqn:Hdir.
    { apply String.eqb_eq in Hdir. exists WarnNoDir.
      split; [done|]. split; [apply list_elem_of_here|done]. }
    apply String.eqb_neq in Hdir.
    rewrite (isdir_ext w1 w _ Hfs).
    destruct (isdir w out_dir) eqn:Hisdir; cbn [negb].
    2: { exists (ErrDirMissing out_dir). split; [done|].
         split; [apply list_elem_of_further, list_elem_of_here|done]. }
    change (read_index (_set_progress 60 (_set_progress 5 st)))
      with (read_index st).
    destruct Hbad as [Hbad|[Hbad|Hbad]]; [done|done|].
    rewrite Hbad. exists ErrIndex. split; [done|].
    split; [do 2 apply list_elem_of_further; apply list_elem_of_here|done]. }
  destruct Hrun as (d & Hrun & Hd & Hiff). exists d.
  unfold run_stitch. rewrite Hrun. by cbn.
Qed.

Lemma sequential_settings_checked_witness :
  ∃ d, run_stitch demo_env demo_world nodir_app
       = (show d demo_opened, _set_progress 0 nodir_app)
       ∧ d ∈ [WarnNoDir; ErrDirMissing "nowhere"; ErrIndex]
       ∧ (d = WarnNoDir ↔ "nowhere"%string = ""%string)
       ∧ fs demo_opened = fs demo_world
       ∧ opened demo_opened = opened demo_world ++ paths nodir_app.
Proof.
  apply (sequential_settings_checked demo_env demo_world nodir_app 0
           demo_opened demo_aligned_out).
  - discriminate.
  - reflexivity.
  - vm_compute. reflexivity.
  - reflexivity.
  - right. left. reflexivity.
Defined.

(** ** Preview and output *)

Lemma open_images_ext w1 w2 ps :
  fs w1 = fs w2 → snd (open_images w1 ps) = snd (open_images w2 ps).
Proof.
  revert w1 w2. induction ps as [|p ps IH]; intros w1 w2 Hfs; [done|].
  cbn [open_images open_image_safe]. rewrite Hfs.
  destruct (fs w2 !! p) as [[|[img q|]]|]; try done.
  specialize (IH (log_open p w1) (log_open p w2) Hfs).
  destruct (open_images (log_open p w1) ps) as [w1' r1].
  destruct (open_images (log_open p w2) ps) as [w2' r2].
  cbn [snd] in *. by rewrite IH.
Qed.

Lemma stitch_images_ext env w1 w2 ps o sc sp bg tem :
  fs w1 = fs w2 →
  snd (stitch_images env w1 ps o sc sp bg tem)
  = snd (stitch_images env w2 ps o sc sp bg tem).
Proof.
  intros Hfs. unfold stitch_images. destruct ps as [|p ps]; [done|].
  pose proof (open_images_ext w1 w2 (p :: ps) Hfs) as H.
  destruct (open_images w1 (p :: ps)) as [w1' r1].
  destruct (open_images w2 (p :: ps)) as [w2' r2].
  cbn [snd] in *. by rewrite H.
Qed.

Lemma fit_preview_width_keeps env st :
  paths (fst (fit_preview_width env st)) = paths st
  ∧ preview_img_full (view (fst (fit_preview_width env st)))
    = preview_img_full (view st)
  ∧ settings_but_zoom (vars (fst (fit_preview_width env st)))
    = settings_but_zoom (vars st).
Proof.
  unfold fit_preview_width.
  destruct (preview_img_full (view st)) as [full|] eqn:Hfull; [|done].
  destruct (negb _); [done|].
  by destruct (fit_scale _ _).
Qed.

Lemma render_preview_scaled_keeps st :
  paths (fst (render_preview_scaled st)) = paths st
  ∧ preview_img_full (view (fst (render_preview_scaled st)))
    = preview_img_full (view st)
  ∧ vars (fst (render_preview_scaled st)) = vars st.
Proof.
  unfold render_preview_scaled.
  destruct (preview_img_full (view st)) as [full|] eqn:Hfull; [|done].
  destruct (negb _); [done|].
  destruct (size full) as [W H].
  destruct (_ ← scaled_px W _; _) as [[sw sh]|e]; [|done].
  by destruct (_ ← float_of_int 100; _).
Qed.

(** X19. The preview shows what would be written: when the debounce
    callback has composed the listed images (list non-empty, live
    preview on, valid spacing) and left a composition in the cache, a
    single-shot [run_stitch] right after, with a destination picked and
    the write going through, stores exactly that composition.  The
    preview itself writes no file and shows no dialog. *)
Theorem preview_shows_output env w st spacing w1 st1 img :
  paths st ≠ [] →
  live_preview_enabled (vars st) = true →
  read_spacing st = Some spacing →
  render_preview_full env w st = (w1, st1) →
  preview_img_full (view st1) = Some img →
  String.eqb (var_output_mode (vars st)) "single" = true →
  asksaveasfilename env ≠ ""%string →
  save_fault env (asksaveasfilename env) = None →
  let p := asksaveasfilename env in
  fs w1 = fs w ∧ shown w1 = shown w
  ∧ fs (fst (run_stitch env w1 st1)) = <[p := File (encoded_for p img)]> (fs w)
  ∧ shown (fst (run_stitch env w1 st1)) = shown w ++ [InfoDone p].
Proof.
  intros Hne Hlive Hsp Hrender Hcache Hmode Hpick Hok p.
  apply String.eqb_neq in Hpick.
  unfold render_preview_full in Hrender.
  change (paths (set_job false st)) with (paths st) in Hrender.
  destruct (paths st) as [|p0 ps] eqn:Hp; [done|].
  change (vars (set_job false st)) with (vars st) in Hrender.
  rewrite Hlive in Hrender. cbn [negb] in Hrender.
  change (read_spacing (set_job false st)) with (read_spacing st) in Hrender.
  rewrite Hsp in Hrender. unfold preview_recompute in Hrender.
  pose proof (stitch_from_vars_fs env w (set_job false st) spacing)
    as [Hfs Hsh].
  destruct (stitch_from_vars env w (set_job false st) spacing)
    as [w0 [img0|e]] eqn:Hst; cbn [fst] in Hfs, Hsh.
  2: { injection Hrender as <- <-. by cbn in Hcache. }
  set (st2 := set_img_full (Some img0) (set_job false st)) in Hrender.
  pose proof (fit_preview_width_keeps env st2) as (Hp3 & Hc3 & Hv3).
  destruct (fit_preview_width env st2) as [st3 [[]|e]];
    cbn [fst] in Hp3, Hc3, Hv3.
  2: { injection Hrender as <- <-. by cbn in Hcache. }
  pose proof (render_preview_scaled_keeps st3) as (Hp4 & Hc4 & Hv4).
  destruct (render_preview_scaled st3) as [st4 [[]|e]];
    cbn [fst] in Hp4, Hc4, Hv4.
  2: { injection Hrender as <- <-. by cbn in Hcache. }
  injection Hrender as <- <-.
  rewrite Hc4, Hc3 in Hcache. cbn in Hcache. injection Hcache as ->.
  assert (Hpaths : paths st4 = paths st) by by rewrite Hp4, Hp3, Hp.
  change (vars st2) with (vars st) in Hv3.
  unfold settings_but_zoom in Hv3.
  injection Hv3 as Hlive3 Horient Hscale Hspacing Hbg Htm Hom _ _ _ _.
  assert (Hst4 : snd (stitch_from_vars env w0 st4 spacing) = Ok img).
  { unfold stitch_from_vars.
    rewrite Hpaths, Hv4, Horient, Hscale, Hbg, Htm.
    rewrite (stitch_images_ext env w0 w _ _ _ _ _ _ Hfs).
    change (snd (stitch_from_vars env w (set_job false st) spacing) = Ok img).
    by rewrite Hst. }
  pose proof (stitch_from_vars_fs env w0 st4 spacing) as [Hfs4 Hsh4].
  destruct (stitch_from_vars env w0 st4 spacing) as [w5 r5] eqn:Hst5.
  cbn [fst snd] in Hfs4, Hsh4, Hst4. subst r5.
  assert (Hrun : run_stitch_write env w0 st4
                 = (show (InfoDone p)
                      (set_fs (<[p := File (encoded_for p img)]> (fs w5)) w5),
                    _set_progress 0 st4, Some p)).
  { apply (run_stitch_write_single env w0 st4 spacing w5 img); try done.
    - by rewrite Hpaths, Hp.
    - unfold read_spacing in *. by rewrite Hv4, Hspacing.
    - by rewrite Hv4, Hom. }
  split; [done|]. split; [done|].
  rewrite run_stitch_world, Hrun. cbn [fst fs shown show set_fs].
  by rewrite Hfs4, Hfs, Hsh4, Hsh.
Qed.

Lemma preview_shows_output_witness :
  preview_img_full
    (view (snd (render_preview_full single_env demo_world keep_app)))
  = Some demo_aligned_out
  ∧ fs (fst (run_stitch single_env
               (fst (render_preview_full single_env demo_world keep_app))
               (snd (render_preview_full single_env demo_world keep_app))))
    = <["stitched.png"%string :=
          File (encoded_for "stitched.png" demo_aligned_out)]>
        (fs demo_world).
Proof.
  assert (Hcache :
    preview_img_full
      (view (snd (render_preview_full single_env demo_world keep_app)))
    = Some demo_aligned_out) by (vm_compute; reflexivity).
  split; [exact Hcache|].
  refine (proj1 (proj2 (proj2
    (preview_shows_output single_env demo_world keep_app 0
       (fst (render_preview_full single_env demo_world keep_app))
       (snd (render_preview_full single_env demo_world keep_app))
       demo_aligned_out _ eq_refl eq_refl _ Hcache eq_refl _ eq_refl)))).
  - discriminate.
  - apply surjective_pairing.
  - discriminate.
Defined.

(** ** Live preview switched off *)

Lemma schedule_preview_update_off st :
  live_preview_enabled (vars st) = false → schedule_preview_update st = st.
Proof. intros H. unfold schedule_preview_update. by rewrite H. Qed.

Lemma run_stitch_off env w st :
  preview_off st → preview_off (snd (run_stitch env w st)).
Proof.
  intros [Hoff Hview]. unfold run_stitch.
  destruct (run_stitch_write env w st) as [[w1 st1] sp] eqn:E. cbn [snd].
  apply run_stitch_write_effect in E as (_ & Hv & Hs & _ & _).
  assert (Hoff1 : live_preview_enabled (vars st1) = false).
  { unfold settings_but_index in Hs. injection Hs as ->. all: done. }
  unfold auto_reset. destruct (_ && _).
  - unfold clear_all. rewrite schedule_preview_update_off by done.
    split; cbn; [done|by rewrite Hv].
  - split; [done|by rewrite Hv].
Qed.

Lemma handle_preview_off env ev w st :
  preview_off st → keeps_box ev →
  preview_off (snd (handle env ev w st))
  ∧ (is_run ev = false → opened (fst (handle env ev w st)) = opened w).
Proof.
  intros Hpo Hev. pose proof Hpo as [Hoff Hview].
  destruct ev; cbn [handle is_run keeps_box] in *; try done.
  - (* AddFiles *)
    unfold add_files, _add_paths. destruct chosen as [|c cs]; [done|].
    destruct (List.filter _ _); [done|].
    by rewrite schedule_preview_update_off.
  - (* DropFiles *)
    unfold _add_paths. destruct (List.filter _ _); [done|].
    by rewrite schedule_preview_update_off.
  - (* RemoveSelected *)
    unfold remove_selected. destruct sel; [done|].
    by rewrite schedule_preview_update_off.
  - (* ClearAll *)
    unfold clear_all. by rewrite schedule_preview_update_off.
  - (* MoveSelection *)
    unfold move_selection. destruct sel; [done|].
    by rewrite schedule_preview_update_off.
  - (* SchedulePreview *)
    by rewrite schedule_preview_update_off.
  - (* TimerFired *)
    unfold render_preview_full.
    change (paths (set_job false st)) with (paths st).
    change (vars (set_job false st)) with (vars st).
    rewrite Hoff. cbn [negb].
    destruct (paths st); (split; [|done]); split; cbn; try done;
      by rewrite Hview.
  - (* ScaleMoved *)
    unfold render_preview_scaled.
    change (view (set_preview_scale x st)) with (view st).
    rewrite Hview. by cbn.
  - (* FitWidth *)
    unfold fit_preview_width. rewrite Hview. by cbn.
  - (* RunStitch *)
    split; [by apply run_stitch_off|done].
Qed.

(** X20. Switching live preview off empties the preview pane: no
    composition cached, nothing drawn, no timer pending.  It stays so
    through every later event that leaves the live-preview box alone,
    and as long as the stitch is not run no image file is read. *)
Theorem live_preview_off_stays_off env evs w st :
  live_preview_enabled (vars st) = true →
  Forall (fun e => keeps_box e.2) evs →
  let st0 := snd (handle env ToggleLivePreview w st) in
  preview_off st0
  ∧ preview_off (snd (run_events evs w st0))
  ∧ (Forall (fun e => is_run e.2 = false) evs →
     opened (fst (run_events evs w st0)) = opened w).
Proof.
  intros Hon Hevs st0.
  assert (H0 : preview_off st0).
  { subst st0. cbn [handle snd]. rewrite Hon. cbn [negb].
    unfold toggle_live_preview. by cbn. }
  split; [exact H0|].
  generalize dependent st0. intros st0 H0. clear Hon st.
  revert w st0 H0.
  induction Hevs as [|[env' ev] evs Hev Hevs IH]; intros w st0 H0; [done|].
  cbn [run_events].
  destruct (handle_preview_off env' ev w st0 H0 Hev) as [H1 Hop].
  destruct (handle env' ev w st0) as [w1 st1]. cbn [fst snd] in H1, Hop.
  destruct (IH w1 st1 H1) as [H2 Hop2].
  split; [done|]. intros Hrun. apply Forall_cons in Hrun as [Hr Hrun].
  by rewrite Hop2, Hop.
Qed.

Lemma live_preview_off_stays_off_witness :
  preview_off
    (snd (run_events quiet_session demo_world
            (snd (handle demo_env ToggleLivePreview demo_world demo_preview))))
  ∧ opened
      (fst (run_events quiet_session demo_world
              (snd (handle demo_env ToggleLivePreview demo_world
                      demo_preview))))
    = opened demo_world.
Proof.
  assert (Hbox : Forall (fun e : Env * Event => keeps_box e.2) quiet_session)
    by (repeat constructor).
  assert (Hrun : Forall (fun e : Env * Event => is_run e.2 = false)
                        quiet_session)
    by (repeat constructor).
  destruct (live_preview_off_stays_off demo_env quiet_session demo_world
              demo_preview eq_refl Hbox) as (_ & Hoff & Hopened).
  split; [exact Hoff|exact (Hopened Hrun)].
Defined.

(** ** Dropped files *)

Lemma split_loop_app a b s :
  split_loop (a +:+ b) s = split_loop b (split_loop a s).
Proof.
  revert s. induction a as [|c a IH]; intros s; [done|].
  change (split_loop (a +:+ b) (split_step s c)
          = split_loop b (split_loop a (split_step s c))).
  apply IH.
Qed.

(** Outside braces a run of characters other than braces and the space
    is appended to the token. *)
Lemma split_loop_word s res tok :
  all_chars (fun c => negb (Ascii.eqb c "{") && negb (Ascii.eqb c "}")) s
  = true →
  all_chars (fun c => negb (Ascii.eqb c " ")) s = true →
  split_loop s (res, tok, false) = (res, (tok +:+ s)%string, false).
Proof.
  revert tok. induction s as [|c s IH]; intros tok Hb Hs.
  - by rewrite string_app_nil_r.
  - cbn [all_chars] in Hb, Hs.
    apply andb_true_iff in Hb as [Hc Hb]. apply andb_true_iff in Hc as [Ho Hc].
    apply andb_true_iff in Hs as [Hsp Hs].
    apply negb_true_iff in Ho, Hc, Hsp.
    cbn [split_loop split_step]. rewrite Ho, Hc, Hsp. cbn [andb].
    rewrite IH by done. by rewrite string_app_snoc.
Qed.

(** Inside braces the space is one more character of the token. *)
Lemma split_loop_braced s res tok :
  all_chars (fun c => negb (Ascii.eqb c "{") && negb (Ascii.eqb c "}")) s
  = true →
  split_loop s (res, tok, true) = (res, (tok +:+ s)%string, true).
Proof.
  revert tok. induction s as [|c s IH]; intros tok Hb.
  - by rewrite string_app_nil_r.
  - cbn [all_chars] in Hb.
    apply andb_true_iff in Hb as [Hc Hb]. apply andb_true_iff in Hc as [Ho Hc].
    apply negb_true_iff in Ho, Hc.
    cbn [split_loop split_step]. rewrite Ho, Hc.
    rewrite andb_false_r. rewrite IH by done. by rewrite string_app_snoc.
Qed.

Lemma flush_stripped_empty res : flush_stripped res "" = (res, ""%string).
Proof. reflexivity. Qed.

Lemma flush_stripped_plain res p :
  p ≠ ""%string → OsPath.strip p = p →
  flush_stripped res p = (res ++ [p], ""%string).
Proof.
  intros Hne Hstrip. unfold flush_stripped. rewrite Hstrip.
  apply String.eqb_neq in Hne. by rewrite Hne.
Qed.

Lemma split_loop_quoted p res :
  plain p = true →
  split_loop (tk_quote p) (res, ""%string, false)
  = if has_space p then (res ++ [p], ""%string, false) else (res, p, false).
Proof.
  unfold plain. intros Hp.
  apply andb_true_iff in Hp as [Hp Hends].
  apply andb_true_iff in Hp as [Hne Hb].
  apply negb_true_iff in Hne.
  unfold tk_quote. destruct (has_space p) eqn:Hsp.
  - change ("{" +:+ p +:+ "}")%string with (String "{" (p +:+ "}"))%string.
    cbn [split_loop]. change (split_step (res, ""%string, false) "{")
      with (res, ""%string, true).
    rewrite split_loop_app, split_loop_braced by done.
    change ("" +:+ p)%string with p.
    cbn [split_loop split_step Ascii.eqb Bool.eqb]. by rewrite Hne.
  - unfold has_space in Hsp. apply negb_false_iff in Hsp.
    by rewrite split_loop_word.
Qed.

Lemma plain_flush p res :
  plain p = true → has_space p = false →
  flush_stripped res p = (res ++ [p], ""%string).
Proof.
  unfold plain. intros Hp Hsp. rewrite Hsp in Hp.
  apply andb_true_iff in Hp as [Hp Hends].
  apply andb_true_iff in Hp as [Hne _].
  apply negb_true_iff, String.eqb_neq in Hne.
  cbn [orb] in Hends. apply String.eqb_eq in Hends.
  by apply flush_stripped_plain.
Qed.

Lemma split_loop_list ps res :
  Forall (fun p => plain p = true) ps →
  (let '(res', token, _) :=
     split_loop (String.concat " " (map tk_quote ps)) (res, ""%string, false)
   in fst (flush_stripped res' token)) = res ++ ps.
Proof.
  intros Hps. revert res.
  induction Hps as [|p ps Hp Hps IH]; intros res.
  - cbn. by rewrite app_nil_r.
  - destruct ps as [|q ps].
    + cbn [map String.concat]. rewrite split_loop_quoted by done.
      destruct (has_space p) eqn:Hsp; [done|].
      by rewrite plain_flush.
    + change (String.concat " " (map tk_quote (p :: q :: ps)))
        with (tk_quote p +:+ String " " (String.concat " "
                                            (map tk_quote (q :: ps))))%string.
      rewrite split_loop_app, split_loop_quoted by done.
      cbn [split_loop].
      assert (Hstep : split_step
                (if has_space p then (res ++ [p], ""%string, false)
                 else (res, p, false)) " "
              = (res ++ [p], ""%string, false)).
      { destruct (has_space p) eqn:Hsp; [done|].
        cbn [split_step Ascii.eqb Bool.eqb andb negb].
        by rewrite plain_flush. }
      rewrite Hstep, IH. by rewrite <- app_assoc.
Qed.

(** X21. The scanner of [_split_drop_paths] reads back a Tk list of
    names.  Take names that are not empty, hold no brace and, where
    they hold no space, have no white space at either end ([plain]);
    write them one after the other with a single space between them,
    the ones that hold a space wrapped in braces.  The scanner returns
    the very same list.  When none of the names is a directory,
    [_split_drop_paths] returns those with a supported extension, in
    their order. *)
Theorem split_drop_paths_round_trip walk w ps :
  Forall (fun p => plain p = true) ps →
  split_tokens (String.concat " " (map tk_quote ps)) = ps
  ∧ (Forall (fun p => isdir w p = false) ps →
     _split_drop_paths walk w (String.concat " " (map tk_quote ps))
     = List.filter is_image_file ps).
Proof.
  intros Hps.
  assert (Htok : split_tokens (String.concat " " (map tk_quote ps)) = ps).
  { unfold split_tokens. by rewrite (split_loop_list ps [] Hps). }
  split; [exact Htok|].
  intros Hdirs. unfold _split_drop_paths. rewrite Htok. clear Htok Hps.
  induction Hdirs as [|p ps Hp Hdirs IH]; [done|].
  cbn [map concat List.filter]. rewrite Hp, IH.
  by destruct (is_image_file p).
Qed.

Lemma split_drop_paths_round_trip_witness :
  split_tokens "a.png {my holiday.JPG} notes.txt b.png" = dropped_names
  ∧ _split_drop_paths no_walk demo_world
      "a.png {my holiday.JPG} notes.txt b.png"
    = ["a.png"; "my holiday.JPG"; "b.png"]%string.
Proof.
  assert (Hplain : Forall (fun p => plain p = true) dropped_names)
    by (repeat constructor).
  assert (Hfiles : Forall (fun p => isdir demo_world p = false) dropped_names)
    by (repeat constructor).
  destruct (split_drop_paths_round_trip no_walk demo_world dropped_names
              Hplain) as [Htok Hdrop].
  split; [exact Htok|exact (Hdrop Hfiles)].
Defined.

(** X22. Everything [_split_drop_paths] returns has a supported
    extension, whether it was dropped itself or found under a dropped
    directory, so [on_drop] appends the returned paths to the working
    list as they are, after the paths already listed. *)
Theorem on_drop_appends_images walk data w st :
  Forall (fun p => is_image_file p = true) (_split_drop_paths walk w data)
  ∧ paths (snd (on_drop walk data w st))
    = paths st ++ _split_drop_paths walk w data
  ∧ fs (fst (on_drop walk data w st)) = fs w
  ∧ opened (fst (on_drop walk data w st)) = opened w.
Proof.
  assert (Himg : Forall (fun p => is_image_file p = true)
                        (_split_drop_paths walk w data)).
  { unfold _split_drop_paths. apply Forall_concat, Forall_fmap.
    apply Forall_forall. intros p _. cbn.
    destruct (isdir w p).
    - apply Forall_forall. intros q Hq.
      apply list_elem_of_In, filter_In in Hq. by destruct Hq.
    - destruct (is_image_file p) eqn:Hp; by repeat constructor. }
  split; [exact Himg|].
  unfold on_drop, _add_paths.
  assert (Hfilter : List.filter is_image_file (_split_drop_paths walk w data)
                    = _split_drop_paths walk w data).
  { apply forallb_filter_id, forallb_forall. intros p Hp.
    rewrite Forall_forall in Himg. apply Himg. by apply list_elem_of_In. }
  rewrite Hfilter.
  destruct (_split_drop_paths walk w data) eqn:E.
  - cbn [fst snd show fs opened]. by rewrite app_nil_r.
  - cbn [fst snd]. by rewrite schedule_preview_update_paths.
Qed.

(** ** The zoom range *)

Lemma fltb_leb a b : fltb a b = true → SFleb a b = true.
Proof.
  unfold fltb, SFltb, SFleb. by destruct (SFcompare a b) as [[]|].
Qed.

Lemma zoom_range_between x :
  fltb scale_lo x = true → fltb x scale_hi = true → in_zoom_range x.
Proof. intros Hlo Hhi. split; by apply fltb_leb. Qed.

Lemma zoom_range_lo : in_zoom_range scale_lo.
Proof. split; reflexivity. Qed.

Lemma zoom_range_hi : in_zoom_range scale_hi.
Proof. split; reflexivity. Qed.

Lemma zoom_range_max_min x : in_zoom_range (fmax scale_lo (fmin scale_hi x)).
Proof.
  unfold fmin. destruct (fltb x scale_hi) eqn:Hhi.
  - unfold fmax. destruct (fltb scale_lo x) eqn:Hlo.
    + by apply zoom_range_between.
    + apply zoom_range_lo.
  - change (fmax scale_lo scale_hi) with scale_hi. apply zoom_range_hi.
Qed.

Lemma zoom_range_min_max q : in_zoom_range (fmin scale_hi (fmax scale_lo q)).
Proof.
  unfold fmax. destruct (fltb scale_lo q) eqn:Hlo.
  - unfold fmin. destruct (fltb q scale_hi) eqn:Hhi.
    + by apply zoom_range_between.
    + apply zoom_range_hi.
  - change (fmin scale_hi scale_lo) with scale_lo. apply zoom_range_lo.
Qed.

(** X23. The zoom never leaves [0.05, 3.0]: the scale
    [render_preview_scaled] draws with is in that range for every value
    of the zoom variable, a NaN or an infinity included, and every scale
    [fit_preview_width] computes and stores is in that range, whatever
    widths Tk and the composition report. *)
Theorem zoom_stays_in_range :
  (∀ x, in_zoom_range (fmax scale_lo (fmin scale_hi x)))
  ∧ (∀ st st' full,
       preview_img_full (view st) = Some full →
       live_preview_enabled (vars st) = true →
       render_preview_scaled st = (st', Ok tt) →
       ∃ s sw sh,
         in_zoom_range s
         ∧ scaled_px (width full) s = Ok sw
         ∧ scaled_px (height full) s = Ok sh
         ∧ canvas_image (view st') = Some (Resized full sw sh))
  ∧ (∀ winfo_w img_w s, fit_scale winfo_w img_w = Ok s → in_zoom_range s)
  ∧ (∀ env st st' full,
       preview_img_full (view st) = Some full →
       live_preview_enabled (vars st) = true →
       fit_preview_width env st = (st', Ok tt) →
       in_zoom_range (preview_scale (vars st'))).
Proof.
  assert (Hfit : ∀ winfo_w img_w s,
            fit_scale winfo_w img_w = Ok s → in_zoom_range s).
  { intros winfo_w img_w s. unfold fit_scale.
    destruct (float_of_int (Z.max 1 winfo_w)) as [c|e]; [|done].
    destruct (float_of_int (Z.max 1 img_w)) as [i|e]; [|done].
    cbn [mbind result_bind].
    destruct (float_truediv (fmul c fit_margin) i) as [q|e]; [|done].
    cbn [mbind result_bind]. intros [= <-]. apply zoom_range_min_max. }
  split; [apply zoom_range_max_min|]. split.
  { intros st st' full Hfull Hlive Hrun.
    unfold render_preview_scaled in Hrun. rewrite Hfull, Hlive in Hrun.
    cbn [negb] in Hrun.
    set (s := fmax scale_lo (fmin scale_hi (preview_scale (vars st)))) in Hrun.
    assert (Hw : width full = fst (size full)) by done.
    assert (Hh : height full = snd (size full)) by done.
    destruct (size full) as [W H]. cbn [fst snd] in Hw, Hh. subst W H.
    destruct (scaled_px (width full) s) as [sw|] eqn:Hsw; [|done].
    destruct (scaled_px (height full) s) as [sh|] eqn:Hsh; [|done].
    cbn [mbind result_bind] in Hrun.
    destruct (float_of_int 100); [|done]. cbn [mbind result_bind] in Hrun.
    destruct (to_int _); [|done].
    injection Hrun as <-.
    exists s, sw, sh. split; [apply zoom_range_max_min|]. by repeat split. }
  split; [exact Hfit|].
  intros env st st' full Hfull Hlive. unfold fit_preview_width.
  rewrite Hfull, Hlive. cbn [negb].
  destruct (fit_scale _ _) as [s|e] eqn:Hs; [|done].
  intros [= <-]. cbn. by eapply Hfit.
Qed.

Lemma zoom_stays_in_range_witness :
  in_zoom_range (literal 49 100)
  ∧ in_zoom_range
      (preview_scale (vars (fst (fit_preview_width demo_env demo_preview)))).
Proof.
  destruct zoom_stays_in_range as (_ & _ & Hfit & Hset).
  split.
  - apply (Hfit 1000 2000). vm_compute. reflexivity.
  - apply (Hset demo_env demo_preview _ demo_canvas eq_refl eq_refl).
    vm_compute. reflexivity.
Defined.

(** ** What a run reads, and the progress bar *)

Lemma open_images_prefix w ps :
  ∃ k, opened (fst (open_images w ps)) = opened w ++ take k ps.
Proof.
  revert w. induction ps as [|p ps IH]; intros w.
  - exists 0%nat. cbn. by rewrite app_nil_r.
  - cbn [open_images open_image_safe].
    destruct (fs w !! p) as [[|[img q|]]|]; try by exists 1%nat.
    destruct (IH (log_open p w)) as [k Hk].
    destruct (open_images (log_open p w) ps) as [w2 r]. cbn [fst] in *.
    exists (S k). rewrite Hk. cbn. by rewrite <- app_assoc.
Qed.

Lemma stitch_images_prefix env w ps o sc sp bg tem :
  ∃ k, opened (fst (stitch_images env w ps o sc sp bg tem))
       = opened w ++ take k ps.
Proof.
  unfold stitch_images. destruct ps as [|p ps].
  - exists 0%nat. cbn. by rewrite app_nil_r.
  - destruct (open_images_prefix w (p :: ps)) as [k Hk]. exists k.
    by destruct (open_images w (p :: ps)) as [w1 r].
Qed.

Lemma run_stitch_write_opened env w st :
  opened (fst (fst (run_stitch_write env w st))) = opened w
  ∨ ∃ spacing,
      opened (fst (fst (run_stitch_write env w st)))
      = opened (fst (stitch_from_vars env w st spacing)).
Proof.
  unfold run_stitch_write.
  destruct (paths st) as [|p0 ps] eqn:Hp; [by left|].
  destruct (read_spacing st) as [spacing|]; [|by left].
  right. exists spacing.
  change (stitch_from_vars env w (_set_progress 5 st) spacing)
    with (stitch_from_vars env w st spacing).
  destruct (stitch_from_vars env w st spacing) as [w0 [img|e]]; [|done].
  destruct (String.eqb _ "single").
  - destruct (String.eqb (asksaveasfilename env) ""); [done|].
    pose proof (save_image_opened env w0 img (asksaveasfilename env)) as Hop.
    by destruct (_save_image _ _ _ _) as [w2 [[]|e]].
  - destruct (String.eqb _ ""); [done|].
    destruct (negb _); [done|].
    destruct (read_index _) as [i|]; [|done].
    destruct (probe_free _ _ _ _ _) as [j|]; [|done].
    cbv zeta.
    pose proof (save_image_opened env w0 img
                  (candidate (OsPath.strip
                     (var_out_dir (vars (_set_progress 60
                                           (_set_progress 5 st)))))
                     j (direct_ext (_set_progress 60 (_set_progress 5 st)))))
      as Hop.
    by destruct (_save_image _ _ _ _) as [w2 [[]|e]].
Qed.

(** X24. Neither the output nor the preview reads a file outside the
    working list: what [run_stitch] and [render_preview_full] hand to
    [Image.open] is a front part of the list, in list order (all of it
    when the images load, up to the first unreadable one otherwise,
    nothing when the run stops before composing). *)
Theorem only_listed_files_read env w st :
  (∃ k, opened (fst (run_stitch env w st)) = opened w ++ take k (paths st))
  ∧ (∃ k, opened (fst (render_preview_full env w st))
          = opened w ++ take k (paths st)).
Proof.
  split.
  - rewrite run_stitch_world.
    destruct (run_stitch_write_opened env w st) as [H|[spacing H]];
      rewrite H.
    + exists 0%nat. cbn. by rewrite app_nil_r.
    + apply stitch_images_prefix.
  - unfold render_preview_full.
    change (paths (set_job false st)) with (paths st).
    assert (H0 : ∃ k : nat, opened w = opened w ++ take k (paths st)).
    { exists 0%nat. cbn. by rewrite app_nil_r. }
    destruct (paths st) as [|p0 ps] eqn:Hp; [done|].
    destruct (negb _); [done|].
    destruct (read_spacing _) as [spacing|]; [|done].
    unfold preview_recompute.
    destruct (stitch_images_prefix env w (paths st)
                (var_orient (vars st)) (var_scale (vars st)) spacing
                (var_bg (vars st)) (var_target_mode (vars st))) as [k Hk].
    change (stitch_from_vars env w (set_job false st) spacing)
      with (stitch_from_vars env w st spacing).
    unfold stitch_from_vars.
    destruct (stitch_images env w (paths st) _ _ _ _ _) as [w0 [img|e]];
      cbn [fst] in Hk; rewrite Hp in Hk.
    2: { by exists k. }
    destruct (fit_preview_width _ _) as [st3 [[]|e]].
    2: { by exists k. }
    destruct (render_preview_scaled st3) as [st4 [[]|e]]; by exists k.
Qed.

Lemma run_stitch_write_progress env w st :
  match paths st, read_spacing st with
  | [], _ | _, None =>
      progress (snd (fst (run_stitch_write env w st))) = progress st
  | _, _ => progress (snd (fst (run_stitch_write env w st))) = 0
  end.
Proof.
  unfold run_stitch_write.
  destruct (paths st) as [|p0 ps] eqn:Hp; [done|].
  destruct (read_spacing st) as [spacing|]; [|done].
  destruct (stitch_from_vars _ _ _ _) as [w0 [img|e]]; [|done].
  destruct (String.eqb _ "single").
  - destruct (String.eqb (asksaveasfilename env) ""); [done|].
    by destruct (_save_image _ _ _ _) as [w2 [[]|e]].
  - destruct (String.eqb _ ""); [done|].
    destruct (negb _); [done|].
    destruct (read_index _) as [i|]; [|done].
    destruct (probe_free_total w0
                (OsPath.strip (var_out_dir
                   (vars (_set_progress 60 (_set_progress 5 st)))))
                (direct_ext (_set_progress 60 (_set_progress 5 st))) i)
      as [j Hj].
    rewrite Hj. cbv zeta.
    by destruct (_save_image _ _ _ _) as [w2 [[]|e]].
Qed.

(** X25. [run_stitch] never leaves the progress bar part-way: once the
    list is non-empty and the spacing valid, every way out of
    [run_stitch] (failure to compose, cancelled dialog, bad sequential
    setting, failed or successful write) ends with the bar at 0; when
    the list is empty or the spacing invalid the bar is not touched. *)
Theorem progress_bar_reset env w st :
  let st' := snd (run_stitch env w st) in
  (paths st ≠ [] → is_Some (read_spacing st) → progress st' = 0)
  ∧ (paths st = [] ∨ read_spacing st = None → progress st' = progress st).
Proof.
  cbv zeta.
  assert (Hreset : progress (snd (run_stitch env w st))
                   = progress (snd (fst (run_stitch_write env w st)))).
  { unfold run_stitch.
    destruct (run_stitch_write env w st) as [[w1 st1] sp]. cbn [fst snd].
    unfold auto_reset. destruct (_ && _); [|done].
    unfold clear_all, schedule_preview_update. by destruct (negb _). }
  rewrite Hreset. pose proof (run_stitch_write_progress env w st) as H.
  split.
  - intros Hne [spacing Hsp]. rewrite Hsp in H.
    by destruct (paths st).
  - intros [Hp|Hsp].
    + by rewrite Hp in H.
    + rewrite Hsp in H. by destruct (paths st).
Qed.

Lemma progress_bar_reset_witness :
  progress (snd (run_stitch failing_env seq_world seq_app)) = 0
  ∧ progress (snd (run_stitch demo_env demo_world (_set_progress 40 init_app)))
    = 40.
Proof.
  destruct (progress_bar_reset failing_env seq_world seq_app) as [Hzero _].
  destruct (progress_bar_reset demo_env demo_world (_set_progress 40 init_app))
    as [_ Hkept].
  split.
  - apply Hzero; [discriminate|eexists; reflexivity].
  - apply Hkept. left. reflexivity.
Defined.
